(** * Game-segment detector of twitchtoYt ([split_lol_games.py])

    A shallow embedding of the segment detector: the sampling loop of
    [detect_segments] with its two-state machine (idle / segment open), the
    repair tiers of [ensure_readable_video], the cutting batch of
    [cut_segments] and the command-line entry point.

    Conventions of the embedding.
    - Python floats (timestamps, durations, frame rate) are exact rationals
      [Q]; Python ints are [Z].  Rounding of binary floating point is not
      modelled.
    - OpenCV and the OCR engine are an interface ([Vision]); the operating
      system, the file system and the external transcoder are another
      ([Host]).  The program is written against these interfaces.
    - Exceptions are values of [exn]; a computation that may raise returns a
      [Result]. *)

From Stdlib Require Import ZArith QArith Qminmax Lqa Lia List Sorted Bool Ascii String.
From Stdlib Require DecimalString.
Import ListNotations.

Open Scope Q_scope.

(** ** Python primitives *)

(** [int(x)] on a float: truncation toward zero. *)
Definition int (x : Q) : Z := Z.quot (Qnum x) (Zpos (Qden x)).

(** [x or d] on a float: [d] when [x] is zero. *)
Definition or_else (x d : Q) : Q := if Qeq_bool x 0 then d else x.

Inductive exn : Type :=
| RuntimeError (msg : string)
| FileNotFoundError (msg : string)
| CalledProcessError (returncode : Z).

Inductive Result (A : Type) : Type :=
| Ok (a : A)
| Raise (e : exn).
Arguments Ok {A} a.
Arguments Raise {A} e.

(** ** Tunables (the module constants of [split_lol_games.py]) *)

Definition ROI : Type := (Q * Q * Q * Q)%type.

Record Config : Type := {
  SAMPLE_EVERY_SEC : Q;
  START_THRESHOLD_SEC : Z;
  MIN_GAP_BETWEEN_GAMES : Q;
  CLOCK_MISSING_LIMIT : Z;
  TAIL_AFTER_CLOCK_MISS : Q;
  MIN_SEGMENT_SEC : Q;
  CLOCK_SEARCH_ROI : ROI
}.

(** The values the script ships with. *)
Definition shipped : Config := {|
  SAMPLE_EVERY_SEC := 3;
  START_THRESHOLD_SEC := 120;
  MIN_GAP_BETWEEN_GAMES := 90;
  CLOCK_MISSING_LIMIT := 10;
  TAIL_AFTER_CLOCK_MISS := 20;
  MIN_SEGMENT_SEC := 120;
  CLOCK_SEARCH_ROI := (68 # 100, 0, 32 # 100, 22 # 100)
|}.

(** ** Frames, OCR and the capture object *)

(** What the detector needs from OpenCV and the OCR engine: a type of
    frames, the crop to a region of interest, and the clock reader, which
    returns [mm*60+ss] or [None] when no clock is legible. *)
Class Vision : Type := {
  Frame : Type;
  crop : Frame -> ROI -> Frame;
  extract_clock_seconds : Frame -> option Z
}.

(** A [cv2.VideoCapture] after construction.  [stream] lists the frames a
    sequence of [grab()] calls succeeds on; an entry [None] is a frame that
    was grabbed but that [retrieve()] cannot decode.  The two properties are
    container metadata and need not agree with [stream]. *)
Record Capture `{Vision} : Type := {
  isOpened : bool;
  CAP_PROP_FPS : Q;
  CAP_PROP_FRAME_COUNT : Q;
  stream : list (option Frame)
}.

(** ** The lines the script prints *)

Definition Segment : Type := (Q * Q)%type.

Inductive Cmd : Type :=
| Remux (ffmpeg src dst : string)
    (* ffmpeg -y -err_detect ignore_err -i src -map 0 -c copy
       -movflags +faststart dst *)
| Reencode (ffmpeg src dst : string)
    (* ffmpeg -y -err_detect ignore_err -i src -map 0 -c:v libx264
       -preset veryfast -crf 20 -c:a aac -b:a 160k -movflags +faststart dst *)
| CutCopy (ffmpeg : string) (ss to : Q) (src out : string)
    (* ffmpeg -y -ss ss -to to -i src -c copy out *)
| CutReencode (ffmpeg : string) (ss to : Q) (src out : string).
    (* ffmpeg -y -ss ss -to to -i src -c:v libx264 -preset veryfast -crf 20
       -c:a aac -b:a 160k out *)

Inductive Line : Type :=
| say_remux
| say_fixed (path : string)
| say_reencoding
| say_reencoded (path : string)
| say_START (open_segment_start : Q) (clock_val : Z)
| say_END (end_sec dur : Q)
| say_END_EOF (open_segment_start end_sec dur : Q)
| say_cmd (cmd : Cmd)
| say_written (n : nat) (output_dir : string)
| say_analyse (path : string)
| say_none_detected
| say_found (n : nat)
| say_game (i : nat) (s e : Q)
| say_usage.

(** ** The segment state machine *)

(** The local variables of [detect_segments] that the loop body updates,
    together with what it has printed. *)
Record Machine : Type := {
  last_start_time : Q;
  segments : list Segment;
  open_segment_start : option Q;
  last_clock_seen_time : option Q;
  clock_missing_count : Z;
  stdout : list Line
}.

Definition initial : Machine := {|
  last_start_time := - (9999);
  segments := [];
  open_segment_start := None;
  last_clock_seen_time := None;
  clock_missing_count := 0;
  stdout := []
|}.

Section Detector.
Variable cfg : Config.
Variable duration : Q.

(** Lines 164-168: bookkeeping of the clock reading. *)
Definition observe (m : Machine) (t_sec : Q) (clock_val : option Z) : Machine :=
  match clock_val with
  | Some _ =>
      {| last_start_time := last_start_time m;
         segments := segments m;
         open_segment_start := open_segment_start m;
         last_clock_seen_time := Some t_sec;
         clock_missing_count := 0;
         stdout := stdout m |}
  | None =>
      {| last_start_time := last_start_time m;
         segments := segments m;
         open_segment_start := open_segment_start m;
         last_clock_seen_time := last_clock_seen_time m;
         clock_missing_count := clock_missing_count m + 1;
         stdout := stdout m |}
  end.

(** Lines 170-174: a segment starts. *)
Definition try_open (m : Machine) (t_sec : Q) (clock_val : option Z) : Machine :=
  match open_segment_start m, clock_val with
  | None, Some c =>
      if (c <=? START_THRESHOLD_SEC cfg)%Z then
        if Qle_bool (MIN_GAP_BETWEEN_GAMES cfg) (t_sec - last_start_time m) then
          {| last_start_time := t_sec;
             segments := segments m;
             open_segment_start := Some t_sec;
             last_clock_seen_time := last_clock_seen_time m;
             clock_missing_count := clock_missing_count m;
             stdout := stdout m ++ [say_START t_sec c] |}
        else m
      else m
  | _, _ => m
  end.

(** Lines 176-184: the open segment ends after too many misses. *)
Definition try_close (m : Machine) : Machine :=
  match open_segment_start m with
  | Some start =>
      if (CLOCK_MISSING_LIMIT cfg <=? clock_missing_count m)%Z then
        match last_clock_seen_time m with
        | Some seen =>
            let end_sec := Qmin (seen + TAIL_AFTER_CLOCK_MISS cfg) duration in
            let dur := end_sec - start in
            {| last_start_time := last_start_time m;
               segments :=
                 if Qle_bool (MIN_SEGMENT_SEC cfg) dur
                 then segments m ++ [(start, end_sec)]
                 else segments m;
               open_segment_start := None;
               last_clock_seen_time := last_clock_seen_time m;
               clock_missing_count := 0;
               stdout := stdout m ++ [say_END end_sec dur] |}
        | None => m
        end
      else m
  | None => m
  end.

(** Lines 164-184: what one sampled frame does to the machine. *)
Definition process_sample (m : Machine) (t_sec : Q) (clock_val : option Z)
  : Machine :=
  try_close (try_open (observe m t_sec clock_val) t_sec clock_val).

(** Lines 191-196: the stream is over while a segment is open. *)
Definition at_eof (m : Machine) : Machine :=
  match open_segment_start m with
  | Some start =>
      let end_sec := duration in
      let dur := end_sec - start in
      {| last_start_time := last_start_time m;
         segments :=
           if Qle_bool (MIN_SEGMENT_SEC cfg) dur
           then segments m ++ [(start, end_sec)]
           else segments m;
         open_segment_start := open_segment_start m;
         last_clock_seen_time := last_clock_seen_time m;
         clock_missing_count := clock_missing_count m;
         stdout := stdout m ++ [say_END_EOF start end_sec dur] |}
  | None => m
  end.

(** The machine fed with an explicit stream of samples
    [(t_sec, clock_val)]. *)
Definition Sample : Type := (Q * option Z)%type.

Definition feed (m : Machine) (l : list Sample) : Machine :=
  fold_left (fun m s => process_sample m (fst s) (snd s)) l m.

Context `{Vision}.
Variable fps : Q.
Variable step : Z.

(** Lines 148-187: the [while True] loop.  [frames] is what remains of the
    stream; running out of frames is [cap.grab()] failing. *)
Fixpoint scan (frames : list (option Frame)) (frame_idx : Z) (m : Machine)
  : Machine :=
  match frames with
  | [] => m
  | f :: rest =>
      if negb (frame_idx mod step =? 0)%Z then scan rest (frame_idx + 1)%Z m
      else
        match f with
        | None => m
        | Some frame =>
            let t_sec := inject_Z frame_idx / fps in
            let search_img := crop frame (CLOCK_SEARCH_ROI cfg) in
            let clock_val := extract_clock_seconds search_img in
            scan rest (frame_idx + 1)%Z (process_sample m t_sec clock_val)
        end
  end.

(** The samples the loop feeds to the machine, in order. *)
Fixpoint samples (frames : list (option Frame)) (frame_idx : Z) : list Sample :=
  match frames with
  | [] => []
  | f :: rest =>
      if negb (frame_idx mod step =? 0)%Z then samples rest (frame_idx + 1)%Z
      else
        match f with
        | None => []
        | Some frame =>
            (inject_Z frame_idx / fps,
             extract_clock_seconds (crop frame (CLOCK_SEARCH_ROI cfg)))
            :: samples rest (frame_idx + 1)%Z
        end
  end.
End Detector.

Section DetectSegments.
Context `{Vision}.
Variable cfg : Config.
Variable cap : Capture.

(** Lines 134-137. *)
Definition the_fps : Q := or_else (CAP_PROP_FPS cap) 30.
Definition total_frames : Z := int (CAP_PROP_FRAME_COUNT cap).
Definition the_duration : Q := inject_Z total_frames / the_fps.
Definition the_step : Z := Z.max 1 (int (the_fps * SAMPLE_EVERY_SEC cfg)).

(** The locals when [detect_segments] reaches its [return]. *)
Definition analyse : Machine :=
  at_eof cfg the_duration
    (scan cfg the_duration the_fps the_step (stream cap) 0%Z initial).

(** The stream of samples of this capture. *)
Definition the_samples : list Sample :=
  samples cfg the_fps the_step (stream cap) 0%Z.

(** [detect_segments], given the capture object that
    [cv2.VideoCapture(input_path)] built. *)
Definition detect_segments : Result (list Segment) :=
  if isOpened cap then Ok (segments analyse)
  else Raise (RuntimeError "Impossible d'ouvrir la video").
End DetectSegments.

(** ** The host: file system, environment and external transcoder *)

(** What the script asks of its environment.  [subprocess_run] is one
    transcoder process run to completion: its return code and the world it
    leaves behind.  [game_file i] is the formatted name [Game_<i>.mp4]. *)
Class Host `{Vision} : Type := {
  World : Type;
  VideoCapture : string -> World -> Capture;
  subprocess_run : Cmd -> World -> Z * World;
  os_getenv : string -> World -> option string;
  path_exists : string -> World -> bool;
  shutil_which : string -> World -> option string;
  os_makedirs : string -> World -> World;
  os_path_splitext : string -> string * string;
  os_path_join : string -> string -> string;
  game_file : nat -> string
}.

Section Script.
Context `{Host}.
Variable cfg : Config.

(** The state a run threads: the world, the transcoder commands spawned so
    far and the lines printed so far (both oldest first). *)
Record St : Type := {
  world : World;
  spawned : list Cmd;
  printed : list Line
}.

Definition M (A : Type) : Type := St -> Result A * St.

Definition ret {A} (a : A) : M A := fun s => (Ok a, s).
Definition raise {A} (e : exn) : M A := fun s => (Raise e, s).
Definition bind {A B} (m : M A) (k : A -> M B) : M B :=
  fun s => match m s with
           | (Ok a, s') => k a s'
           | (Raise e, s') => (Raise e, s')
           end.
(** [try: m  except Exception: pass], keeping whether [m] finished. *)
Definition attempt {A} (m : M A) : M (option A) :=
  fun s => match m s with
           | (Ok a, s') => (Ok (Some a), s')
           | (Raise _, s') => (Ok None, s')
           end.

Notation "x <- m ;; k" := (bind m (fun x => k))
  (at level 61, m at next level, right associativity).
Notation "m ;;; k" := (bind m (fun _ => k))
  (at level 61, right associativity).

Definition print (l : Line) : M unit :=
  fun s => (Ok tt, {| world := world s; spawned := spawned s;
                      printed := printed s ++ [l] |}).
Definition prints (ls : list Line) : M unit :=
  fun s => (Ok tt, {| world := world s; spawned := spawned s;
                      printed := printed s ++ ls |}).
Definition open_video (path : string) : M Capture :=
  fun s => (Ok (VideoCapture path (world s)), s).

(** [subprocess.run(cmd, check=True)]. *)
Definition run_checked (cmd : Cmd) : M unit :=
  fun s =>
    let (code, w) := subprocess_run cmd (world s) in
    let s' := {| world := w; spawned := spawned s ++ [cmd];
                 printed := printed s |} in
    if (code =? 0)%Z then (Ok tt, s') else (Raise (CalledProcessError code), s').

Definition truthy (s : string) : bool := negb (String.eqb s "").

(** [settings.get_ffmpeg]. *)
Definition get_ffmpeg : M string :=
  fun s =>
    let found :=
      match shutil_which "ffmpeg" (world s) with
      | Some f => if truthy f then (Ok f, s)
                  else (Raise (FileNotFoundError "ffmpeg introuvable"), s)
      | None => (Raise (FileNotFoundError "ffmpeg introuvable"), s)
      end in
    match os_getenv "FFMPEG_BIN" (world s) with
    | Some env =>
        if truthy env && path_exists env (world s) then (Ok env, s) else found
    | None => found
    end.

(** [ensure_readable_video]. *)
Definition ensure_readable_video (path : string) : M string :=
  cap <- open_video path ;;
  if isOpened cap then ret path
  else
    ffmpeg <- get_ffmpeg ;;
    let base := fst (os_path_splitext path) in
    let fixed := (base ++ "_fixed.mp4")%string in
    print say_remux ;;;
    tried <- attempt (
      run_checked (Remux ffmpeg path fixed) ;;;
      cap2 <- open_video fixed ;;
      if isOpened cap2 then print (say_fixed fixed) ;;; ret true
      else ret false) ;;
    match tried with
    | Some true => ret fixed
    | _ =>
        let reenc := (base ++ "_reenc.mp4")%string in
        print say_reencoding ;;;
        run_checked (Reencode ffmpeg path reenc) ;;;
        cap3 <- open_video reenc ;;
        if isOpened cap3 then print (say_reencoded reenc) ;;; ret reenc
        else raise (RuntimeError "Impossible d'ouvrir/reparer la video.")
    end.

(** [detect_segments(input_path)] inside a run: the capture object comes
    from the world and the lines of the scan go to the output. *)
Definition detect_segments_in (input_path : string) : M (list Segment) :=
  cap <- open_video input_path ;;
  match detect_segments cfg cap with
  | Ok segs => prints (stdout (analyse cfg cap)) ;;; ret segs
  | Raise e => raise e
  end.

(** The [for] loop of [cut_segments], from ordinal [i] on. *)
Fixpoint cut_each (ffmpeg input_path output_dir : string) (reencode : bool)
    (i : nat) (segs : list Segment) : M unit :=
  match segs with
  | [] => ret tt
  | (start, end_) :: rest =>
      let out := os_path_join output_dir (game_file i) in
      let cmd := if reencode
                 then CutReencode ffmpeg start end_ input_path out
                 else CutCopy ffmpeg start end_ input_path out in
      print (say_cmd cmd) ;;;
      run_checked cmd ;;;
      cut_each ffmpeg input_path output_dir reencode (S i) rest
  end.

(** [cut_segments]. *)
Definition cut_segments (input_path : string) (segs : list Segment)
    (output_dir : string) (reencode : bool) : M unit :=
  (fun s => (Ok tt, {| world := os_makedirs output_dir (world s);
                       spawned := spawned s; printed := printed s |})) ;;;
  ffmpeg <- get_ffmpeg ;;
  cut_each ffmpeg input_path output_dir reencode 1 segs ;;;
  print (say_written (List.length segs) output_dir).

Fixpoint game_lines (i : nat) (segs : list Segment) : list Line :=
  match segs with
  | [] => []
  | (s, e) :: rest => say_game i s e :: game_lines (S i) rest
  end.

(** [main]. *)
Definition main (input_video output_dir : string) (reencode : bool) : M unit :=
  good_path <- ensure_readable_video input_video ;;
  print (say_analyse good_path) ;;;
  segs <- detect_segments_in good_path ;;
  match segs with
  | [] => print say_none_detected
  | _ :: _ =>
      print (say_found (List.length segs)) ;;;
      prints (game_lines 1 segs) ;;;
      cut_segments good_path segs output_dir reencode
  end.

(** The [if __name__ == "__main__"] block: the exit status of the process
    ([1] after [sys.exit(1)] or an uncaught exception, [0] otherwise) and
    the final state. *)
Definition script (argv : list string) : St -> Z * St :=
  fun s =>
    match argv with
    | _ :: input_video :: output_dir :: _ =>
        let reenc := existsb (String.eqb "--reencode") argv in
        match main input_video output_dir reenc s with
        | (Ok _, s') => (0%Z, s')
        | (Raise _, s') => (1%Z, s')
        end
    | _ => (1%Z, {| world := world s; spawned := spawned s;
                    printed := printed s ++ [say_usage] |})
    end.
End Script.

(** ** A scripted engine and a scripted host

    Concrete instances of the two interfaces, used to run the program on
    explicit inputs.  A scripted frame is a pair of some pixel data (a
    number) and the reading the OCR returns for it. *)

#[export] Instance scripted_vision : Vision := {|
  Frame := (Z * option Z)%type;
  crop := fun f _ => f;
  extract_clock_seconds := fun f => snd f
|}.

(** A frame showing the clock [c], a frame with no legible clock. *)
Definition showing (c : Z) : option (@Frame scripted_vision) := Some (0%Z, Some c).
Definition blank : option (@Frame scripted_vision) := Some (0%Z, None).

Definition closed_capture : @Capture scripted_vision :=
  {| isOpened := false; CAP_PROP_FPS := 0; CAP_PROP_FRAME_COUNT := 0; stream := [] |}.

(** The scripted world: the files that open as videos, whether [ffmpeg] is
    on the path, and what each transcoder command does (its return code and
    the video files it creates). *)
Record Scripted : Type := {
  videos : list (string * @Capture scripted_vision);
  ffmpeg_on_path : bool;
  transcoder : Cmd -> Z * list (string * @Capture scripted_vision)
}.

Fixpoint lookup (path : string) (l : list (string * @Capture scripted_vision))
  : @Capture scripted_vision :=
  match l with
  | [] => closed_capture
  | (p, c) :: rest => if String.eqb p path then c else lookup path rest
  end.

(** Split at the last dot (the separator rules of [os.path.splitext] are not
    needed for the file names used here). *)
Fixpoint splitext_at_dot (s : string) : option (string * string) :=
  match s with
  | EmptyString => None
  | String c r =>
      match splitext_at_dot r with
      | Some (b, e) => Some (String c b, e)
      | None => if Ascii.eqb c "."%char then Some (EmptyString, s) else None
      end
  end.

Definition two_digits (i : nat) : string :=
  let d := DecimalString.NilEmpty.string_of_uint (Nat.to_uint i) in
  if Nat.ltb i 10 then ("0" ++ d)%string else d.

#[export] Instance scripted_host : @Host scripted_vision := {|
  World := Scripted;
  VideoCapture := fun path w => lookup path (videos w);
  subprocess_run := fun cmd w =>
    let (code, made) := transcoder w cmd in
    (code, {| videos := made ++ videos w; ffmpeg_on_path := ffmpeg_on_path w;
              transcoder := transcoder w |});
  os_getenv := fun _ _ => None;
  path_exists := fun _ _ => false;
  shutil_which := fun _ w => if ffmpeg_on_path w then Some "ffmpeg"%string else None;
  os_makedirs := fun _ w => w;
  os_path_splitext := fun s =>
    match splitext_at_dot s with Some p => p | None => (s, EmptyString) end;
  os_path_join := fun d f => (d ++ "/" ++ f)%string;
  game_file := fun i => ("Game_" ++ two_digits i ++ ".mp4")%string
|}.

Definition start_of (w : Scripted) : @St scripted_vision scripted_host :=
  {| world := w; spawned := []; printed := [] |}.

(** A recording at 0.625 frames per second, 160 frames long: the clock is
    legible on frames 0-63 (it shows 0:00 on frame 0), illegible on frames
    64-73, and legible again from frame 74 on, where it shows 0:00 again. *)
Definition slow_recording : @Capture scripted_vision := {|
  isOpened := true;
  CAP_PROP_FPS := 5 # 8;
  CAP_PROP_FRAME_COUNT := 160;
  stream := showing 0 :: repeat (showing 300) 63 ++ repeat blank 10
            ++ showing 0 :: repeat (showing 300) 85
|}.

(** ** Vocabulary of the properties *)

(** Two time ranges overlap when each starts before the other ends. *)
Definition overlap (a b : Segment) : Prop := fst a < snd b /\ fst b < snd a.

Definition disjoint (l : list Segment) : Prop :=
  ForallOrdPairs (fun a b => ~ overlap a b) l.

Definition ordered_by_start (l : list Segment) : Prop :=
  StronglySorted (fun a b => fst a < fst b) l.

Definition long_enough (cfg : Config) (s : Segment) : Prop :=
  MIN_SEGMENT_SEC cfg <= snd s - fst s.

(** The tail padding does not reach past the samples that the missing-clock
    limit spans, [gap] being the time between two consecutive samples. *)
Definition tail_within_limit (cfg : Config) (gap : Q) : Prop :=
  TAIL_AFTER_CLOCK_MISS cfg <= inject_Z (CLOCK_MISSING_LIMIT cfg) * gap.

(** Consecutive samples are at least [gap] apart, the first one at least
    [gap] after [t]. *)
Fixpoint spaced_from (gap t : Q) (l : list Sample) : Prop :=
  match l with
  | [] => True
  | s :: rest => t + gap <= fst s /\ spaced_from gap (fst s) rest
  end.

(** Timestamp of the last sample of [l], or [t] when [l] is empty. *)
Fixpoint end_time (t : Q) (l : list Sample) : Q :=
  match l with
  | [] => t
  | s :: rest => end_time (fst s) rest
  end.

(** The invariant of the sampling loop, [t] being the timestamp of the
    sample processed last. *)
Record Inv (cfg : Config) (gap t : Q) (m : Machine) : Prop := {
  inv_count : (0 <= clock_missing_count m)%Z;
  inv_streak : forall seen, last_clock_seen_time m = Some seen ->
      seen + inject_Z (clock_missing_count m) * gap <= t;
  inv_open : forall start, open_segment_start m = Some start ->
      (clock_missing_count m < CLOCK_MISSING_LIMIT cfg)%Z /\
      (exists seen, last_clock_seen_time m = Some seen /\ start <= seen) /\
      Forall (fun s => fst s + gap <= start) (segments m) /\
      (tail_within_limit cfg gap -> Forall (fun s => snd s <= start) (segments m));
  inv_long : Forall (long_enough cfg) (segments m);
  inv_starts : Forall (fun s => fst s <= t) (segments m);
  inv_sorted : StronglySorted (fun a b => fst a + gap <= fst b) (segments m);
  inv_ends : tail_within_limit cfg gap -> Forall (fun s => snd s <= t) (segments m);
  inv_apart : tail_within_limit cfg gap ->
      StronglySorted (fun a b => snd a <= fst b) (segments m)
}.

(** The number of unreadable samples at the end of a stream: the
    consecutive misses since the last legible clock. *)
Definition streak (l : list Sample) : Z :=
  fold_left (fun n s => match snd s with Some _ => 0 | None => n + 1 end)%Z l 0%Z.

(** What holds of the machine after any stream [l] whatever its timestamps. *)
Definition Consistent (cfg : Config) (l : list Sample) (m : Machine) : Prop :=
  (0 <= clock_missing_count m)%Z /\
  forall start, open_segment_start m = Some start ->
    (clock_missing_count m < CLOCK_MISSING_LIMIT cfg)%Z /\
    clock_missing_count m = streak l /\
    exists seen, last_clock_seen_time m = Some seen.

(** The transcoder commands of a cutting batch, in the order of the
    segments, the first one having ordinal [i]; the world after running a
    list of commands; and whether all of them return zero. *)
Section Batches.
Context `{Host}.

Definition cut_cmd (ffmpeg input_path output_dir : string) (reencode : bool)
    (i : nat) (seg : Segment) : Cmd :=
  let out := os_path_join output_dir (game_file i) in
  if reencode then CutReencode ffmpeg (fst seg) (snd seg) input_path out
  else CutCopy ffmpeg (fst seg) (snd seg) input_path out.

Fixpoint cut_cmds (ffmpeg input_path output_dir : string) (reencode : bool)
    (i : nat) (segs : list Segment) : list Cmd :=
  match segs with
  | [] => []
  | seg :: rest =>
      cut_cmd ffmpeg input_path output_dir reencode i seg
      :: cut_cmds ffmpeg input_path output_dir reencode (S i) rest
  end.

Fixpoint world_after (cmds : list Cmd) (w : World) : World :=
  match cmds with
  | [] => w
  | c :: rest => world_after rest (snd (subprocess_run c w))
  end.

Fixpoint all_succeed (cmds : list Cmd) (w : World) : Prop :=
  match cmds with
  | [] => True
  | c :: rest =>
      fst (subprocess_run c w) = 0%Z /\ all_succeed rest (snd (subprocess_run c w))
  end.
End Batches.

(** ** Explicit inputs *)

(** Samples with a legible clock, samples without. *)
Definition readables (l : list (Q * Z)) : list Sample :=
  map (fun s => (fst s, Some (snd s))) l.
Definition misses (times : list Q) : list Sample :=
  map (fun t => (t, None)) times.

(** The synthetic stream of the testable properties: readings 125, 118, 95,
    70 at 0, 3, 6, 9 seconds, then the readings [mid], then unreadable
    samples at [miss_times], then the reading 5 at 333 seconds. *)
Definition synthetic (mid : list (Q * Z)) (miss_times : list Q) : list Sample :=
  (0, Some 125%Z) :: (3, Some 118%Z)
  :: readables ((6, 95%Z) :: (9, 70%Z) :: mid)
  ++ misses miss_times ++ [(333, Some 5%Z)].

(** One way to fill it in: a reading of 70 every three seconds from 12 to
    297 seconds, and twelve unreadable samples stamped 300. *)
Definition every_three : list (Q * Z) :=
  map (fun i => (inject_Z (12 + 3 * Z.of_nat i), 70%Z)) (seq 0 96).
Definition synthetic_stream : list Sample := synthetic every_three (repeat 300 12).

(** A recording at one frame per second, 400 frames long: the clock shows
    0:00 on frame 0 and stays legible up to frame 299, is illegible on frames
    300-335, and shows 0:05 from frame 336 on. *)
Definition plain_recording : @Capture scripted_vision := {|
  isOpened := true;
  CAP_PROP_FPS := 1;
  CAP_PROP_FRAME_COUNT := 400;
  stream := showing 0 :: repeat (showing 200) 299 ++ repeat blank 36
            ++ repeat (showing 5) 64
|}.


(** A recording whose container reports no frame rate: 9000 frames in the
    metadata, of which 181 are in the stream, the clock legible on all. *)
Definition rateless_recording : @Capture scripted_vision := {|
  isOpened := true;
  CAP_PROP_FPS := 0;
  CAP_PROP_FRAME_COUNT := 9000;
  stream := showing 0 :: repeat (showing 200) 180
|}.

(** An opened recording without a single frame. *)
Definition empty_recording : @Capture scripted_vision := {|
  isOpened := true;
  CAP_PROP_FPS := 30;
  CAP_PROP_FRAME_COUNT := 0;
  stream := []
|}.

(** A world where [vod.mp4] does not open, and where a remux produces a file
    that does; every other command fails. *)
Definition corrupt_world : Scripted := {|
  videos := [];
  ffmpeg_on_path := true;
  transcoder := fun cmd =>
    match cmd with
    | Remux _ _ dst => (0%Z, [(dst, plain_recording)])
    | _ => (1%Z, [])
    end
|}.

(** A world where [vod.mp4] does not open and no repair helps: the remux
    writes a file that does not open, the re-encode fails. *)
Definition hopeless_world : Scripted := {|
  videos := [];
  ffmpeg_on_path := true;
  transcoder := fun cmd =>
    match cmd with
    | Remux _ _ dst => (0%Z, [(dst, closed_capture)])
    | _ => (1%Z, [])
    end
|}.

(** A world where [vod.mp4] opens and every cut succeeds but the one that
    writes [out/Game_01.mp4]. *)
Definition first_cut_fails : Scripted := {|
  videos := [("vod.mp4"%string, plain_recording)];
  ffmpeg_on_path := true;
  transcoder := fun cmd =>
    match cmd with
    | CutCopy _ _ _ _ out | CutReencode _ _ _ _ out =>
        if String.eqb out "out/Game_01.mp4" then (1%Z, []) else (0%Z, [])
    | _ => (0%Z, [])
    end
|}.

(** A world where [vod.mp4] opens and has no frame; the transcoder always
    succeeds. *)
Definition empty_video_world : Scripted := {|
  videos := [("vod.mp4"%string, empty_recording)];
  ffmpeg_on_path := true;
  transcoder := fun _ => (0%Z, [])
|}.

(** ** Further vocabulary: what the segments are made of *)

(** A sample of [l] stamped [t] on which the clock read at most the start
    threshold. *)
Definition low_reading (cfg : Config) (l : list Sample) (t : Q) : Prop :=
  exists c : Z, In (t, Some c) l /\ (c <= START_THRESHOLD_SEC cfg)%Z.

(** What the machine keeps after any stream [l], whatever its timestamps:
    starts are samples with a low reading, ends do not pass the duration,
    and two starts are [MIN_GAP_BETWEEN_GAMES] apart or more. *)
Record Grounded (cfg : Config) (duration : Q) (l : list Sample) (m : Machine)
  : Prop := {
  gr_starts : Forall (fun s => low_reading cfg l (fst s)) (segments m);
  gr_open : forall start, open_segment_start m = Some start ->
      low_reading cfg l start /\ start = last_start_time m /\
      (0 <= MIN_GAP_BETWEEN_GAMES cfg ->
       Forall (fun s => fst s + MIN_GAP_BETWEEN_GAMES cfg <= start) (segments m));
  gr_ends : Forall (fun s => snd s <= duration) (segments m);
  gr_last : 0 <= MIN_GAP_BETWEEN_GAMES cfg ->
      Forall (fun s => fst s <= last_start_time m) (segments m);
  gr_gaps : 0 <= MIN_GAP_BETWEEN_GAMES cfg ->
      StronglySorted
        (fun a b => fst a + MIN_GAP_BETWEEN_GAMES cfg <= fst b) (segments m)
}.

(** The capture [cap] with its stream replaced. *)
Definition with_stream `{Vision} (cap : Capture) (frames : list (option Frame))
  : Capture :=
  {| isOpened := isOpened cap; CAP_PROP_FPS := CAP_PROP_FPS cap;
     CAP_PROP_FRAME_COUNT := CAP_PROP_FRAME_COUNT cap; stream := frames |}.

(** A recording at one frame per second whose sixth sampled frame (index 15)
    cannot be decoded. *)
Definition broken_recording : @Capture scripted_vision := {|
  isOpened := true;
  CAP_PROP_FPS := 1;
  CAP_PROP_FRAME_COUNT := 400;
  stream := showing 0 :: repeat (showing 200) 14 ++ None :: repeat (showing 5) 300
|}.

(** ** Timestamps as text ([ts_format]) *)

(** [str(n)] and [f"{n:02d}"] for [n >= 0]: decimal, and decimal
    zero-padded to two characters. *)
Definition decimal (n : Z) : string :=
  DecimalString.NilEmpty.string_of_uint (N.to_uint (Z.to_N n)).
Definition pad2 (n : Z) : string :=
  let d := decimal n in
  if (n <? 10)%Z then String "0" d else d.

(** [ts_format].  [timedelta(seconds=n)] raises [OverflowError] beyond
    999999999 days; that outcome is [None]. *)
Definition ts_format (seconds : Q) : option string :=
  let n := Z.max 0 (int seconds) in
  if (999999999 <? n / 86400)%Z then None
  else
    let total := n in
    let h := (total / 3600)%Z in
    let m := ((total mod 3600) / 60)%Z in
    let s := (total mod 60)%Z in
    Some (pad2 h ++ ":" ++ pad2 m ++ ":" ++ pad2 s)%string.

(** ** Arrays of pixels ([crop], the sliding windows) *)

Module Pixels.

(** A two-dimensional array as numpy presents it: its shape and its
    elements; a slice is a view with an offset. *)
Record Array (P : Type) : Type := {
  rows : Z;
  cols : Z;
  at_ : Z -> Z -> P
}.
Arguments rows {P} a.
Arguments cols {P} a.
Arguments at_ {P} a r c.

(** Where the bound [i] of a slice lands on an axis of length [n]: negative
    bounds count from the end, and everything is clipped to [0..n]. *)
Definition bound (n i : Z) : Z :=
  if (i <? 0)%Z then Z.max (i + n) 0 else Z.min i n.

(** [a[y1:y2, x1:x2]]. *)
Definition slice {P} (a : Array P) (y1 y2 x1 x2 : Z) : Array P :=
  let top := bound (rows a) y1 in
  let left := bound (cols a) x1 in
  {| rows := Z.max 0 (bound (rows a) y2 - top);
     cols := Z.max 0 (bound (cols a) x2 - left);
     at_ := fun r c => at_ a (top + r) (left + c) |}.

(** [crop]. *)
Definition crop {P} (frame : Array P) (roi : ROI) : Array P :=
  let h := rows frame in
  let w := cols frame in
  let '(x, y, ww, hh) := roi in
  let x1 := int (x * inject_Z w) in
  let y1 := int (y * inject_Z h) in
  let x2 := int ((x + ww) * inject_Z w) in
  let y2 := int ((y + hh) * inject_Z h) in
  slice frame y1 y2 x1 x2.

(** The windows of the second pass of [extract_clock_seconds], row by row:
    a grid of 3 columns and 2 rows of cells [W // 3] wide, [H // 2] high. *)
Definition windows {P} (g : Array P) : list (Array P) :=
  let H := rows g in
  let W := cols g in
  let win_w := (W / 3)%Z in
  let win_h := (H / 2)%Z in
  flat_map (fun ry =>
    map (fun cx =>
      let sx := (cx * win_w)%Z in
      let sy := (ry * win_h)%Z in
      slice g sy (sy + win_h) sx (sx + win_w))
      [0%Z; 1%Z; 2%Z])
    [0%Z; 1%Z].

End Pixels.

(** ** Reading the clock out of OCR text *)

Module Ocr.

(** Characters are code points below 256.  [\d] matches the decimal digits;
    [\s] matches Unicode white space; [str.isdigit] also accepts the
    superscript digits, which [int] rejects. *)
Definition code (c : ascii) : nat := nat_of_ascii c.
Definition is_digit (c : ascii) : bool :=
  (Nat.leb 48 (code c) && Nat.leb (code c) 57)%bool.
Definition is_space (c : ascii) : bool :=
  ((Nat.leb 9 (code c) && Nat.leb (code c) 13)
   || (Nat.leb 28 (code c) && Nat.leb (code c) 32)
   || Nat.eqb (code c) 133 || Nat.eqb (code c) 160)%bool.
Definition is_sep (c : ascii) : bool :=
  (Ascii.eqb c ":" || Ascii.eqb c "|" || Ascii.eqb c ";")%bool.
Definition str_isdigit_char (c : ascii) : bool :=
  (is_digit c || Nat.eqb (code c) 178 || Nat.eqb (code c) 179
   || Nat.eqb (code c) 185)%bool.

(** The fragment of regular expressions the script uses: a class of
    characters, concatenation, a numbered capturing group, and greedy
    repetition [r{lo,hi}], [hi = None] being unbounded. *)
Inductive regex : Type :=
| Chr (p : ascii -> bool)
| Cat (r1 r2 : regex)
| Grp (n : nat) (r : regex)
| Rep (r : regex) (lo : nat) (hi : option nat).

(** The part of [s] that was consumed when [rest] is what remains. *)
Fixpoint take (n : nat) (s : string) : string :=
  match n, s with
  | S n', String c s' => String c (take n' s')
  | _, _ => EmptyString
  end.
Definition consumed (s rest : string) : string :=
  take (String.length s - String.length rest) s.

Definition Captures : Type := list (nat * string).

(** A greedy repetition of [body], at most [left] more rounds and at least
    [lo]: one more round is tried first, and only when everything after it
    fails does the repetition stop where it is. *)
Fixpoint rounds {A}
    (body : string -> Captures -> (string -> Captures -> option A) -> option A)
    (k : string -> Captures -> option A)
    (left lo : nat) (s : string) (caps : Captures) {struct left} : option A :=
  match left with
  | O => if Nat.eqb lo 0 then k s caps else None
  | S left' =>
      match body s caps (fun s' caps' => rounds body k left' (Nat.pred lo) s' caps')
      with
      | Some x => Some x
      | None => if Nat.eqb lo 0 then k s caps else None
      end
  end.

(** Backtracking matcher, anchored at the start of [s]: [k] is what remains
    to be matched, and alternatives are tried in the order of a backtracking
    engine.  An unbounded repetition gets as many rounds as [s] has
    characters, which is exact when each round consumes one or more. *)
Fixpoint run {A} (r : regex) (s : string) (caps : Captures)
    (k : string -> Captures -> option A) {struct r} : option A :=
  match r with
  | Chr p =>
      match s with
      | String c s' => if p c then k s' caps else None
      | EmptyString => None
      end
  | Cat r1 r2 => run r1 s caps (fun s' caps' => run r2 s' caps' k)
  | Grp n r1 => run r1 s caps (fun s' caps' => k s' ((n, consumed s s') :: caps'))
  | Rep r1 lo hi =>
      rounds (fun s' caps' k' => run r1 s' caps' k') k
        (match hi with Some n => n | None => String.length s end) lo s caps
  end.

(** [re.search]: the first position, from the left, where the expression
    matches; the result is the captures of that match. *)
Fixpoint search (r : regex) (s : string) : option Captures :=
  match run r s [] (fun _ caps => Some caps) with
  | Some caps => Some caps
  | None =>
      match s with
      | String _ s' => search r s'
      | EmptyString => None
      end
  end.

Fixpoint group (n : nat) (caps : Captures) : string :=
  match caps with
  | [] => EmptyString
  | (i, w) :: rest => if Nat.eqb i n then w else group n rest
  end.

(** [(\d{1,2})\s*[:|;]?\s*(\d{2})]. *)
Definition MMSS_ANY_RE : regex :=
  (Cat (Grp 1 (Rep (Chr is_digit) 1 (Some 2)))
    (Cat (Rep (Chr is_space) 0 None)
     (Cat (Rep (Chr is_sep) 0 (Some 1))
      (Cat (Rep (Chr is_space) 0 None)
       (Grp 2 (Rep (Chr is_digit) 2 (Some 2)))))))%nat.

(** What a match of an expression is, whatever the order of the search: the
    matched text [w], the captures before and after. *)
Fixpoint iter (n : nat) (R : string -> Captures -> Captures -> Prop)
    (w : string) (caps caps' : Captures) : Prop :=
  match n with
  | O => w = EmptyString /\ caps' = caps
  | S n' => exists u v c1, w = (u ++ v)%string /\ R u caps c1 /\ iter n' R v c1 caps'
  end.

Fixpoint den (r : regex) (w : string) (caps caps' : Captures) : Prop :=
  match r with
  | Chr p => exists c, w = String c EmptyString /\ p c = true /\ caps' = caps
  | Cat r1 r2 =>
      exists u v c1, w = (u ++ v)%string /\ den r1 u caps c1 /\ den r2 v c1 caps'
  | Grp n r1 => exists c1, den r1 w caps c1 /\ caps' = (n, w) :: c1
  | Rep r1 lo hi =>
      exists n, (lo <= n)%nat
                /\ match hi with Some h => (n <= h)%nat | None => True end
                /\ iter n (den r1) w caps caps'
  end.

(** [int(s)] on a string of [isdigit] characters: the number it spells, or
    [None] for the [ValueError] raised on an empty string or on a
    superscript digit. *)
Fixpoint digits_value (acc : Z) (s : string) : option Z :=
  match s with
  | EmptyString => Some acc
  | String c s' =>
      if is_digit c then digits_value (acc * 10 + Z.of_nat (code c - 48)) s'
      else None
  end.
Definition py_int (s : string) : option Z :=
  match s with
  | EmptyString => None
  | _ => digits_value 0 s
  end.

(** [s.replace(" ", "")], [s.isdigit()], [s[:-2]], [s[-2:]]. *)
Fixpoint remove_spaces (s : string) : string :=
  match s with
  | EmptyString => EmptyString
  | String c s' =>
      if Ascii.eqb c " " then remove_spaces s' else String c (remove_spaces s')
  end.
Fixpoint all_chars (p : ascii -> bool) (s : string) : bool :=
  match s with
  | EmptyString => true
  | String c s' => p c && all_chars p s'
  end.
Definition isdigit (s : string) : bool :=
  negb (String.eqb s EmptyString) && all_chars str_isdigit_char s.
Definition but_last_two (s : string) : string := take (String.length s - 2) s.
Definition last_two (s : string) : string :=
  substring (String.length s - 2) 2 s.

(** What one OCR text contributes: a value to return, nothing (go on with
    the next text), or a [ValueError] escaping from [int]. *)
Inductive Reading : Type :=
| Found (seconds : Z)
| Nothing
| ValueError.

(** [mm, ss = int(a), int(b)], then the range test on [ss]. *)
Definition minutes_seconds (a b : string) : Reading :=
  match py_int a with
  | None => ValueError
  | Some mm =>
      match py_int b with
      | None => ValueError
      | Some ss =>
          if ((0 <=? ss) && (ss <=? 59))%Z then Found (mm * 60 + ss) else Nothing
      end
  end.

(** Lines 65-70: one text of the first pass. *)
Definition read_multi (txt : string) : Reading :=
  match search MMSS_ANY_RE (remove_spaces txt) with
  | Some m => minutes_seconds (group 1 m) (group 2 m)
  | None => Nothing
  end.

(** Lines 82-92: one text of the second pass. *)
Definition read_word (txt : string) : Reading :=
  let s := remove_spaces txt in
  let m := search MMSS_ANY_RE s in
  match m with
  | None =>
      if (Nat.eqb (String.length s) 3 || Nat.eqb (String.length s) 4) && isdigit s
      then
        match minutes_seconds (but_last_two s) (last_two s) with
        | Found v => Found v
        | ValueError => ValueError
        | Nothing => Nothing
        end
      else Nothing
  | Some m => minutes_seconds (group 1 m) (group 2 m)
  end.

(** The first text, in order, that does not say [Nothing]. *)
Fixpoint first_reading (l : list Reading) : Reading :=
  match l with
  | [] => Nothing
  | Nothing :: rest => first_reading rest
  | r :: _ => r
  end.

(** OpenCV and Tesseract as the text reader needs them. *)
Class Imaging : Type := {
  Colour : Type;
  cvtColor_gray : Pixels.Array Colour -> Pixels.Array Z;
  resize_twice : Pixels.Array Z -> Pixels.Array Z;
  GaussianBlur3 : Pixels.Array Z -> Pixels.Array Z;
  threshold_otsu : Pixels.Array Z -> Pixels.Array Z;
  morph_close : Pixels.Array Z -> Pixels.Array Z;
  ocr_text : Pixels.Array Z -> string -> string
}.

Section Extract.
Context `{Imaging}.

(** [255 - gray] on an array of bytes. *)
Definition inverted (gray : Pixels.Array Z) : Pixels.Array Z :=
  {| Pixels.rows := Pixels.rows gray; Pixels.cols := Pixels.cols gray;
     Pixels.at_ := fun r c => (255 - Pixels.at_ gray r c)%Z |}.

(** [preprocess_variants]. *)
Definition preprocess_variants (gray : Pixels.Array Z) : list (Pixels.Array Z) :=
  flat_map (fun invert : bool =>
    let g := if invert then inverted gray else gray in
    let th := threshold_otsu g in
    [th; morph_close th])
    [false; true].

Definition cfg_multi : string := "--oem 3 --psm 6".
Definition cfg_word : string :=
  "--oem 3 --psm 7 -c tessedit_char_whitelist=0123456789:".

(** [extract_clock_seconds]. *)
Definition extract_clock_seconds (search_img : Pixels.Array Colour) : Reading :=
  let g := GaussianBlur3 (resize_twice (cvtColor_gray search_img)) in
  match first_reading
          (map (fun var => read_multi (ocr_text var cfg_multi))
             (preprocess_variants g)) with
  | Nothing =>
      first_reading
        (flat_map (fun sub =>
           map (fun var => read_word (ocr_text var cfg_word))
             (preprocess_variants sub))
           (Pixels.windows g))
  | r => r
  end.
End Extract.

End Ocr.

(** A world where [vod.mp4] does not open, a remux produces a file that
    does, and every cut succeeds. *)
Definition repairable_world : Scripted := {|
  videos := [];
  ffmpeg_on_path := true;
  transcoder := fun cmd =>
    match cmd with
    | Remux _ _ dst => (0%Z, [(dst, plain_recording)])
    | Reencode _ _ _ => (1%Z, [])
    | _ => (0%Z, [])
    end
|}.

(** A scripted imaging stack: the image operations leave the array alone
    and the OCR answers with a text chosen by the array's first element. *)
#[export] Instance scripted_imaging : Ocr.Imaging := {|
  Ocr.Colour := Z;
  Ocr.cvtColor_gray := fun a => a;
  Ocr.resize_twice := fun a => a;
  Ocr.GaussianBlur3 := fun a => a;
  Ocr.threshold_otsu := fun a => a;
  Ocr.morph_close := fun a => a;
  Ocr.ocr_text := fun a _ =>
    if (Pixels.at_ a 0 0 =? 1)%Z then "Ranked 03:45 x"%string
    else if (Pixels.at_ a 0 0 =? 2)%Z then "12:75"%string
    else EmptyString
|}.

Definition flat_image (v : Z) : Pixels.Array Z :=
  {| Pixels.rows := 40; Pixels.cols := 120; Pixels.at_ := fun _ _ => v |}.

(** ** The caller: step 2 of [run_pipeline.py]

    The pipeline runs the splitter as a subprocess on every recording that
    is not yet marked as split, and keeps the marks in a JSON file.  The
    subprocess is the script modelled above; an interrupt from the keyboard,
    being asynchronous, is not modelled. *)

Module Pipeline.

(** A JSON value as far as the marks care: [true], or anything else. *)
Inductive json : Type := JTrue | JOther.

Definition Dict : Type := list (string * json).

(** [st.get(key)] and [st[key] = value] on a dict (a key keeps its place
    when it is assigned again). *)
Fixpoint dict_get (key : string) (d : Dict) : option json :=
  match d with
  | [] => None
  | (k, v) :: rest => if String.eqb k key then Some v else dict_get key rest
  end.
Fixpoint dict_set (key : string) (value : json) (d : Dict) : Dict :=
  match d with
  | [] => [(key, value)]
  | (k, v) :: rest =>
      if String.eqb k key then (k, value) :: rest
      else (k, v) :: dict_set key value rest
  end.

(** The state file as [load_json] meets it: absent, not valid JSON, a JSON
    object, or valid JSON of another kind (a list, a number, [null], ...). *)
Inductive StateFile : Type :=
| Missing
| Unparsable
| Object (d : Dict)
| NotObject.

(** What [load_json] returns: a dict, or a value that is not a dict. *)
Inductive Loaded : Type :=
| ADict (d : Dict)
| Other.

Inductive perr : Type :=
| AttributeError
| TypeError.

Inductive PResult (A : Type) : Type :=
| Fine (a : A)
| Crash (e : perr).
Arguments Fine {A} a.
Arguments Crash {A} e.

(** The lines step 2 prints itself. *)
Inductive PLine : Type :=
| say_step2
| say_script_missing
| say_no_vod
| say_split (vod_name export_dir : string)
| say_run (cmd : list string)
| say_split_failed (vod_name : string) (returncode : Z)
| say_nothing_new.

(** What the pipeline asks of the file system, over the world of the
    splitter. *)
Class Files `{Host} : Type := {
  split_script_exists : World -> bool;
  vods_root_exists : World -> bool;
  rglob_mp4_sorted : World -> list string;
  split_state : World -> StateFile;
  save_json : Dict -> World -> World;
  resolve : string -> World -> string;
  path_name : string -> string;
  parent_name : string -> string;
  grandparent_name : string -> string;
  EXPORTS_ROOT : string;
  PYTHON_EXE : string;
  SPLIT_SCRIPT : string
}.

Section Step2.
Context `{Files}.
Variable cfg : Config.

(** The state of a pipeline run: the state of the splitter runs (world,
    transcoder commands spawned, lines printed by the children) and the
    lines the pipeline printed. *)
Record PState : Type := {
  child : St;
  said : list PLine
}.

Definition say (l : PLine) (ps : PState) : PState :=
  {| child := child ps; said := said ps ++ [l] |}.
Definition in_world (f : World -> World) (ps : PState) : PState :=
  {| child := {| world := f (world (child ps)); spawned := spawned (child ps);
                 printed := printed (child ps) |};
     said := said ps |}.

(** [load_json(SPLIT_STATE)]. *)
Definition load_json (w : World) : Loaded :=
  match split_state w with
  | Missing => ADict []
  | Unparsable => ADict []
  | Object d => ADict d
  | NotObject => Other
  end.

(** [is_split_done]. *)
Definition is_split_done (vod_path : string) (w : World) : PResult bool :=
  match load_json w with
  | ADict st =>
      Fine (match dict_get (resolve vod_path w) st with
            | Some JTrue => true
            | _ => false
            end)
  | Other => Crash AttributeError
  end.

(** [mark_split_done]. *)
Definition mark_split_done (vod_path : string) (w : World) : PResult unit * World :=
  match load_json w with
  | ADict st => (Fine tt, save_json (dict_set (resolve vod_path w) JTrue st) w)
  | Other => (Crash TypeError, w)
  end.

(** [find_all_vods(VODS_ROOT)]. *)
Definition find_all_vods (w : World) : list string :=
  if vods_root_exists w then rglob_mp4_sorted w else [].

(** [export_dir_for_vod]. *)
Definition export_dir_for_vod (vod_path : string) : string * string :=
  let date_folder := parent_name vod_path in
  let streamer := grandparent_name vod_path in
  ((EXPORTS_ROOT ++ "/" ++ streamer ++ "_" ++ date_folder)%string, streamer).

(** The command line of the splitter for a recording, as step 2 builds
    it. *)
Definition split_cmd (vod : string) : list string :=
  [PYTHON_EXE; SPLIT_SCRIPT; vod; fst (export_dir_for_vod vod)].

(** [run([PYTHON_EXE, SPLIT_SCRIPT, vod, export_dir])]: the exit status of
    the splitter run on these arguments. *)
Definition run (vod export_dir : string) (ps : PState) : Z * PState :=
  let ps1 := say (say_run [PYTHON_EXE; SPLIT_SCRIPT; vod; export_dir]) ps in
  let (code, st) := script cfg [SPLIT_SCRIPT; vod; export_dir] (child ps1) in
  (code, {| child := st; said := said ps1 |}).

(** The [for vod in vods] loop of [step_2_split_all_new_vods]. *)
Fixpoint split_each (limit : option Z) (vods : list string) (count : Z)
    (new_export_dirs : list string) (ps : PState)
  : PResult (list string) * PState :=
  match vods with
  | [] => (Fine new_export_dirs, ps)
  | vod :: rest =>
      if match limit with Some n => (n <=? count)%Z | None => false end
      then (Fine new_export_dirs, ps)
      else
        match is_split_done vod (world (child ps)) with
        | Crash e => (Crash e, ps)
        | Fine true => split_each limit rest count new_export_dirs ps
        | Fine false =>
            let export_dir := fst (export_dir_for_vod vod) in
            let ps1 := in_world (os_makedirs export_dir) ps in
            let ps2 := say (say_split (path_name vod) export_dir) ps1 in
            let (code, ps3) := run vod export_dir ps2 in
            if (code =? 0)%Z then
              let (marked, w) := mark_split_done vod (world (child ps3)) in
              let ps4 := in_world (fun _ => w) ps3 in
              match marked with
              | Crash e => (Crash e, ps4)
              | Fine _ =>
                  let dirs :=
                    if existsb (String.eqb export_dir) new_export_dirs
                    then new_export_dirs
                    else new_export_dirs ++ [export_dir] in
                  split_each limit rest (count + 1)%Z dirs ps4
              end
            else
              split_each limit rest count new_export_dirs
                (say (say_split_failed (path_name vod) code) ps3)
        end
  end.

(** [step_2_split_all_new_vods]. *)
Definition step_2_split_all_new_vods (limit : option Z) (ps : PState)
  : PResult (list string) * PState :=
  let ps0 := say say_step2 ps in
  if negb (split_script_exists (world (child ps0)))
  then (Fine [], say say_script_missing ps0)
  else
    match find_all_vods (world (child ps0)) with
    | [] => (Fine [], say say_no_vod ps0)
    | vods =>
        match split_each limit vods 0%Z [] ps0 with
        | (Fine [], ps1) => (Fine [], say say_nothing_new ps1)
        | r => r
        end
    end.
End Step2.

End Pipeline.

(** The splitter commands that a log of step 2 shows as run. *)
Fixpoint runs (l : list Pipeline.PLine) : list (list string) :=
  match l with
  | [] => []
  | Pipeline.say_run cmd :: rest => cmd :: runs rest
  | _ :: rest => runs rest
  end.

(** A scripted world with a state file: the scripted world of the splitter
    next to the content of [split_done.json]. *)
Definition Filed : Type := (Scripted * Pipeline.StateFile)%type.

Definition filed_host : @Host scripted_vision := {|
  World := Filed;
  VideoCapture := fun path w => lookup path (videos (fst w));
  subprocess_run := fun cmd w =>
    let (code, made) := transcoder (fst w) cmd in
    (code, ({| videos := made ++ videos (fst w);
               ffmpeg_on_path := ffmpeg_on_path (fst w);
               transcoder := transcoder (fst w) |}, snd w));
  os_getenv := fun _ _ => None;
  path_exists := fun _ _ => false;
  shutil_which := fun _ w =>
    if ffmpeg_on_path (fst w) then Some "ffmpeg"%string else None;
  os_makedirs := fun _ w => w;
  os_path_splitext := fun s =>
    match splitext_at_dot s with Some p => p | None => (s, EmptyString) end;
  os_path_join := fun d f => (d ++ "/" ++ f)%string;
  game_file := fun i => ("Game_" ++ two_digits i ++ ".mp4")%string
|}.

(** Its files: the recordings are the videos of the world, every one of
    them in the folder [2024-05-01] of the streamer [faker]. *)
Definition filed_files : @Pipeline.Files scripted_vision filed_host :=
  @Pipeline.Build_Files scripted_vision filed_host
    (fun _ => true)                                   (* split_script_exists *)
    (fun _ => true)                                   (* vods_root_exists *)
    (fun w : Filed => map fst (videos (fst w)))       (* rglob_mp4_sorted *)
    (fun w : Filed => snd w)                          (* split_state *)
    (fun d (w : Filed) => (fst w, Pipeline.Object d)) (* save_json *)
    (fun p _ => p)                                    (* resolve *)
    (fun p => p)                                      (* path_name *)
    (fun _ => "2024-05-01"%string)                    (* parent_name *)
    (fun _ => "faker"%string)                         (* grandparent_name *)
    "exports"%string                                  (* EXPORTS_ROOT *)
    "python"%string                                   (* PYTHON_EXE *)
    "split_lol_games.py"%string.                      (* SPLIT_SCRIPT *)

Definition pipeline_start (w : Filed)
  : @Pipeline.PState scripted_vision filed_host :=
  @Pipeline.Build_PState scripted_vision filed_host
    (@Build_St scripted_vision filed_host w [] []) [].

(** Two recordings, neither of which opens, and no [ffmpeg] to repair
    them; [b.mp4] is already marked as split. *)
Definition unreadable_vods : Filed :=
  ({| videos := [("a.mp4"%string, closed_capture); ("b.mp4"%string, closed_capture);
                 ("c.mp4"%string, closed_capture)];
      ffmpeg_on_path := false;
      transcoder := fun _ => (1%Z, []) |},
   Pipeline.Object [("b.mp4"%string, Pipeline.JTrue)]).

(** One recording that opens and has no frame; no state file yet. *)
Definition gameless_vod : Filed :=
  ({| videos := [("a.mp4"%string, empty_recording)];
      ffmpeg_on_path := true;
      transcoder := fun _ => (0%Z, []) |},
   Pipeline.Missing).

(** * Properties *)

(** ** Lists *)

Lemma StronglySorted_snoc {A} (R : A -> A -> Prop) (l : list A) (x : A) :
  StronglySorted R l -> Forall (fun a => R a x) l -> StronglySorted R (l ++ [x]).
Proof.
  induction 1 as [|a l Hl IH Ha]; intros Hx; simpl.
  - repeat constructor.
  - inversion Hx; subst. constructor; [now apply IH|].
    apply Forall_app. split; [assumption | now repeat constructor].
Qed.

Lemma Forall_snoc {A} (P : A -> Prop) (l : list A) (x : A) :
  Forall P l -> P x -> Forall P (l ++ [x]).
Proof. intros. apply Forall_app. split; [assumption | now repeat constructor]. Qed.

Lemma last_cons_default {A} (l : list A) : forall (a d d' : A),
  last (a :: l) d = last (a :: l) d'.
Proof.
  induction l as [|b l IH]; intros a d d'; [reflexivity|].
  change (last (b :: l) d = last (b :: l) d'). apply IH.
Qed.

Lemma last_cons_shift {A} (l : list A) (a d : A) : last (a :: l) d = last l a.
Proof.
  destruct l as [|b l]; [reflexivity|].
  change (last (b :: l) d = last (b :: l) a). apply last_cons_default.
Qed.

Lemma Forall_weaken {A} (P Q' : A -> Prop) (l : list A) :
  Forall P l -> (forall a, P a -> Q' a) -> Forall Q' l.
Proof. intros Hl Himp. eapply Forall_impl; eauto. Qed.

(** Linear arithmetic on rationals, reading [inject_Z 0] as [0]. *)
Ltac qlra := change (inject_Z 0) with 0 in *; lra.

(** ** The loop invariant *)

Section Invariant.
Variable cfg : Config.
Variable duration gap : Q.
Hypothesis gap_nonneg : 0 <= gap.

Lemma Inv_initial (t : Q) : Inv cfg gap t initial.
Proof.
  constructor; simpl; intros; try discriminate; try constructor; lia.
Qed.

Lemma scaled_mono (a b : Z) : (a <= b)%Z -> inject_Z a * gap <= inject_Z b * gap.
Proof.
  intros Hab. apply Qmult_le_compat_r; [|assumption].
  rewrite <- Zle_Qle. assumption.
Qed.

Lemma scaled_nonneg (a : Z) : (0 <= a)%Z -> 0 <= inject_Z a * gap.
Proof.
  intros Ha. apply Qmult_le_0_compat; [|assumption].
  change 0 with (inject_Z 0). rewrite <- Zle_Qle. assumption.
Qed.

Lemma scaled_succ (a : Z) : inject_Z (a + 1) * gap == inject_Z a * gap + gap.
Proof. rewrite inject_Z_plus. change (inject_Z 1) with 1. ring. Qed.

Lemma Inv_step (t t' : Q) (m : Machine) (clock_val : option Z) :
  Inv cfg gap t m -> t + gap <= t' ->
  Inv cfg gap t' (process_sample cfg duration m t' clock_val).
Proof.
  intros [Hc Hs Ho Hl Hst Hso He Ha] Ht.
  pose proof (scaled_nonneg _ Hc) as Hcg.
  pose proof (scaled_succ (clock_missing_count m)) as Hsucc.
  assert (Hst' : Forall (fun s : Segment => fst s <= t') (segments m)).
  { eapply Forall_weaken; [exact Hst|]. simpl. intros a Ha'. qlra. }
  assert (Hnew : Forall (fun s : Segment => fst s + gap <= t') (segments m)).
  { eapply Forall_weaken; [exact Hst|]. simpl. intros a Ha'. qlra. }
  assert (He' : tail_within_limit cfg gap ->
                Forall (fun s : Segment => snd s <= t') (segments m)).
  { intros Hw. eapply Forall_weaken; [exact (He Hw)|]. simpl. intros a Ha'. qlra. }
  unfold process_sample, try_close, try_open, observe.
  destruct clock_val as [c|]; destruct (open_segment_start m) as [start|] eqn:Eo; simpl.
  - (* a reading while a segment is open *)
    destruct (Ho start eq_refl) as (Hlim & (seen & Hseen & Hle) & Hfs & Hfe).
    destruct (Z.leb_spec (CLOCK_MISSING_LIMIT cfg) 0) as [Hge|Hlt]; [lia|].
    pose proof (Hs _ Hseen).
    constructor; simpl; auto; try lia.
    + intros s' [= <-]. qlra.
    + intros s' [= <-]. repeat split; auto.
      exists t'. split; [reflexivity | lra].
  - (* a reading while idle *)
    destruct (c <=? START_THRESHOLD_SEC cfg)%Z; simpl;
      [destruct (Qle_bool (MIN_GAP_BETWEEN_GAMES cfg) (t' - last_start_time m)); simpl|].
    + destruct (Z.leb_spec (CLOCK_MISSING_LIMIT cfg) 0) as [Hge|Hlt].
      * (* opens and closes at once *)
        pose proof (Q.le_min_l (t' + TAIL_AFTER_CLOCK_MISS cfg) duration) as Hmin.
        constructor; simpl; auto; try lia; try discriminate.
        -- intros s' [= <-]. qlra.
        -- destruct (Qle_bool _ _) eqn:Ed; [|assumption].
           apply Forall_snoc; [assumption|]. apply Qle_bool_iff in Ed. exact Ed.
        -- destruct (Qle_bool _ _); [|assumption].
           apply Forall_snoc; [assumption|]. simpl. qlra.
        -- destruct (Qle_bool _ _); [|assumption].
           apply StronglySorted_snoc; assumption.
        -- intros Hw. destruct (Qle_bool _ _); [|auto].
           apply Forall_snoc; [auto|]. simpl.
           pose proof (scaled_mono _ _ Hge) as Hm. unfold tail_within_limit in Hw.
           change (inject_Z 0) with 0 in Hm. qlra.
        -- intros Hw. destruct (Qle_bool _ _); [|auto].
           apply StronglySorted_snoc; auto.
      * constructor; simpl; auto; try lia.
        -- intros s' [= <-]. qlra.
        -- intros s' [= <-]. repeat split; auto.
           exists t'. split; [reflexivity | lra].
    + constructor; simpl; auto; try lia; try discriminate.
      * intros s' [= <-]. qlra.
    + constructor; simpl; auto; try lia; try discriminate.
      * intros s' [= <-]. qlra.
  - (* a miss while a segment is open *)
    destruct (Ho start eq_refl) as (Hlim & (seen & Hseen & Hle) & Hfs & Hfe).
    pose proof (Hs _ Hseen) as Hstreak.
    destruct (Z.leb_spec (CLOCK_MISSING_LIMIT cfg) (clock_missing_count m + 1)) as [Hge|Hlt].
    + rewrite Hseen.
      pose proof (Q.le_min_l (seen + TAIL_AFTER_CLOCK_MISS cfg) duration) as Hmin.
      constructor; simpl; auto; try lia; try discriminate.
      * intros s' [= <-]. qlra.
      * destruct (Qle_bool _ _) eqn:Ed; [|assumption].
        apply Forall_snoc; [assumption|]. apply Qle_bool_iff in Ed. exact Ed.
      * destruct (Qle_bool _ _); [|assumption].
        apply Forall_snoc; [assumption|]. simpl. qlra.
      * destruct (Qle_bool _ _); [|assumption].
        apply StronglySorted_snoc; assumption.
      * intros Hw. destruct (Qle_bool _ _); [|auto].
        apply Forall_snoc; [auto|]. simpl.
        pose proof (scaled_mono _ _ Hge) as Hm. unfold tail_within_limit in Hw. qlra.
      * intros Hw. destruct (Qle_bool _ _); [|auto].
        apply StronglySorted_snoc; auto.
    + constructor; simpl; auto; try lia.
      * rewrite Hseen. intros s' [= <-]. qlra.
      * intros s' [= <-]. repeat split; auto; try lia.
        exists seen. split; [assumption | lra].
  - (* a miss while idle *)
    constructor; simpl; auto; try lia; try discriminate.
    + intros seen Hseen. pose proof (Hs _ Hseen). qlra.
Qed.

Lemma feed_cons (m : Machine) (s : Sample) (l : list Sample) :
  feed cfg duration m (s :: l)
  = feed cfg duration (process_sample cfg duration m (fst s) (snd s)) l.
Proof. reflexivity. Qed.

Lemma feed_app (m : Machine) (l1 l2 : list Sample) :
  feed cfg duration m (l1 ++ l2) = feed cfg duration (feed cfg duration m l1) l2.
Proof. apply fold_left_app. Qed.

Lemma Inv_feed (l : list Sample) : forall (t : Q) (m : Machine),
  Inv cfg gap t m -> spaced_from gap t l ->
  Inv cfg gap (end_time t l) (feed cfg duration m l).
Proof.
  induction l as [|s l IH]; intros t m Hm Hl; simpl in *.
  - exact Hm.
  - destruct Hl as [Hs Hl]. apply IH; [|exact Hl].
    apply Inv_step with (t := t); assumption.
Qed.

(** The end-of-stream block keeps what the invariant says of the list. *)
Lemma Inv_at_eof (t : Q) (m : Machine) :
  Inv cfg gap t m ->
  let segs := segments (at_eof cfg duration m) in
  Forall (long_enough cfg) segs /\
  StronglySorted (fun a b => fst a + gap <= fst b) segs /\
  (tail_within_limit cfg gap -> StronglySorted (fun a b => snd a <= fst b) segs).
Proof.
  intros [Hc Hs Ho Hl Hst Hso He Ha]. unfold at_eof.
  destruct (open_segment_start m) as [start|] eqn:Eo; simpl; [|auto].
  destruct (Ho start eq_refl) as (_ & _ & Hfs & Hfe).
  destruct (Qle_bool _ _) eqn:Ed; [|auto].
  apply Qle_bool_iff in Ed. repeat split.
  - apply Forall_snoc; assumption.
  - apply StronglySorted_snoc; assumption.
  - intros Hw. apply StronglySorted_snoc; auto.
Qed.
End Invariant.

(** ** The loop is the machine fed with the samples of the capture *)

Section Sampling.
Context `{Vision}.
Variable cfg : Config.
Variable duration fps : Q.
Variable step : Z.

Lemma scan_feed (frames : list (option Frame)) : forall (frame_idx : Z) (m : Machine),
  scan cfg duration fps step frames frame_idx m
  = feed cfg duration m (samples cfg fps step frames frame_idx).
Proof.
  induction frames as [|f rest IH]; intros frame_idx m; simpl.
  - reflexivity.
  - destruct (negb (frame_idx mod step =? 0)%Z); [apply IH|].
    destruct f as [frame|]; [|reflexivity].
    rewrite IH. reflexivity.
Qed.

Hypothesis fps_pos : 0 < fps.
Hypothesis step_pos : (0 < step)%Z.

Lemma time_mono (a b : Z) : (a <= b)%Z -> inject_Z a / fps <= inject_Z b / fps.
Proof.
  intros Hab. unfold Qdiv. apply Qmult_le_compat_r.
  - rewrite <- Zle_Qle. assumption.
  - apply Qlt_le_weak, Qinv_lt_0_compat, fps_pos.
Qed.

Lemma time_plus (a b : Z) :
  inject_Z (a + b) / fps == inject_Z a / fps + inject_Z b / fps.
Proof. rewrite inject_Z_plus. unfold Qdiv. ring. Qed.

Lemma gap_pos : 0 < inject_Z step / fps.
Proof.
  unfold Qdiv. apply Qmult_lt_0_compat.
  - change 0 with (inject_Z 0). rewrite <- Zlt_Qlt. assumption.
  - apply Qinv_lt_0_compat, fps_pos.
Qed.

(** Sampled frame indices are multiples of [step], so two consecutive
    samples are [step / fps] seconds apart or more. *)
Lemma samples_spaced (frames : list (option Frame)) : forall (frame_idx k : Z),
  (k mod step = 0)%Z -> (k < frame_idx)%Z ->
  spaced_from (inject_Z step / fps) (inject_Z k / fps)
    (samples cfg fps step frames frame_idx).
Proof.
  induction frames as [|f rest IH]; intros frame_idx k Hk Hlt; simpl.
  - exact I.
  - destruct (Z.eqb_spec (frame_idx mod step) 0) as [Hi|Hi]; simpl.
    + destruct f as [frame|]; simpl; [|exact I]. split.
      * rewrite <- time_plus. apply time_mono.
        apply Z.mod_divide in Hk, Hi; try lia.
        destruct Hk as [a ->], Hi as [b ->].
        assert (a < b)%Z by (apply Z.mul_lt_mono_pos_r with step; lia). nia.
      * apply IH; [assumption | lia].
    + apply IH; [assumption | lia].
Qed.
End Sampling.

(** ** Shape of the result *)

Lemma StronglySorted_weaken {A} (R R' : A -> A -> Prop) (l : list A) :
  (forall a b, R a b -> R' a b) -> StronglySorted R l -> StronglySorted R' l.
Proof.
  intros Himp. induction 1 as [|a l Hl IH Ha]; constructor; [assumption|].
  eapply Forall_weaken; [exact Ha | auto].
Qed.

Lemma apart_disjoint (l : list Segment) :
  StronglySorted (fun a b => snd a <= fst b) l -> disjoint l.
Proof.
  unfold disjoint. induction 1 as [|a l Hl IH Ha]; constructor; [|assumption].
  eapply Forall_weaken; [exact Ha|]. simpl. intros b Hab [_ Hlt]. lra.
Qed.

Lemma int_floor (q : Q) : 0 <= q -> inject_Z (int q) <= q /\ q < inject_Z (int q) + 1.
Proof.
  destruct q as [n d]. unfold int, Qle, Qlt; simpl. intros Hn.
  rewrite Z.mul_1_r in Hn. rewrite Z.quot_div_nonneg by lia.
  pose proof (Z.div_mod n (Zpos d) ltac:(lia)) as Hdiv.
  pose proof (Z.mod_pos_bound n (Zpos d) ltac:(lia)) as Hmod.
  split; nia.
Qed.

Section Shape.
Context `{Vision}.
Variable cfg : Config.
Variable cap : Capture.

Lemma analyse_feed :
  analyse cfg cap
  = at_eof cfg (the_duration cap)
      (feed cfg (the_duration cap) initial (the_samples cfg cap)).
Proof. unfold analyse, the_samples. rewrite scan_feed. reflexivity. Qed.

Lemma the_step_pos : (0 < the_step cfg cap)%Z.
Proof. unfold the_step. lia. Qed.

Hypothesis fps_nonneg : 0 <= CAP_PROP_FPS cap.

Lemma the_fps_pos : 0 < the_fps cap.
Proof.
  unfold the_fps, or_else.
  destruct (Qeq_bool (CAP_PROP_FPS cap) 0) eqn:E; [reflexivity|].
  apply Qeq_bool_neq in E. apply Qle_lteq in fps_nonneg.
  destruct fps_nonneg as [Hlt|Heq]; [assumption|].
  exfalso. apply E. symmetry. assumption.
Qed.

(** Time between two consecutive samples of this capture. *)
Lemma the_samples_spaced :
  spaced_from (inject_Z (the_step cfg cap) / the_fps cap)
    (inject_Z (- the_step cfg cap) / the_fps cap) (the_samples cfg cap).
Proof.
  pose proof the_step_pos. apply samples_spaced.
  - apply the_fps_pos.
  - assumption.
  - apply Z.mod_divide; [lia|]. exists (-1)%Z. lia.
  - lia.
Qed.

Lemma Inv_the_samples :
  Inv cfg (inject_Z (the_step cfg cap) / the_fps cap)
    (end_time (inject_Z (- the_step cfg cap) / the_fps cap) (the_samples cfg cap))
    (feed cfg (the_duration cap) initial (the_samples cfg cap)).
Proof.
  apply Inv_feed.
  - apply Qlt_le_weak, gap_pos; [apply the_fps_pos | apply the_step_pos].
  - apply Inv_initial.
  - apply the_samples_spaced.
Qed.
End Shape.

(** With the shipped constants, ten sampling steps last twenty seconds or
    more as soon as the recording has one frame per second. *)
Lemma shipped_tail_within_limit `{Vision} (cap : Capture) :
  1 <= CAP_PROP_FPS cap ->
  tail_within_limit shipped (inject_Z (the_step shipped cap) / the_fps cap).
Proof.
  intros Hfps. unfold tail_within_limit. simpl.
  assert (Hpos : 0 < the_fps cap) by (apply the_fps_pos; lra).
  assert (Heq : the_fps cap = CAP_PROP_FPS cap).
  { unfold the_fps, or_else. destruct (Qeq_bool _ _) eqn:E; [|reflexivity].
    apply Qeq_bool_iff in E. lra. }
  rewrite <- Heq in Hfps.
  assert (Hstep : 2 * the_fps cap <= inject_Z (the_step shipped cap)).
  { unfold the_step. simpl.
    destruct (int_floor (the_fps cap * 3)) as [_ Hup]; [lra|].
    assert (Hmax : inject_Z (int (the_fps cap * 3))
                   <= inject_Z (Z.max 1 (int (the_fps cap * 3)))).
    { rewrite <- Zle_Qle. lia. }
    lra. }
  assert (Htwo : 2 <= inject_Z (the_step shipped cap) / the_fps cap).
  { apply Qle_shift_div_l; assumption. }
  change (inject_Z 10) with 10. lra.
Qed.

(** C1 (amended). For every configuration and every opened capture with a
    non-negative frame rate, [detect_segments] returns a list that is in
    strictly increasing order of start and whose segments all last
    [MIN_SEGMENT_SEC] or more.  No two of its segments overlap when the tail
    padding is at most the missing-clock limit times the sampling period
    [step / fps]; with the shipped constants that is the case for every
    frame rate of one frame per second or more. *)
Theorem detect_segments_shape `{Vision} (cfg : Config) (cap : Capture) :
  isOpened cap = true -> 0 <= CAP_PROP_FPS cap ->
  exists segs,
    detect_segments cfg cap = Ok segs /\
    ordered_by_start segs /\
    Forall (long_enough cfg) segs /\
    (tail_within_limit cfg (inject_Z (the_step cfg cap) / the_fps cap) ->
     disjoint segs) /\
    (cfg = shipped -> 1 <= CAP_PROP_FPS cap -> disjoint segs).
Proof.
  intros Hopen Hfps. exists (segments (analyse cfg cap)).
  unfold detect_segments. rewrite Hopen. split; [reflexivity|].
  pose proof (Inv_the_samples cfg cap Hfps) as Hinv.
  assert (Hgap : 0 < inject_Z (the_step cfg cap) / the_fps cap).
  { apply gap_pos; [now apply the_fps_pos | apply the_step_pos]. }
  apply Inv_at_eof with (duration := the_duration cap) in Hinv.
  rewrite <- analyse_feed in Hinv. destruct Hinv as (Hlong & Hsorted & Hapart).
  assert (Hdisj : tail_within_limit cfg (inject_Z (the_step cfg cap) / the_fps cap) ->
                  disjoint (segments (analyse cfg cap))).
  { intros Hw. apply apart_disjoint. auto. }
  repeat split.
  - eapply StronglySorted_weaken; [|exact Hsorted]. simpl. intros a b Hab. lra.
  - exact Hlong.
  - exact Hdisj.
  - intros -> Hone. apply Hdisj. now apply shipped_tail_within_limit.
Qed.

Lemma detect_segments_shape_witness :
  exists segs,
    detect_segments shipped plain_recording = Ok segs /\
    ordered_by_start segs /\
    Forall (long_enough shipped) segs /\
    (tail_within_limit shipped
       (inject_Z (the_step shipped plain_recording) / the_fps plain_recording) ->
     disjoint segs) /\
    (shipped = shipped -> 1 <= CAP_PROP_FPS plain_recording -> disjoint segs).
Proof.
  apply (detect_segments_shape shipped plain_recording).
  - reflexivity.
  - simpl. lra.
Defined.

(** C1 as stated fails.  With the shipped constants, on a recording at 0.625
    frames per second, samples are 1.6 s apart: ten misses span 16 s, less
    than the 20 s tail.  The first segment is closed at 100.8 + 20 = 120.8 s
    and the second one starts at 118.4 s. *)
Lemma overlap_on_slow_recording :
  detect_segments shipped slow_recording
  = Ok [(0 # 5, 604 # 5); (592 # 5, 1280 # 5)]
  /\ overlap (0 # 5, 604 # 5) (592 # 5, 1280 # 5)
  /\ ~ disjoint [(0 # 5, 604 # 5); (592 # 5, 1280 # 5)].
Proof.
  assert (Hov : overlap (0 # 5, 604 # 5) (592 # 5, 1280 # 5)).
  { unfold overlap; simpl; split; reflexivity. }
  split; [vm_compute; reflexivity|]. split; [exact Hov|].
  intros Hd. inversion Hd as [|a l Hall _]; subst.
  inversion Hall as [|b l' Hno _]; subst. apply Hno, Hov.
Qed.


(** ** The close transition *)

Lemma streak_snoc (l : list Sample) (s : Sample) :
  streak (l ++ [s]) = match snd s with Some _ => 0%Z | None => (streak l + 1)%Z end.
Proof. unfold streak. rewrite fold_left_app. reflexivity. Qed.

Lemma feed_snoc (cfg : Config) (duration : Q) (m : Machine) (l : list Sample)
    (s : Sample) :
  feed cfg duration m (l ++ [s])
  = process_sample cfg duration (feed cfg duration m l) (fst s) (snd s).
Proof. unfold feed. rewrite fold_left_app. reflexivity. Qed.

Lemma Consistent_feed (cfg : Config) (duration : Q) (l : list Sample) :
  Consistent cfg l (feed cfg duration initial l).
Proof.
  induction l as [|[t c] l IH] using rev_ind.
  - split; simpl; [lia | discriminate].
  - rewrite feed_snoc. simpl fst; simpl snd.
    destruct IH as [Hc Ho]. set (m := feed cfg duration initial l) in *.
    unfold Consistent. rewrite streak_snoc. simpl snd.
    unfold process_sample, try_close, try_open, observe.
    destruct c as [c|]; destruct (open_segment_start m) as [start|] eqn:Eo; simpl.
    + destruct (Ho start eq_refl) as (Hlim & _ & _).
      destruct (Z.leb_spec (CLOCK_MISSING_LIMIT cfg) 0) as [Hge|Hlt]; [lia|].
      simpl. split; [lia|]. intros s' _. repeat split; try lia. eauto.
    + destruct (c <=? START_THRESHOLD_SEC cfg)%Z; simpl;
        [destruct (Qle_bool (MIN_GAP_BETWEEN_GAMES cfg) (t - last_start_time m)); simpl|].
      * destruct (Z.leb_spec (CLOCK_MISSING_LIMIT cfg) 0) as [Hge|Hlt]; simpl.
        -- split; [lia | discriminate].
        -- split; [lia|]. intros s' _. repeat split; try lia. eauto.
      * split; [lia | discriminate].
      * split; [lia | discriminate].
    + destruct (Ho start eq_refl) as (Hlim & Hstreak & seen & Hseen).
      destruct (Z.leb_spec (CLOCK_MISSING_LIMIT cfg) (clock_missing_count m + 1))
        as [Hge|Hlt]; simpl.
      * rewrite Hseen. simpl. split; [lia | discriminate].
      * split; [lia|]. intros s' _. repeat split; try lia. eauto.
    + split; [lia | discriminate].
Qed.

(** C5. Take the machine after any stream and let the next sample get as far
    as the close test (lines 164-174 done).  If a segment is open there, the
    last sighting of the clock is set, and the counter is the number of
    unreadable samples in a row.  Below [CLOCK_MISSING_LIMIT] the sample
    changes nothing more.  From [CLOCK_MISSING_LIMIT] on the segment is
    closed: the machine is idle again with the counter at zero, one END line
    is printed whether or not the segment is kept, and the segment
    [(start, min(seen + TAIL_AFTER_CLOCK_MISS, duration))] is appended when
    its length is [MIN_SEGMENT_SEC] or more and dropped otherwise.  For a
    segment that was already open before the sample, the close happens when
    the counter equals the limit. *)
Theorem close_transition (cfg : Config) (duration : Q) (pre : list Sample)
    (t_sec : Q) (clock_val : option Z) (start : Q) :
  let before := feed cfg duration initial pre in
  let m := try_open cfg (observe before t_sec clock_val) t_sec clock_val in
  let after := process_sample cfg duration before t_sec clock_val in
  open_segment_start m = Some start ->
  exists seen,
    last_clock_seen_time m = Some seen /\
    clock_missing_count m = streak (pre ++ [(t_sec, clock_val)]) /\
    let end_sec := Qmin (seen + TAIL_AFTER_CLOCK_MISS cfg) duration in
    ((clock_missing_count m < CLOCK_MISSING_LIMIT cfg)%Z -> after = m) /\
    ((CLOCK_MISSING_LIMIT cfg <= clock_missing_count m)%Z ->
       open_segment_start after = None /\
       clock_missing_count after = 0%Z /\
       last_start_time after = last_start_time m /\
       stdout after = stdout m ++ [say_END end_sec (end_sec - start)] /\
       (MIN_SEGMENT_SEC cfg <= end_sec - start ->
        segments after = segments m ++ [(start, end_sec)]) /\
       (~ MIN_SEGMENT_SEC cfg <= end_sec - start ->
        segments after = segments m)) /\
    (open_segment_start before = Some start ->
     (CLOCK_MISSING_LIMIT cfg <= clock_missing_count m)%Z ->
     clock_missing_count m = CLOCK_MISSING_LIMIT cfg).
Proof.
  intros before m after Hopen.
  assert (Hseen : exists seen, last_clock_seen_time m = Some seen
                  /\ clock_missing_count m = streak (pre ++ [(t_sec, clock_val)])
                  /\ (open_segment_start before = Some start ->
                      (clock_missing_count m <= CLOCK_MISSING_LIMIT cfg)%Z)).
  { destruct (Consistent_feed cfg duration pre) as [Hc Ho]. fold before in Hc, Ho.
    rewrite streak_snoc. simpl snd. subst m. revert Hopen.
    unfold try_open, observe.
    destruct clock_val as [c|];
      destruct (open_segment_start before) as [start0|] eqn:Eo; simpl.
    - intros _. destruct (Ho start0 eq_refl) as (Hlim & _ & _).
      exists t_sec. repeat split. lia.
    - destruct (c <=? START_THRESHOLD_SEC cfg)%Z;
        [destruct (Qle_bool _ _)|]; simpl; try discriminate.
      intros _. exists t_sec. repeat split. discriminate.
    - intros _. destruct (Ho start0 eq_refl) as (Hlim & Hs & seen & Hseen).
      exists seen. repeat split; [assumption | lia | lia].
    - discriminate. }
  destruct Hseen as (seen & Hseen & Hstreak & Hbound).
  exists seen. split; [exact Hseen|]. split; [exact Hstreak|].
  assert (Hafter : after = try_close cfg duration m) by reflexivity.
  rewrite Hafter. unfold try_close. rewrite Hopen, Hseen. cbv zeta.
  repeat split.
  - intros Hlt. destruct (Z.leb_spec (CLOCK_MISSING_LIMIT cfg) (clock_missing_count m));
      [lia | reflexivity].
  - destruct (Z.leb_spec (CLOCK_MISSING_LIMIT cfg) (clock_missing_count m));
      [reflexivity | lia].
  - destruct (Z.leb_spec (CLOCK_MISSING_LIMIT cfg) (clock_missing_count m));
      [reflexivity | lia].
  - destruct (Z.leb_spec (CLOCK_MISSING_LIMIT cfg) (clock_missing_count m));
      [reflexivity | lia].
  - destruct (Z.leb_spec (CLOCK_MISSING_LIMIT cfg) (clock_missing_count m));
      [reflexivity | lia].
  - intros Hmin. destruct (Z.leb_spec (CLOCK_MISSING_LIMIT cfg) (clock_missing_count m));
      [|lia]. simpl. apply Qle_bool_iff in Hmin. rewrite Hmin. reflexivity.
  - intros Hmin. destruct (Z.leb_spec (CLOCK_MISSING_LIMIT cfg) (clock_missing_count m));
      [|lia]. simpl. destruct (Qle_bool _ _) eqn:Ed; [|reflexivity].
      apply Qle_bool_iff in Ed. contradiction.
  - intros Hb Hge. specialize (Hbound Hb). lia.
Qed.

Lemma Qmin_left (x y : Q) : x <= y -> Qmin x y = x.
Proof.
  intros Hle. unfold Qmin, GenericMinMax.gmin.
  destruct (x ?= y) eqn:E; try reflexivity.
  apply Qgt_alt in E. lra.
Qed.

Lemma close_transition_witness :
  open_segment_start
    (try_open shipped
       (observe (feed shipped 400 initial (firstn 109 synthetic_stream)) 300 None)
       300 None) = Some 3
  /\ segments
       (process_sample shipped 400
          (feed shipped 400 initial (firstn 109 synthetic_stream)) 300 None)
     = [(3, 317)].
Proof.
  assert (Hopen : open_segment_start
    (try_open shipped
       (observe (feed shipped 400 initial (firstn 109 synthetic_stream)) 300 None)
       300 None) = Some 3) by (vm_compute; reflexivity).
  split; [exact Hopen|].
  destruct (close_transition shipped 400 (firstn 109 synthetic_stream) 300 None 3
              Hopen) as (seen & Hseen & _ & _ & Hclose & _).
  assert (Hs : seen = 297) by (vm_compute in Hseen; congruence).
  subst seen.
  destruct Hclose as (_ & _ & _ & _ & Hkeep & _); [vm_compute; discriminate|].
  rewrite Hkeep; [vm_compute; reflexivity | vm_compute; discriminate].
Defined.

(** ** A segment that is open has seen its clock *)






(** ** End of stream *)

(** C7. When the loop is left with a segment open, [detect_segments] closes
    it at the duration of the video: it returns the segments of the loop
    followed by [(start, duration)] if [duration - start] is
    [MIN_SEGMENT_SEC] or more, and the segments of the loop alone if not.
    The last sighting of the clock and the tail padding play no part. *)
Theorem eof_close `{Vision} (cfg : Config) (cap : Capture) (start : Q) :
  let duration := the_duration cap in
  let m := scan cfg duration (the_fps cap) (the_step cfg cap) (stream cap) 0%Z initial in
  isOpened cap = true ->
  open_segment_start m = Some start ->
  (MIN_SEGMENT_SEC cfg <= duration - start ->
   detect_segments cfg cap = Ok (segments m ++ [(start, duration)])) /\
  (~ MIN_SEGMENT_SEC cfg <= duration - start ->
   detect_segments cfg cap = Ok (segments m)).
Proof.
  intros duration m Hopened Hopen.
  unfold detect_segments, analyse. rewrite Hopened.
  fold duration. fold m. unfold at_eof. rewrite Hopen. simpl.
  split; intros Hmin.
  - apply Qle_bool_iff in Hmin. rewrite Hmin. reflexivity.
  - destruct (Qle_bool _ _) eqn:Ed; [|reflexivity].
    apply Qle_bool_iff in Ed. contradiction.
Qed.

Lemma eof_close_witness :
  isOpened rateless_recording = true
  /\ open_segment_start
       (scan shipped (the_duration rateless_recording) (the_fps rateless_recording)
          (the_step shipped rateless_recording) (stream rateless_recording) 0%Z initial)
     = Some (0 # 30)
  /\ last_clock_seen_time
       (scan shipped (the_duration rateless_recording) (the_fps rateless_recording)
          (the_step shipped rateless_recording) (stream rateless_recording) 0%Z initial)
     = Some (180 # 30)
  /\ detect_segments shipped rateless_recording = Ok [(0 # 30, 9000 # 30)].
Proof.
  assert (Hopen : open_segment_start
       (scan shipped (the_duration rateless_recording) (the_fps rateless_recording)
          (the_step shipped rateless_recording) (stream rateless_recording) 0%Z initial)
     = Some (0 # 30)) by (vm_compute; reflexivity).
  split; [reflexivity|]. split; [exact Hopen|]. split; [vm_compute; reflexivity|].
  destruct (eof_close shipped rateless_recording (0 # 30) eq_refl Hopen) as [Hkeep _].
  rewrite Hkeep; [vm_compute; reflexivity | vm_compute; discriminate].
Defined.

(** ** Determinism *)



(** ** Frame rate fallback *)

Lemma samples_times `{Vision} (cfg : Config) (fps : Q) (step : Z)
    (frames : list (option Frame)) : forall frame_idx : Z,
  Forall (fun s => exists k : Z, (frame_idx <= k)%Z /\ fst s = inject_Z k / fps)
    (samples cfg fps step frames frame_idx).
Proof.
  induction frames as [|f rest IH]; intros frame_idx; simpl.
  - constructor.
  - assert (Hrest : Forall (fun s : Sample => exists k : Z,
                      (frame_idx <= k)%Z /\ fst s = inject_Z k / fps)
                      (samples cfg fps step rest (frame_idx + 1)%Z)).
    { eapply Forall_weaken; [apply IH|]. simpl. intros s (k & Hk & Hs).
      exists k. split; [lia | assumption]. }
    destruct (negb _); [assumption|].
    destruct f as [frame|]; constructor; [|assumption].
    exists frame_idx. split; [lia | reflexivity].
Qed.

(** C10. An opened capture that reports a frame rate of zero does not make
    [detect_segments] fail: the rate used is 30, the duration is
    [total_frames / 30], the step is [max(1, int(30 * SAMPLE_EVERY_SEC))],
    every sample is stamped [frame_idx / 30], and the returned segments are
    those the loop and the end-of-stream block compute from these values. *)
Theorem fps_fallback `{Vision} (cfg : Config) (cap : Capture) :
  isOpened cap = true -> CAP_PROP_FPS cap == 0 ->
  the_fps cap = 30
  /\ the_duration cap = inject_Z (total_frames cap) / 30
  /\ the_step cfg cap = Z.max 1 (int (30 * SAMPLE_EVERY_SEC cfg))
  /\ Forall (fun s => exists frame_idx : Z, (0 <= frame_idx)%Z
                                            /\ fst s = inject_Z frame_idx / 30)
       (the_samples cfg cap)
  /\ detect_segments cfg cap
     = Ok (segments
             (at_eof cfg (inject_Z (total_frames cap) / 30)
                (scan cfg (inject_Z (total_frames cap) / 30) 30
                   (Z.max 1 (int (30 * SAMPLE_EVERY_SEC cfg))) (stream cap) 0%Z
                   initial))).
Proof.
  intros Hopened Hzero.
  assert (Hfps : the_fps cap = 30).
  { unfold the_fps, or_else. apply Qeq_bool_iff in Hzero. rewrite Hzero. reflexivity. }
  assert (Hd : the_duration cap = inject_Z (total_frames cap) / 30).
  { unfold the_duration. rewrite Hfps. reflexivity. }
  assert (Hst : the_step cfg cap = Z.max 1 (int (30 * SAMPLE_EVERY_SEC cfg))).
  { unfold the_step. rewrite Hfps. reflexivity. }
  repeat split; try assumption.
  - unfold the_samples. rewrite Hfps. apply samples_times.
  - unfold detect_segments, analyse. rewrite Hopened, Hd, Hst, Hfps. reflexivity.
Qed.

Lemma fps_fallback_witness :
  isOpened rateless_recording = true
  /\ CAP_PROP_FPS rateless_recording == 0
  /\ the_duration rateless_recording = inject_Z 9000 / 30
  /\ detect_segments shipped rateless_recording = Ok [(0 # 30, 9000 # 30)].
Proof.
  assert (Hzero : CAP_PROP_FPS rateless_recording == 0) by reflexivity.
  destruct (fps_fallback shipped rateless_recording eq_refl Hzero)
    as (_ & Hd & _ & _ & Hsegs).
  split; [reflexivity|]. split; [exact Hzero|]. split; [exact Hd|].
  rewrite Hsegs. vm_compute. reflexivity.
Defined.

(** ** The synthetic stream *)

Section Runs.
Variable cfg : Config.
Variable duration : Q.
Hypothesis limit_pos : (0 < CLOCK_MISSING_LIMIT cfg)%Z.

(** Legible samples while a segment is open only move the last sighting. *)
Lemma feed_readables_open (l : list (Q * Z)) :
  forall (since : Q) (segs : list Segment) (start seen : Q) (n : Z) (out : list Line),
  (n < CLOCK_MISSING_LIMIT cfg)%Z ->
  feed cfg duration
    {| last_start_time := since; segments := segs; open_segment_start := Some start;
       last_clock_seen_time := Some seen; clock_missing_count := n; stdout := out |}
    (readables l)
  = {| last_start_time := since; segments := segs; open_segment_start := Some start;
       last_clock_seen_time := Some (last (map fst l) seen);
       clock_missing_count := match l with [] => n | _ :: _ => 0 end;
       stdout := out |}.
Proof.
  induction l as [|[t c] l IH]; intros since segs start seen n out Hn.
  - reflexivity.
  - change (readables ((t, c) :: l)) with ((t, Some c) :: readables l).
    rewrite feed_cons. unfold process_sample, try_close, try_open, observe. simpl.
    destruct (Z.leb_spec (CLOCK_MISSING_LIMIT cfg) 0) as [Hge|Hlt]; [lia|].
    rewrite IH by assumption. f_equal.
    + f_equal. symmetry. apply (last_cons_shift (map fst l) t seen).
    + destruct l; reflexivity.
Qed.

(** Unreadable samples while a segment is open only move the counter, as
    long as it stays below the limit. *)
Lemma feed_misses_open (times : list Q) :
  forall (since : Q) (segs : list Segment) (start : Q) (seen : option Q) (n : Z)
         (out : list Line),
  (n + Z.of_nat (List.length times) < CLOCK_MISSING_LIMIT cfg)%Z ->
  feed cfg duration
    {| last_start_time := since; segments := segs; open_segment_start := Some start;
       last_clock_seen_time := seen; clock_missing_count := n; stdout := out |}
    (misses times)
  = {| last_start_time := since; segments := segs; open_segment_start := Some start;
       last_clock_seen_time := seen;
       clock_missing_count := n + Z.of_nat (List.length times);
       stdout := out |}.
Proof.
  induction times as [|t times IH]; intros since segs start seen n out Hn.
  - simpl. f_equal. lia.
  - change (misses (t :: times)) with ((t, @None Z) :: misses times).
    rewrite feed_cons. unfold process_sample, try_close, try_open, observe. simpl.
    simpl List.length in Hn.
    destruct (Z.leb_spec (CLOCK_MISSING_LIMIT cfg) (n + 1)) as [Hge|Hlt]; [lia|].
    rewrite IH by lia. f_equal. simpl List.length. lia.
Qed.
End Runs.

(** C2 (amended). On the synthetic stream, for any filling [mid] of the
    elided readings and any stamps on the twelve unreadable samples:
    nothing is open after (0,125); the segment opens at t=3, on the reading
    118, and is still the open one after (6,95) and after every later
    reading and each of the first nine misses; the tenth miss closes it with
    end = (last sighting) + 20, the video being long enough not to cap it,
    and the segment is kept when it lasts 120 s or more; after the twelve
    misses the last start is still 3, and since 333 - 3 >= 90 the reading 5
    at t=333 opens a second segment. *)
Theorem synthetic_run (duration : Q) (mid : list (Q * Z)) (miss_times : list Q) :
  let legible := (6, 95%Z) :: (9, 70%Z) :: mid in
  let seen := last (map fst legible) 3 in
  let run l := feed shipped duration initial l in
  let head := (0, Some 125%Z) :: (3, Some 118%Z) :: readables legible in
  List.length miss_times = 12%nat ->
  seen + 20 <= duration ->
  open_segment_start (run [(0, Some 125%Z)]) = None /\
  (forall k, open_segment_start
               (run ((0, Some 125%Z) :: (3, Some 118%Z) :: readables (firstn k legible)))
             = Some 3
             /\ segments
                  (run ((0, Some 125%Z) :: (3, Some 118%Z) :: readables (firstn k legible)))
                = []) /\
  (forall j, (j <= 9)%nat ->
     open_segment_start (run (head ++ misses (firstn j miss_times))) = Some 3
     /\ segments (run (head ++ misses (firstn j miss_times))) = []) /\
  open_segment_start (run (head ++ misses (firstn 10 miss_times))) = None /\
  (120 <= seen + 20 - 3 ->
   segments (run (head ++ misses (firstn 10 miss_times))) = [(3, seen + 20)]) /\
  (~ 120 <= seen + 20 - 3 ->
   segments (run (head ++ misses (firstn 10 miss_times))) = []) /\
  last_start_time (run (head ++ misses miss_times)) = 3 /\
  90 <= 333 - 3 /\
  open_segment_start (run (synthetic mid miss_times)) = Some 333.
Proof.
  intros legible seen run head Hlen Hdur.
  assert (Hlimit : (0 < CLOCK_MISSING_LIMIT shipped)%Z) by reflexivity.
  assert (Hrun : forall l rest,
    run ((0, Some 125%Z) :: (3, Some 118%Z) :: readables l ++ rest)
    = feed shipped duration
        {| last_start_time := 3; segments := []; open_segment_start := Some 3;
           last_clock_seen_time := Some (last (map fst l) 3);
           clock_missing_count := 0; stdout := [say_START 3 118] |} rest).
  { intros l rest. unfold run.
    change (feed shipped duration initial
              ((0, Some 125%Z) :: (3, Some 118%Z) :: readables l ++ rest))
      with (feed shipped duration
              {| last_start_time := 3; segments := []; open_segment_start := Some 3;
                 last_clock_seen_time := Some 3; clock_missing_count := 0;
                 stdout := [say_START 3 118] |} (readables l ++ rest)).
    rewrite feed_app, feed_readables_open by reflexivity.
    destruct l; reflexivity. }
  assert (Hquiet : forall times, (List.length times <= 9)%nat ->
    run (head ++ misses times)
    = {| last_start_time := 3; segments := []; open_segment_start := Some 3;
         last_clock_seen_time := Some seen;
         clock_missing_count := 0 + Z.of_nat (List.length times);
         stdout := [say_START 3 118] |}).
  { intros times Hle. unfold head.
    change (((0, Some 125%Z) :: (3, Some 118%Z) :: readables legible) ++ misses times)
      with ((0, Some 125%Z) :: (3, Some 118%Z) :: readables legible ++ misses times).
    rewrite Hrun. apply feed_misses_open. simpl CLOCK_MISSING_LIMIT. lia. }
  destruct miss_times as [|t1 [|t2 [|t3 [|t4 [|t5 [|t6 [|t7 [|t8 [|t9 [|t10 [|t11
    [|t12 [|]]]]]]]]]]]]]; try discriminate Hlen. clear Hlen.
  assert (Hclosed : run (head ++ misses (firstn 10 [t1; t2; t3; t4; t5; t6; t7; t8; t9;
                                                      t10; t11; t12]))
    = {| last_start_time := 3;
         segments := if Qle_bool 120 (seen + 20 - 3) then [(3, seen + 20)] else [];
         open_segment_start := None;
         last_clock_seen_time := Some seen; clock_missing_count := 0;
         stdout := [say_START 3 118; say_END (seen + 20) (seen + 20 - 3)] |}).
  { change (firstn 10 [t1; t2; t3; t4; t5; t6; t7; t8; t9; t10; t11; t12])
      with ([t1; t2; t3; t4; t5; t6; t7; t8; t9] ++ [t10]).
    unfold misses at 1. rewrite map_app, app_assoc. unfold run. rewrite feed_app.
    fold (misses [t1; t2; t3; t4; t5; t6; t7; t8; t9]). fold (run (head ++ misses [t1; t2; t3; t4; t5; t6; t7; t8; t9])).
    rewrite Hquiet by (simpl; lia).
    simpl map. unfold feed, fold_left, process_sample, try_close, try_open, observe.
    simpl. rewrite Qmin_left by exact Hdur. reflexivity. }
  split; [reflexivity|].
  split.
  { intros k.
    rewrite <- (app_nil_r (readables (firstn k legible))).
    rewrite Hrun. split; reflexivity. }
  split.
  { intros j Hj. rewrite Hquiet; [split; reflexivity|].
    etransitivity; [apply firstn_le_length | assumption]. }
  rewrite Hclosed. simpl segments.
  split; [reflexivity|].
  split.
  { intros Hkeep. apply Qle_bool_iff in Hkeep. rewrite Hkeep. reflexivity. }
  split.
  { intros Hdrop. destruct (Qle_bool _ _) eqn:Ed; [|reflexivity].
    apply Qle_bool_iff in Ed. contradiction. }
  repeat split.
  - change [t1; t2; t3; t4; t5; t6; t7; t8; t9; t10; t11; t12]
      with (firstn 10 [t1; t2; t3; t4; t5; t6; t7; t8; t9; t10; t11; t12]
            ++ [t11; t12]).
    unfold misses. rewrite map_app, app_assoc. unfold run. rewrite feed_app.
    fold (misses (firstn 10 [t1; t2; t3; t4; t5; t6; t7; t8; t9; t10; t11; t12])).
    fold (run (head ++ misses (firstn 10 [t1; t2; t3; t4; t5; t6; t7; t8; t9; t10; t11; t12]))).
    rewrite Hclosed. reflexivity.
  - unfold Qle; simpl; lia.
  - unfold synthetic.
    change [t1; t2; t3; t4; t5; t6; t7; t8; t9; t10; t11; t12]
      with (firstn 10 [t1; t2; t3; t4; t5; t6; t7; t8; t9; t10; t11; t12]
            ++ [t11; t12]).
    fold legible.
    replace ((0, Some 125%Z) :: (3, Some 118%Z)
             :: readables legible
                ++ misses (firstn 10 [t1; t2; t3; t4; t5; t6; t7; t8; t9; t10; t11; t12]
                           ++ [t11; t12]) ++ [(333, Some 5%Z)])
      with ((head ++ misses (firstn 10 [t1; t2; t3; t4; t5; t6; t7; t8; t9; t10; t11; t12]))
            ++ [(t11, None); (t12, None); (333, Some 5%Z)]).
    + unfold run. rewrite feed_app.
      fold (run (head ++ misses (firstn 10 [t1; t2; t3; t4; t5; t6; t7; t8; t9; t10; t11; t12]))).
      rewrite Hclosed. reflexivity.
    + unfold head, misses. rewrite map_app. simpl. rewrite <- !app_assoc. reflexivity.
Qed.


Lemma synthetic_run_witness :
  List.length (repeat (300 : Q) 12) = 12%nat
  /\ last (map fst ((6, 95%Z) :: (9, 70%Z) :: every_three)) 3 + 20 <= 400
  /\ open_segment_start
       (feed shipped 400 initial
          [(0, Some 125%Z); (3, Some 118%Z); (6, Some 95%Z)]) = Some 3
  /\ open_segment_start (feed shipped 400 initial synthetic_stream) = Some 333.
Proof.
  assert (Hlen : List.length (repeat (300 : Q) 12) = 12%nat) by reflexivity.
  assert (Hdur : last (map fst ((6, 95%Z) :: (9, 70%Z) :: every_three)) 3 + 20 <= 400)
    by (vm_compute; discriminate).
  destruct (synthetic_run 400 every_three (repeat 300 12) Hlen Hdur)
    as (_ & Hopen & _ & _ & _ & _ & _ & _ & Hsecond).
  split; [exact Hlen|]. split; [exact Hdur|]. split.
  - exact (proj1 (Hopen 1%nat)).
  - exact Hsecond.
Defined.

(** C2 as stated fails on its first point.  118 is already at most 120, so
    the segment opens on the second sample, at t=3; after the sample
    (6, 95) the open segment is the one started at 3, and the only START
    lines of the whole run are those of t=3 and t=333. *)
Lemma synthetic_opens_at_3 :
  open_segment_start (feed shipped 400 initial (firstn 2 synthetic_stream)) = Some 3
  /\ open_segment_start (feed shipped 400 initial (firstn 3 synthetic_stream)) = Some 3
  /\ open_segment_start (feed shipped 400 initial (firstn 3 synthetic_stream)) <> Some 6
  /\ segments (feed shipped 400 initial synthetic_stream) = [(3, 317)]
  /\ stdout (feed shipped 400 initial synthetic_stream)
     = [say_START 3 118; say_END 317 314; say_START 333 5].
Proof.
  repeat split; try (vm_compute; reflexivity). vm_compute. discriminate.
Qed.

(** ** Repair tiers *)

Section Repair.
Context `{Host}.

Lemma get_ffmpeg_state (s : St) : snd (get_ffmpeg s) = s.
Proof.
  unfold get_ffmpeg.
  destruct (os_getenv _ _) as [env|];
    [destruct (truthy env && path_exists env (world s))|];
    try reflexivity;
    destruct (shutil_which _ _) as [f|]; try reflexivity;
    destruct (truthy f); reflexivity.
Qed.

Lemma get_ffmpeg_eq (s : St) : get_ffmpeg s = (fst (get_ffmpeg s), s).
Proof. rewrite <- (get_ffmpeg_state s) at 3. apply surjective_pairing. Qed.
End Repair.

(** C6. [ensure_readable_video] has three tiers and runs each at most once.
    If the path opens, it is returned and nothing is spawned.  If not, and
    [ffmpeg] is found, exactly one remux is spawned; if it returns zero and
    its output opens, that output is returned and no re-encode is spawned.
    Otherwise exactly one re-encode is spawned after the remux; its output
    is returned if it returns zero and the output opens; if not, the
    function raises ([CalledProcessError] when the re-encode returned
    non-zero, [RuntimeError] when its output does not open) and nothing more
    is spawned.  Without [ffmpeg] the function raises before any repair. *)
Theorem repair_tiers `{Host} (path : string) (s : St) :
  let base := fst (os_path_splitext path) in
  let fixed := (base ++ "_fixed.mp4")%string in
  let reenc := (base ++ "_reenc.mp4")%string in
  let result := ensure_readable_video path s in
  (isOpened (VideoCapture path (world s)) = true -> result = (Ok path, s)) /\
  (isOpened (VideoCapture path (world s)) = false ->
   (forall e, fst (get_ffmpeg s) = Raise e -> result = (Raise e, s)) /\
   (forall ffmpeg, fst (get_ffmpeg s) = Ok ffmpeg ->
      let remux := Remux ffmpeg path fixed in
      let encode := Reencode ffmpeg path reenc in
      let w1 := snd (subprocess_run remux (world s)) in
      let w2 := snd (subprocess_run encode w1) in
      let remux_ok := (fst (subprocess_run remux (world s)) =? 0)%Z
                      && isOpened (VideoCapture fixed w1) in
      let encode_ok := (fst (subprocess_run encode w1) =? 0)%Z
                       && isOpened (VideoCapture reenc w2) in
      (remux_ok = true ->
         fst result = Ok fixed /\
         spawned (snd result) = spawned s ++ [remux] /\
         world (snd result) = w1) /\
      (remux_ok = false ->
         spawned (snd result) = spawned s ++ [remux; encode] /\
         world (snd result) = w2 /\
         (encode_ok = true -> fst result = Ok reenc) /\
         (encode_ok = false ->
          fst result
          = Raise (if (fst (subprocess_run encode w1) =? 0)%Z
                   then RuntimeError "Impossible d'ouvrir/reparer la video."
                   else CalledProcessError (fst (subprocess_run encode w1))))))).
Proof.
  intros base fixed reenc result. subst result.
  unfold ensure_readable_video, bind, open_video. fold base. fold fixed. fold reenc.
  split.
  - intros Hopen. rewrite Hopen. reflexivity.
  - intros Hclosed. rewrite Hclosed. rewrite (get_ffmpeg_eq s).
    split.
    + intros e He. simpl in He. rewrite He. reflexivity.
    + intros ffmpeg Hff. simpl in Hff. rewrite Hff.
      cbv zeta.
      set (remux := Remux ffmpeg path fixed). set (encode := Reencode ffmpeg path reenc).
      unfold attempt, run_checked, print, ret, raise. simpl.
      destruct (subprocess_run remux (world s)) as [code1 w1] eqn:E1. simpl.
      destruct (code1 =? 0)%Z; simpl.
      * destruct (isOpened (VideoCapture fixed w1)); simpl.
        -- split; [intros _; repeat split | discriminate].
        -- split; [discriminate | intros _].
           destruct (subprocess_run encode w1) as [code2 w2] eqn:E2. simpl.
           rewrite <- app_assoc. simpl.
           destruct (code2 =? 0)%Z; simpl.
           ++ destruct (isOpened (VideoCapture reenc w2)); simpl;
                repeat split; try discriminate; try reflexivity.
           ++ repeat split; try discriminate; try reflexivity.
      * split; [discriminate | intros _].
        destruct (subprocess_run encode w1) as [code2 w2] eqn:E2. simpl.
        rewrite <- app_assoc. simpl.
        destruct (code2 =? 0)%Z; simpl.
        -- destruct (isOpened (VideoCapture reenc w2)); simpl;
             repeat split; try discriminate; try reflexivity.
        -- repeat split; try discriminate; try reflexivity.
Qed.

Lemma repair_tiers_witness :
  isOpened (VideoCapture "vod.mp4" (world (start_of corrupt_world))) = false
  /\ fst (get_ffmpeg (start_of corrupt_world)) = Ok "ffmpeg"%string
  /\ fst (ensure_readable_video "vod.mp4" (start_of corrupt_world))
     = Ok "vod_fixed.mp4"%string
  /\ spawned (snd (ensure_readable_video "vod.mp4" (start_of corrupt_world)))
     = [Remux "ffmpeg" "vod.mp4" "vod_fixed.mp4"].
Proof.
  destruct (repair_tiers "vod.mp4" (start_of corrupt_world)) as [_ Hclosed].
  destruct (Hclosed eq_refl) as [_ Hfound].
  destruct (Hfound "ffmpeg"%string eq_refl) as [Hremux _].
  destruct (Hremux eq_refl) as (Hres & Hspawned & _).
  split; [reflexivity|]. split; [reflexivity|].
  split; [exact Hres | exact Hspawned].
Defined.

(** ** The cutting batch *)

Section Cutting.
Context `{Host}.
Variable ffmpeg input_path output_dir : string.
Variable reencode : bool.

Lemma cut_each_cons (seg : Segment) (rest : list Segment) (i : nat) (s : St) :
  cut_each ffmpeg input_path output_dir reencode i (seg :: rest) s
  = let cmd := cut_cmd ffmpeg input_path output_dir reencode i seg in
    let s' := {| world := snd (subprocess_run cmd (world s));
                 spawned := spawned s ++ [cmd];
                 printed := printed s ++ [say_cmd cmd] |} in
    if (fst (subprocess_run cmd (world s)) =? 0)%Z
    then cut_each ffmpeg input_path output_dir reencode (S i) rest s'
    else (Raise (CalledProcessError (fst (subprocess_run cmd (world s)))), s').
Proof.
  destruct seg as [start end_]. unfold cut_cmd. simpl.
  unfold bind, print, run_checked. simpl.
  destruct (subprocess_run _ (world s)) as [code w]. simpl.
  destruct (code =? 0)%Z; reflexivity.
Qed.

Lemma cut_each_all (segs : list Segment) : forall (i : nat) (s : St),
  all_succeed (cut_cmds ffmpeg input_path output_dir reencode i segs) (world s) ->
  cut_each ffmpeg input_path output_dir reencode i segs s
  = (Ok tt,
     {| world := world_after (cut_cmds ffmpeg input_path output_dir reencode i segs)
                   (world s);
        spawned := spawned s ++ cut_cmds ffmpeg input_path output_dir reencode i segs;
        printed := printed s
                   ++ map say_cmd
                        (cut_cmds ffmpeg input_path output_dir reencode i segs) |}).
Proof.
  induction segs as [|seg rest IH]; intros i s Hall.
  - simpl. unfold ret. rewrite !app_nil_r. destruct s; reflexivity.
  - rewrite cut_each_cons. cbv zeta. simpl in Hall. destruct Hall as [Hzero Hrest].
    rewrite Hzero. simpl Z.eqb. cbv iota. rewrite IH by exact Hrest.
    simpl. rewrite <- !app_assoc. reflexivity.
Qed.

Lemma cut_each_stops (done : list Segment) (failing : Segment) (rest : list Segment) :
  forall (i : nat) (s : St) (code : Z),
  let cmds := cut_cmds ffmpeg input_path output_dir reencode i done in
  let bad := cut_cmd ffmpeg input_path output_dir reencode (i + List.length done)
               failing in
  all_succeed cmds (world s) ->
  fst (subprocess_run bad (world_after cmds (world s))) = code -> code <> 0%Z ->
  cut_each ffmpeg input_path output_dir reencode i (done ++ failing :: rest) s
  = (Raise (CalledProcessError code),
     {| world := snd (subprocess_run bad (world_after cmds (world s)));
        spawned := spawned s ++ cmds ++ [bad];
        printed := printed s ++ map say_cmd (cmds ++ [bad]) |}).
Proof.
  induction done as [|seg done IH]; intros i s code cmds bad Hall Hcode Hnz;
    subst cmds bad.
  - simpl cut_cmds in *. simpl world_after in *. simpl List.length in *.
    rewrite Nat.add_0_r in *. simpl app. rewrite cut_each_cons. cbv zeta.
    rewrite Hcode. destruct (Z.eqb_spec code 0) as [Heq|_]; [contradiction|].
    reflexivity.
  - simpl in Hall. destruct Hall as [Hzero Hrest].
    simpl List.length in Hcode |- *. rewrite <- Nat.add_succ_comm in Hcode |- *.
    simpl app. rewrite cut_each_cons. cbv zeta.
    rewrite Hzero. simpl Z.eqb. cbv iota.
    rewrite (IH (S i) _ code); [|exact Hrest|exact Hcode|exact Hnz].
    simpl. rewrite <- !app_assoc. reflexivity.
Qed.
End Cutting.

Lemma cut_segments_all `{Host} (input_path output_dir : string) (reencode : bool)
    (s : St) (ffmpeg : string) (segs : list Segment) :
  let s1 := {| world := os_makedirs output_dir (world s); spawned := spawned s;
               printed := printed s |} in
  let cmds := cut_cmds ffmpeg input_path output_dir reencode 1 segs in
  fst (get_ffmpeg s1) = Ok ffmpeg ->
  all_succeed cmds (world s1) ->
  cut_segments input_path segs output_dir reencode s
  = (Ok tt, {| world := world_after cmds (world s1);
               spawned := spawned s ++ cmds;
               printed := printed s ++ map say_cmd cmds
                          ++ [say_written (List.length segs) output_dir] |}).
Proof.
  intros s1 cmds Hff Hall. unfold cut_segments, bind. fold s1.
  rewrite (get_ffmpeg_eq s1), Hff.
  rewrite (cut_each_all ffmpeg input_path output_dir reencode segs 1 s1 Hall).
  unfold print. simpl. rewrite <- app_assoc. reflexivity.
Qed.

(** C3 (amended). [cut_segments] spawns the transcoder once per segment, in
    the order of the list.  If the invocations for the segments [done] all
    return zero and the one for the next segment returns [code <> 0], then
    [cut_segments] raises [CalledProcessError code] there and then: the
    commands spawned are those of [done] and the failing one, none of the
    segments after it is attempted, and nothing is printed but the echo of
    the commands that were spawned. *)
Theorem cut_segments_stops_at_first_failure `{Host}
    (input_path output_dir : string) (reencode : bool) (s : St) (ffmpeg : string)
    (done : list Segment) (failing : Segment) (rest : list Segment) (code : Z) :
  let s1 := {| world := os_makedirs output_dir (world s); spawned := spawned s;
               printed := printed s |} in
  let cmds := cut_cmds ffmpeg input_path output_dir reencode 1 done in
  let bad := cut_cmd ffmpeg input_path output_dir reencode (S (List.length done))
               failing in
  let result :=
    cut_segments input_path (done ++ failing :: rest) output_dir reencode s in
  fst (get_ffmpeg s1) = Ok ffmpeg ->
  all_succeed cmds (world s1) ->
  fst (subprocess_run bad (world_after cmds (world s1))) = code ->
  code <> 0%Z ->
  fst result = Raise (CalledProcessError code) /\
  spawned (snd result) = spawned s ++ cmds ++ [bad] /\
  printed (snd result) = printed s ++ map say_cmd (cmds ++ [bad]).
Proof.
  intros s1 cmds bad result Hff Hall Hcode Hnz. subst result.
  unfold cut_segments, bind. fold s1. rewrite (get_ffmpeg_eq s1), Hff.
  rewrite (cut_each_stops ffmpeg input_path output_dir reencode done failing rest
             1 s1 code Hall Hcode Hnz).
  repeat split.
Qed.

Lemma cut_segments_stops_at_first_failure_witness :
  fst (get_ffmpeg (start_of first_cut_fails)) = Ok "ffmpeg"%string
  /\ fst (subprocess_run (CutCopy "ffmpeg" 0 10 "vod.mp4" "out/Game_01.mp4")
            first_cut_fails) = 1%Z
  /\ spawned (snd (cut_segments "vod.mp4" [(0, 10); (20, 30)] "out" false
                     (start_of first_cut_fails)))
     = [CutCopy "ffmpeg" 0 10 "vod.mp4" "out/Game_01.mp4"].
Proof.
  split; [reflexivity|]. split; [reflexivity|].
  destruct (cut_segments_stops_at_first_failure "vod.mp4" "out" false
              (start_of first_cut_fails) "ffmpeg" [] (0, 10) [(20, 30)] 1%Z
              eq_refl I eq_refl ltac:(discriminate)) as (_ & Hspawned & _).
  exact Hspawned.
Defined.

(** C3 as stated fails.  With two segments and a transcoder that fails on
    the first, [cut_segments] raises at the first: the cut of the second
    segment is never spawned, and nothing is reported after the batch. *)
Lemma second_cut_not_attempted :
  cut_segments "vod.mp4" [(0, 10); (20, 30)] "out" false (start_of first_cut_fails)
  = (Raise (CalledProcessError 1),
     {| world := first_cut_fails;
        spawned := [CutCopy "ffmpeg" 0 10 "vod.mp4" "out/Game_01.mp4"];
        printed := [say_cmd (CutCopy "ffmpeg" 0 10 "vod.mp4" "out/Game_01.mp4")] |})
  /\ fst (subprocess_run (CutCopy "ffmpeg" 20 30 "vod.mp4" "out/Game_02.mp4")
            first_cut_fails) = 0%Z
  /\ ~ In (CutCopy "ffmpeg" 20 30 "vod.mp4" "out/Game_02.mp4")
         (spawned (snd (cut_segments "vod.mp4" [(0, 10); (20, 30)] "out" false
                          (start_of first_cut_fails)))).
Proof.
  split; [reflexivity|]. split; [reflexivity|].
  intros [Heq|[]]. discriminate Heq.
Qed.

(** ** Exit status *)

(** C4 (amended). With at least two arguments on the command line: if
    [ensure_readable_video] raises, the process exits with status 1; if
    the video is readable and detection returns no segment, the script
    prints its "no game detected" line, spawns no transcoder, does not touch
    the output directory, and exits with status 0. *)
Theorem script_exit_status `{Host} (cfg : Config)
    (prog input_video output_dir : string) (more : list string) (s : St) :
  let argv := prog :: input_video :: output_dir :: more in
  (forall e s', ensure_readable_video input_video s = (Raise e, s') ->
     script cfg argv s = (1%Z, s')) /\
  (forall good_path s1,
     ensure_readable_video input_video s = (Ok good_path, s1) ->
     detect_segments cfg (VideoCapture good_path (world s1)) = Ok [] ->
     fst (script cfg argv s) = 0%Z /\
     spawned (snd (script cfg argv s)) = spawned s1 /\
     world (snd (script cfg argv s)) = world s1 /\
     printed (snd (script cfg argv s))
     = printed s1 ++ [say_analyse good_path]
       ++ stdout (analyse cfg (VideoCapture good_path (world s1)))
       ++ [say_none_detected]).
Proof.
  intros argv. subst argv. split.
  - intros e s' Hraise. unfold script, main. unfold bind at 1.
    rewrite Hraise. reflexivity.
  - intros good_path s1 Hok Hnone.
    assert (Hrun : script cfg (prog :: input_video :: output_dir :: more) s
      = (0%Z, {| world := world s1; spawned := spawned s1;
                 printed := ((printed s1 ++ [say_analyse good_path])
                             ++ stdout (analyse cfg (VideoCapture good_path (world s1))))
                            ++ [say_none_detected] |})).
    { unfold script, main. unfold bind at 1. rewrite Hok.
      unfold detect_segments_in. unfold bind, print, prints, open_video, ret.
      cbn [world spawned printed]. rewrite Hnone. reflexivity. }
    rewrite Hrun. cbn [fst snd world spawned printed].
    rewrite <- !app_assoc. repeat split.
Qed.

Lemma script_exit_status_witness :
  ensure_readable_video "vod.mp4" (start_of empty_video_world)
  = (Ok "vod.mp4"%string, start_of empty_video_world)
  /\ detect_segments shipped (VideoCapture "vod.mp4" empty_video_world) = Ok []
  /\ fst (script shipped ["split_lol_games.py"; "vod.mp4"; "out"]%string
            (start_of empty_video_world)) = 0%Z
  /\ spawned (snd (script shipped ["split_lol_games.py"; "vod.mp4"; "out"]%string
                     (start_of empty_video_world))) = [].
Proof.
  split; [reflexivity|]. split; [reflexivity|].
  destruct (script_exit_status shipped "split_lol_games.py" "vod.mp4" "out" []
              (start_of empty_video_world)) as [_ Hnone].
  destruct (Hnone "vod.mp4"%string (start_of empty_video_world) eq_refl eq_refl)
    as (Hstatus & Hspawned & _).
  split; [exact Hstatus | exact Hspawned].
Defined.

(** C4 as stated fails on its second point.  On a video that opens and has
    no frame, detection returns the empty list and the process ends
    normally, with exit status 0. *)
Lemma zero_segments_exit_0 :
  detect_segments shipped (VideoCapture "vod.mp4" empty_video_world) = Ok []
  /\ script shipped ["split_lol_games.py"; "vod.mp4"; "out"]%string
       (start_of empty_video_world)
     = (0%Z, {| world := empty_video_world; spawned := [];
                printed := [say_analyse "vod.mp4"; say_none_detected] |}).
Proof. split; reflexivity. Qed.


(** * Further properties of the code *)

(** ** What every emitted segment is made of *)

Lemma low_reading_more (cfg : Config) (l : list Sample) (s : Sample) (t : Q) :
  low_reading cfg l t -> low_reading cfg (l ++ [s]) t.
Proof.
  intros (c & Hin & Hc). exists c. split; [|exact Hc].
  apply in_or_app. left. exact Hin.
Qed.

Lemma Grounded_feed (cfg : Config) (duration : Q) (l : list Sample) :
  Grounded cfg duration l (feed cfg duration initial l).
Proof.
  induction l as [|[t c] l IH] using rev_ind.
  - constructor; simpl; try (intros; discriminate); constructor.
  - rewrite feed_snoc. simpl fst; simpl snd.
    set (m := feed cfg duration initial l) in *.
    destruct IH as [Hst Ho He Hl Hg].
    assert (Hst' : Forall (fun s : Segment => low_reading cfg (l ++ [(t, c)]) (fst s))
                     (segments m)).
    { eapply Forall_weaken; [exact Hst|]. intros a. apply low_reading_more. }
    unfold process_sample, try_close, try_open, observe.
    destruct c as [c|]; destruct (open_segment_start m) as [start|] eqn:Eo; simpl.
    + destruct (Ho start eq_refl) as (Hlow & Hlast & Hfar).
      destruct (CLOCK_MISSING_LIMIT cfg <=? 0)%Z; simpl.
      * pose proof (Q.le_min_r (t + TAIL_AFTER_CLOCK_MISS cfg) duration) as Hmin.
        constructor; simpl; try discriminate; try intros Hgap;
          destruct (Qle_bool _ _); auto.
        -- apply Forall_snoc; [assumption|]. simpl. now apply low_reading_more.
        -- apply Forall_snoc; assumption.
        -- apply Forall_snoc; [auto|]. simpl. rewrite Hlast. apply Qle_refl.
        -- apply StronglySorted_snoc; auto.
      * constructor; simpl; auto.
        intros s' [= <-]. repeat split; auto. now apply low_reading_more.
    + destruct (Z.leb_spec c (START_THRESHOLD_SEC cfg)) as [Hlow|_]; simpl;
        [destruct (Qle_bool (MIN_GAP_BETWEEN_GAMES cfg) (t - last_start_time m))
           eqn:Eg; simpl|].
      * apply Qle_bool_iff in Eg.
        assert (Hnow : low_reading cfg (l ++ [(t, Some c)]) t).
        { exists c. split; [|exact Hlow]. apply in_or_app. right. now left. }
        assert (Hfar : 0 <= MIN_GAP_BETWEEN_GAMES cfg ->
                       Forall (fun s : Segment => fst s + MIN_GAP_BETWEEN_GAMES cfg <= t)
                         (segments m)).
        { intros Hgap. eapply Forall_weaken; [exact (Hl Hgap)|]. simpl. intros a Ha. lra. }
        assert (Hl' : 0 <= MIN_GAP_BETWEEN_GAMES cfg ->
                      Forall (fun s : Segment => fst s <= t) (segments m)).
        { intros Hgap. eapply Forall_weaken; [exact (Hl Hgap)|]. simpl. intros a Ha. lra. }
        destruct (CLOCK_MISSING_LIMIT cfg <=? 0)%Z; simpl.
        -- pose proof (Q.le_min_r (t + TAIL_AFTER_CLOCK_MISS cfg) duration) as Hmin.
           constructor; simpl; try discriminate; try intros Hgap;
             destruct (Qle_bool _ _); auto.
           ++ apply Forall_snoc; assumption.
           ++ apply Forall_snoc; assumption.
           ++ apply Forall_snoc; [auto|]. simpl. apply Qle_refl.
           ++ apply StronglySorted_snoc; auto.
        -- constructor; simpl; auto.
           intros s' [= <-]. repeat split; auto.
      * constructor; simpl; auto. discriminate.
      * constructor; simpl; auto. discriminate.
    + destruct (Ho start eq_refl) as (Hlow & Hlast & Hfar).
      destruct (CLOCK_MISSING_LIMIT cfg <=? clock_missing_count m + 1)%Z; simpl.
      * destruct (last_clock_seen_time m) as [seen|] eqn:Es; simpl.
        -- pose proof (Q.le_min_r (seen + TAIL_AFTER_CLOCK_MISS cfg) duration) as Hmin.
           constructor; simpl; try discriminate; try intros Hgap;
             destruct (Qle_bool _ _); auto.
           ++ apply Forall_snoc; [assumption|]. simpl. now apply low_reading_more.
           ++ apply Forall_snoc; assumption.
           ++ apply Forall_snoc; [auto|]. simpl. rewrite Hlast. apply Qle_refl.
           ++ apply StronglySorted_snoc; auto.
        -- constructor; simpl; auto.
           intros s' [= <-]. repeat split; auto. now apply low_reading_more.
      * constructor; simpl; auto.
        intros s' [= <-]. repeat split; auto. now apply low_reading_more.
    + constructor; simpl; auto. discriminate.
Qed.

Lemma Grounded_at_eof (cfg : Config) (duration : Q) (l : list Sample) (m : Machine) :
  Grounded cfg duration l m ->
  let segs := segments (at_eof cfg duration m) in
  Forall (fun s => low_reading cfg l (fst s)) segs /\
  Forall (fun s => snd s <= duration) segs /\
  (0 <= MIN_GAP_BETWEEN_GAMES cfg ->
   StronglySorted (fun a b => fst a + MIN_GAP_BETWEEN_GAMES cfg <= fst b) segs).
Proof.
  intros [Hst Ho He Hl Hg]. unfold at_eof.
  destruct (open_segment_start m) as [start|] eqn:Eo; simpl; [|auto].
  destruct (Ho start eq_refl) as (Hlow & _ & Hfar).
  destruct (Qle_bool _ _); [|auto]. repeat split.
  - apply Forall_snoc; assumption.
  - apply Forall_snoc; [assumption|]. simpl. apply Qle_refl.
  - intros Hgap. apply StronglySorted_snoc; auto.
Qed.

Lemma Grounded_analyse `{Vision} (cfg : Config) (cap : Capture) :
  let segs := segments (analyse cfg cap) in
  Forall (fun s => low_reading cfg (the_samples cfg cap) (fst s)) segs /\
  Forall (fun s => snd s <= the_duration cap) segs /\
  (0 <= MIN_GAP_BETWEEN_GAMES cfg ->
   StronglySorted (fun a b => fst a + MIN_GAP_BETWEEN_GAMES cfg <= fst b) segs).
Proof.
  rewrite analyse_feed. apply Grounded_at_eof, Grounded_feed.
Qed.

Lemma detect_segments_Ok `{Vision} (cfg : Config) (cap : Capture) (segs : list Segment) :
  detect_segments cfg cap = Ok segs -> segs = segments (analyse cfg cap).
Proof.
  unfold detect_segments. destruct (isOpened cap); [|discriminate].
  intros [= <-]. reflexivity.
Qed.

(** X1. Every segment that [detect_segments] returns starts on a sampled
    frame where the clock was read and showed [START_THRESHOLD_SEC] or
    less; a video without such a sample yields no segment at all. *)
Theorem segments_start_on_low_readings `{Vision} (cfg : Config) (cap : Capture)
    (segs : list Segment) :
  detect_segments cfg cap = Ok segs ->
  Forall (fun s => low_reading cfg (the_samples cfg cap) (fst s)) segs /\
  ((forall t c, In (t, Some c) (the_samples cfg cap) ->
                (START_THRESHOLD_SEC cfg < c)%Z) ->
   segs = []).
Proof.
  intros Hok. apply detect_segments_Ok in Hok. subst segs.
  destruct (Grounded_analyse cfg cap) as (Hlow & _ & _).
  split; [exact Hlow|].
  intros Hhigh. destruct (segments (analyse cfg cap)) as [|s rest]; [reflexivity|].
  inversion Hlow as [|? ? (c & Hin & Hc) _]; subst.
  specialize (Hhigh _ _ Hin). lia.
Qed.

Lemma segments_start_on_low_readings_witness :
  detect_segments shipped plain_recording = Ok [(0, 317)]
  /\ low_reading shipped (the_samples shipped plain_recording) 0.
Proof.
  assert (Hok : detect_segments shipped plain_recording = Ok [(0, 317)])
    by (vm_compute; reflexivity).
  split; [exact Hok|].
  destruct (segments_start_on_low_readings shipped plain_recording _ Hok) as [Hlow _].
  inversion Hlow; subst. assumption.
Defined.

(** X2. No segment returned by [detect_segments] ends after the duration
    computed from the container metadata, and, the frame rate not being
    negative, none starts before zero. *)
Theorem segments_within_video `{Vision} (cfg : Config) (cap : Capture)
    (segs : list Segment) :
  detect_segments cfg cap = Ok segs ->
  Forall (fun s => snd s <= the_duration cap) segs /\
  (0 <= CAP_PROP_FPS cap -> Forall (fun s => 0 <= fst s) segs).
Proof.
  intros Hok. apply detect_segments_Ok in Hok. subst segs.
  destruct (Grounded_analyse cfg cap) as (Hlow & Hends & _).
  split; [exact Hends|]. intros Hfps.
  eapply Forall_weaken; [exact Hlow|]. simpl. intros s (c & Hin & _).
  pose proof (samples_times cfg (the_fps cap) (the_step cfg cap) (stream cap) 0%Z)
    as Htimes.
  rewrite Forall_forall in Htimes. destruct (Htimes _ Hin) as (k & Hk & Ht).
  simpl in Ht. rewrite Ht.
  pose proof (time_mono (the_fps cap) (the_fps_pos cap Hfps) 0 k Hk) as Hmono.
  unfold Qdiv in Hmono at 1. rewrite Qmult_0_l in Hmono. exact Hmono.
Qed.

Lemma segments_within_video_witness :
  detect_segments shipped slow_recording = Ok [(0 # 5, 604 # 5); (592 # 5, 1280 # 5)]
  /\ Forall (fun s : Segment => snd s <= the_duration slow_recording)
       [(0 # 5, 604 # 5); (592 # 5, 1280 # 5)].
Proof.
  assert (Hok : detect_segments shipped slow_recording
                = Ok [(0 # 5, 604 # 5); (592 # 5, 1280 # 5)])
    by (vm_compute; reflexivity).
  split; [exact Hok|].
  exact (proj1 (segments_within_video shipped slow_recording _ Hok)).
Defined.

(** X3. When [MIN_GAP_BETWEEN_GAMES] is not negative, the starts of any two
    segments returned by [detect_segments] are at least that far apart,
    segments dropped for being too short included in the count of starts. *)
Theorem segment_starts_min_gap_apart `{Vision} (cfg : Config) (cap : Capture)
    (segs : list Segment) :
  detect_segments cfg cap = Ok segs ->
  0 <= MIN_GAP_BETWEEN_GAMES cfg ->
  StronglySorted (fun a b => fst a + MIN_GAP_BETWEEN_GAMES cfg <= fst b) segs.
Proof.
  intros Hok Hgap. apply detect_segments_Ok in Hok. subst segs.
  destruct (Grounded_analyse cfg cap) as (_ & _ & Hgaps). auto.
Qed.

Lemma segment_starts_min_gap_apart_witness :
  detect_segments shipped slow_recording = Ok [(0 # 5, 604 # 5); (592 # 5, 1280 # 5)]
  /\ 0 <= MIN_GAP_BETWEEN_GAMES shipped
  /\ (0 # 5) + 90 <= 592 # 5.
Proof.
  assert (Hok : detect_segments shipped slow_recording
                = Ok [(0 # 5, 604 # 5); (592 # 5, 1280 # 5)])
    by (vm_compute; reflexivity).
  assert (Hgap : 0 <= MIN_GAP_BETWEEN_GAMES shipped) by (simpl; lra).
  split; [exact Hok|]. split; [exact Hgap|].
  pose proof (segment_starts_min_gap_apart shipped slow_recording _ Hok Hgap) as Hs.
  inversion Hs as [|? ? _ Hall]; subst. inversion Hall; subst. assumption.
Defined.

(** ** A frame that cannot be decoded *)

Lemma samples_stop `{Vision} (cfg : Config) (fps : Q) (step : Z)
    (pre post : list (option Frame)) : forall frame_idx : Z,
  ((frame_idx + Z.of_nat (List.length pre)) mod step = 0)%Z ->
  samples cfg fps step (pre ++ None :: post) frame_idx
  = samples cfg fps step pre frame_idx.
Proof.
  induction pre as [|f pre IH]; intros frame_idx Hmod; simpl.
  - simpl in Hmod. rewrite Z.add_0_r in Hmod. rewrite Hmod. reflexivity.
  - assert (Hnext : ((frame_idx + 1 + Z.of_nat (List.length pre)) mod step = 0)%Z).
    { rewrite <- Hmod. f_equal. simpl List.length. lia. }
    destruct (negb _); [now apply IH|].
    destruct f as [frame|]; [|reflexivity]. f_equal. now apply IH.
Qed.

(** X4. The scan stops at the first sampled frame that [retrieve()] cannot
    decode: whatever follows it in the stream has no effect, and the result
    is the one of the stream cut just before that frame (the segment open at
    that point, if any, being closed at the duration of the metadata). *)
Theorem undecodable_frame_ends_scan `{Vision} (cfg : Config) (cap : Capture)
    (pre post : list (option Frame)) :
  stream cap = pre ++ None :: post ->
  (Z.of_nat (List.length pre) mod the_step cfg cap = 0)%Z ->
  detect_segments cfg cap = detect_segments cfg (with_stream cap pre).
Proof.
  intros Hstream Hmod.
  assert (Hs : the_samples cfg cap = the_samples cfg (with_stream cap pre)).
  { unfold the_samples. rewrite Hstream. simpl.
    change (the_fps (with_stream cap pre)) with (the_fps cap).
    change (the_step cfg (with_stream cap pre)) with (the_step cfg cap).
    apply samples_stop. exact Hmod. }
  unfold detect_segments. simpl isOpened.
  rewrite !analyse_feed, Hs. reflexivity.
Qed.

Lemma undecodable_frame_ends_scan_witness :
  stream broken_recording
  = (showing 0 :: repeat (showing 200) 14) ++ None :: repeat (showing 5) 300
  /\ (Z.of_nat (List.length (showing 0 :: repeat (showing 200) 14))
      mod the_step shipped broken_recording = 0)%Z
  /\ detect_segments shipped broken_recording = Ok [(0, 400)].
Proof.
  split; [reflexivity|]. split; [reflexivity|].
  rewrite (undecodable_frame_ends_scan shipped broken_recording
             (showing 0 :: repeat (showing 200) 14) (repeat (showing 5) 300)
             eq_refl eq_refl).
  vm_compute. reflexivity.
Defined.

(** ** Locating ffmpeg *)

(** X5. [get_ffmpeg] changes nothing.  A path it returns is never the empty
    string and is either the value of FFMPEG_BIN, which then exists, or what
    the PATH lookup finds; in particular a FFMPEG_BIN that names a missing
    file is passed over in favour of the PATH.  The only exception it raises
    is [FileNotFoundError], and only when the PATH lookup finds nothing. *)
Theorem get_ffmpeg_result `{Host} (s : St) :
  snd (get_ffmpeg s) = s /\
  (forall p, fst (get_ffmpeg s) = Ok p ->
     p <> EmptyString /\
     ((os_getenv "FFMPEG_BIN" (world s) = Some p /\ path_exists p (world s) = true)
      \/ shutil_which "ffmpeg" (world s) = Some p)) /\
  (forall e, fst (get_ffmpeg s) = Raise e ->
     e = FileNotFoundError "ffmpeg introuvable" /\
     (shutil_which "ffmpeg" (world s) = None
      \/ shutil_which "ffmpeg" (world s) = Some EmptyString)).
Proof.
  split; [apply get_ffmpeg_state|].
  assert (Htruthy : forall p, truthy p = true -> p <> EmptyString).
  { intros p Hp ->. discriminate Hp. }
  assert (Hfalsy : forall p, truthy p = false -> p = EmptyString).
  { intros p Hp. unfold truthy in Hp. apply negb_false_iff in Hp.
    now apply String.eqb_eq in Hp. }
  unfold get_ffmpeg.
  destruct (os_getenv "FFMPEG_BIN" (world s)) as [env|] eqn:Eenv;
    [destruct (truthy env) eqn:Et; [destruct (path_exists env (world s)) eqn:Ex|]|];
    simpl.
  1: { split; [|discriminate]. intros p [= <-]. split; [now apply Htruthy|].
       left. split; [reflexivity | assumption]. }
  all: destruct (shutil_which "ffmpeg" (world s)) as [f|] eqn:Ew;
    [destruct (truthy f) eqn:Ef|]; simpl; split;
    try discriminate.
  all: try (intros p [= <-]; split; [now apply Htruthy | right; reflexivity]).
  all: intros e [= <-]; split; [reflexivity|].
  all: first [left; reflexivity | right; f_equal; now apply Hfalsy].
Qed.

(** ** What the repair returns, and what [main] does with it *)

Lemma get_ffmpeg_world `{Host} (s s' : St) :
  world s = world s' -> fst (get_ffmpeg s) = fst (get_ffmpeg s').
Proof. intros Hw. unfold get_ffmpeg. rewrite Hw.
  destruct (os_getenv _ _) as [env|];
    [destruct (truthy env && path_exists env (world s'))|];
    try reflexivity;
    destruct (shutil_which _ _) as [f|]; try reflexivity;
    destruct (truthy f); reflexivity.
Qed.

(** X6. A path returned by [ensure_readable_video] opens in the world the
    function leaves behind, and is the input path itself (nothing having
    been run), or the remuxed file, or the re-encoded file. *)
Theorem ensure_readable_video_returns_openable `{Host} (path p : string) (s s' : St) :
  ensure_readable_video path s = (Ok p, s') ->
  isOpened (VideoCapture p (world s')) = true /\
  ((p = path /\ s' = s)
   \/ p = (fst (os_path_splitext path) ++ "_fixed.mp4")%string
   \/ p = (fst (os_path_splitext path) ++ "_reenc.mp4")%string).
Proof.
  unfold ensure_readable_video, bind, open_video.
  destruct (isOpened (VideoCapture path (world s))) eqn:Eopen.
  - intros [= <- <-]. split; [exact Eopen | left; split; reflexivity].
  - rewrite (get_ffmpeg_eq s). destruct (fst (get_ffmpeg s)) as [ffmpeg|e];
      [|discriminate].
    unfold attempt, run_checked, print, ret, raise. simpl.
    set (fixed := (fst (os_path_splitext path) ++ "_fixed.mp4")%string).
    set (reenc := (fst (os_path_splitext path) ++ "_reenc.mp4")%string).
    destruct (subprocess_run (Remux ffmpeg path fixed) (world s)) as [code1 w1].
    simpl.
    destruct (code1 =? 0)%Z; simpl.
    + destruct (isOpened (VideoCapture fixed w1)) eqn:E2; simpl.
      * intros [= <- <-]. split; [exact E2 | right; left; reflexivity].
      * destruct (subprocess_run (Reencode ffmpeg path reenc) w1) as [code2 w2].
        simpl. destruct (code2 =? 0)%Z; simpl; [|discriminate].
        destruct (isOpened (VideoCapture reenc w2)) eqn:E3; simpl; [|discriminate].
        intros [= <- <-]. split; [exact E3 | right; right; reflexivity].
    + destruct (subprocess_run (Reencode ffmpeg path reenc) w1) as [code2 w2].
      simpl. destruct (code2 =? 0)%Z; simpl; [|discriminate].
      destruct (isOpened (VideoCapture reenc w2)) eqn:E3; simpl; [|discriminate].
      intros [= <- <-]. split; [exact E3 | right; right; reflexivity].
Qed.

Lemma ensure_readable_video_returns_openable_witness :
  ensure_readable_video "vod.mp4" (start_of corrupt_world)
  = (Ok "vod_fixed.mp4"%string,
     snd (ensure_readable_video "vod.mp4" (start_of corrupt_world)))
  /\ isOpened (VideoCapture "vod.mp4" (world (start_of corrupt_world))) = false
  /\ isOpened
       (VideoCapture "vod_fixed.mp4"
          (world (snd (ensure_readable_video "vod.mp4" (start_of corrupt_world)))))
     = true.
Proof.
  assert (Hrun : ensure_readable_video "vod.mp4" (start_of corrupt_world)
    = (Ok "vod_fixed.mp4"%string,
       snd (ensure_readable_video "vod.mp4" (start_of corrupt_world))))
    by reflexivity.
  split; [exact Hrun|]. split; [reflexivity|].
  exact (proj1 (ensure_readable_video_returns_openable _ _ _ _ Hrun)).
Defined.

(** X7. A complete run of the script.  If the video is readable (as it is
    or after repair), detection finds at least one segment, [ffmpeg] is
    found and every cut returns zero, then the process exits with status 0
    having spawned, after whatever the repair spawned, exactly one cut per
    detected segment, in order, each reading from the path the repair
    returned and writing the file of its ordinal; the list of games is
    printed before the first cut is echoed. *)
Theorem script_cuts_every_segment `{Host} (cfg : Config)
    (prog input_video output_dir : string) (more : list string) (s s1 : St)
    (good_path ffmpeg : string) (seg : Segment) (segs : list Segment) :
  let argv := prog :: input_video :: output_dir :: more in
  let reencode := existsb (String.eqb "--reencode") argv in
  let cap := VideoCapture good_path (world s1) in
  let cmds := cut_cmds ffmpeg good_path output_dir reencode 1 (seg :: segs) in
  let w2 := os_makedirs output_dir (world s1) in
  ensure_readable_video input_video s = (Ok good_path, s1) ->
  segments (analyse cfg cap) = seg :: segs ->
  fst (get_ffmpeg {| world := w2; spawned := spawned s1; printed := printed s1 |})
  = Ok ffmpeg ->
  all_succeed cmds w2 ->
  script cfg argv s
  = (0%Z,
     {| world := world_after cmds w2;
        spawned := spawned s1 ++ cmds;
        printed := printed s1 ++ [say_analyse good_path]
                   ++ stdout (analyse cfg cap)
                   ++ [say_found (List.length (seg :: segs))]
                   ++ game_lines 1 (seg :: segs)
                   ++ map say_cmd cmds
                   ++ [say_written (List.length (seg :: segs)) output_dir] |}).
Proof.
  intros argv reencode cap cmds w2 Hok Hsegs Hff Hall.
  destruct (ensure_readable_video_returns_openable _ _ _ _ Hok) as [Hopen _].
  assert (Hdetect : detect_segments cfg cap = Ok (seg :: segs)).
  { unfold detect_segments. fold cap in Hopen. rewrite Hopen, Hsegs. reflexivity. }
  unfold script, main. subst argv. unfold bind at 1. rewrite Hok.
  unfold detect_segments_in. unfold bind at 1 2. unfold print at 1.
  unfold bind at 1. unfold open_video. cbn [world spawned printed].
  fold cap. rewrite Hdetect. unfold bind at 1. unfold prints at 1. unfold ret.
  cbn [world spawned printed].
  unfold bind at 1 2. unfold print at 1. unfold prints at 1.
  cbn [world spawned printed].
  fold reencode.
  match goal with
  | |- context [cut_segments good_path (seg :: segs) output_dir reencode ?st] =>
      pose proof (cut_segments_all good_path output_dir reencode st ffmpeg
                    (seg :: segs)) as Hcut
  end.
  cbn [world spawned printed] in Hcut. fold w2 in Hcut. fold cmds in Hcut.
  rewrite Hcut; [| |exact Hall].
  - rewrite <- !app_assoc. reflexivity.
  - rewrite <- Hff. apply get_ffmpeg_world. reflexivity.
Qed.

Lemma script_cuts_every_segment_witness :
  ensure_readable_video "vod.mp4" (start_of repairable_world)
  = (Ok "vod_fixed.mp4"%string,
     snd (ensure_readable_video "vod.mp4" (start_of repairable_world)))
  /\ fst (script shipped ["split_lol_games.py"; "vod.mp4"; "out"]%string
            (start_of repairable_world)) = 0%Z
  /\ spawned (snd (script shipped ["split_lol_games.py"; "vod.mp4"; "out"]%string
                     (start_of repairable_world)))
     = [Remux "ffmpeg" "vod.mp4" "vod_fixed.mp4";
        CutCopy "ffmpeg" 0 317 "vod_fixed.mp4" "out/Game_01.mp4"].
Proof.
  assert (Hok : ensure_readable_video "vod.mp4" (start_of repairable_world)
    = (Ok "vod_fixed.mp4"%string,
       snd (ensure_readable_video "vod.mp4" (start_of repairable_world))))
    by reflexivity.
  split; [exact Hok|].
  assert (Hsegs : segments (analyse shipped
                    (VideoCapture "vod_fixed.mp4"
                       (world (snd (ensure_readable_video "vod.mp4"
                                      (start_of repairable_world))))))
                  = [(0, 317)]) by (vm_compute; reflexivity).
  rewrite (script_cuts_every_segment shipped "split_lol_games.py" "vod.mp4" "out" []
             (start_of repairable_world) _ "vod_fixed.mp4" "ffmpeg" (0, 317) []
             Hok Hsegs eq_refl (conj eq_refl I)).
  split; reflexivity.
Defined.

(** ** Timestamps as text *)

Lemma int_below_one (q : Q) : q < 1 -> (int q <= 0)%Z.
Proof.
  destruct q as [n d]. unfold int, Qlt; simpl. intros Hlt.
  rewrite Z.mul_1_r in Hlt.
  destruct (Z.le_gt_cases 0 n) as [Hn|Hn].
  - rewrite Z.quot_small by lia. lia.
  - apply Z.quot_le_upper_bound; lia.
Qed.

(** X8. [ts_format] prints the whole seconds of its argument, anything
    negative counting as zero: hours, minutes and seconds, each in decimal
    padded to two digits, minutes and seconds below 60, and together worth
    exactly that number of seconds.  Anything under one second prints
    00:00:00.  It raises [OverflowError] exactly from 86400000000000 seconds
    on. *)
Theorem ts_format_fields (seconds : Q) :
  let total := Z.max 0 (int seconds) in
  ((total < 86400000000000)%Z ->
   exists h m s : Z,
     ts_format seconds = Some (pad2 h ++ ":" ++ pad2 m ++ ":" ++ pad2 s)%string /\
     (0 <= h)%Z /\ (0 <= m < 60)%Z /\ (0 <= s < 60)%Z /\
     (h * 3600 + m * 60 + s = total)%Z) /\
  (seconds < 1 -> ts_format seconds = Some "00:00:00"%string) /\
  ((86400000000000 <= total)%Z -> ts_format seconds = None).
Proof.
  intros total. unfold ts_format. fold total.
  assert (Htot : (0 <= total)%Z) by (subst total; lia).
  split; [|split].
  - intros Hsmall.
    destruct (Z.ltb_spec 999999999 (total / 86400)) as [Hbig|_].
    { assert (total / 86400 <= 86399999999999 / 86400)%Z
        by (apply Z.div_le_mono; lia).
      change (86399999999999 / 86400)%Z with 999999999%Z in *. lia. }
    exists (total / 3600)%Z, ((total mod 3600) / 60)%Z, (total mod 60)%Z.
    split; [reflexivity|].
    pose proof (Z.div_mod total 3600 ltac:(lia)) as H1.
    pose proof (Z.mod_pos_bound total 3600 ltac:(lia)) as H2.
    pose proof (Z.div_mod (total mod 3600) 60 ltac:(lia)) as H3.
    pose proof (Z.mod_pos_bound (total mod 3600) 60 ltac:(lia)) as H4.
    pose proof (Z.mod_pos_bound total 60 ltac:(lia)) as H5.
    assert (H6 : ((total mod 3600) mod 60 = total mod 60)%Z).
    { apply Z.mod_mod_divide. exists 60%Z. reflexivity. }
    assert (0 <= total / 3600)%Z by (apply Z.div_pos; lia).
    assert (0 <= total mod 3600 / 60 < 60)%Z.
    { split; [apply Z.div_pos; lia | apply Z.div_lt_upper_bound; lia]. }
    repeat split; try lia.
  - intros Hlt. apply int_below_one in Hlt.
    replace total with 0%Z by (subst total; lia). reflexivity.
  - intros Hbig.
    destruct (Z.ltb_spec 999999999 (total / 86400)) as [_|Hle]; [reflexivity|].
    assert (86400000000000 / 86400 <= total / 86400)%Z
      by (apply Z.div_le_mono; lia).
    change (86400000000000 / 86400)%Z with 1000000000%Z in *. lia.
Qed.

Lemma ts_format_fields_witness :
  (Z.max 0 (int (32657 # 10)) < 86400000000000)%Z
  /\ ts_format (32657 # 10) = Some "00:54:25"%string
  /\ exists h m s : Z,
       ts_format (32657 # 10)
       = Some (pad2 h ++ ":" ++ pad2 m ++ ":" ++ pad2 s)%string
       /\ (h * 3600 + m * 60 + s = 3265)%Z.
Proof.
  assert (Hsmall : (Z.max 0 (int (32657 # 10)) < 86400000000000)%Z) by reflexivity.
  split; [exact Hsmall|]. split; [reflexivity|].
  destruct (proj1 (ts_format_fields (32657 # 10)) Hsmall)
    as (h & m & s & Hfmt & _ & _ & _ & Hsum).
  exists h, m, s. split; [exact Hfmt | exact Hsum].
Defined.

(** ** Cropping and the grid of windows *)

Lemma int_nonneg (q : Q) : 0 <= q -> (0 <= int q)%Z.
Proof.
  intros Hq. destruct (int_floor q Hq) as [_ Hup].
  assert (Hlt : inject_Z (-1) < inject_Z (int q)).
  { change (inject_Z (-1)) with (-1). lra. }
  rewrite <- Zlt_Qlt in Hlt. lia.
Qed.

Lemma int_mono (a b : Q) : 0 <= a -> a <= b -> (int a <= int b)%Z.
Proof.
  intros Ha Hab.
  destruct (int_floor a Ha) as [Hlo _].
  destruct (int_floor b ltac:(lra)) as [_ Hup].
  assert (Hlt : inject_Z (int a) < inject_Z (int b + 1)).
  { rewrite inject_Z_plus. change (inject_Z 1) with 1. lra. }
  rewrite <- Zlt_Qlt in Hlt. lia.
Qed.

Lemma int_inject (q : Q) (z : Z) : q == inject_Z z -> int q = z.
Proof.
  destruct q as [n d]. unfold int, Qeq; simpl. intros Heq.
  rewrite Z.mul_1_r in Heq. rewrite Heq. apply Z.quot_mul. lia.
Qed.

Lemma int_at_most (q : Q) (z : Z) : 0 <= q -> q <= inject_Z z -> (int q <= z)%Z.
Proof.
  intros Hq Hle. rewrite <- (int_inject (inject_Z z) z) by reflexivity.
  now apply int_mono.
Qed.

Lemma bound_inside (n i : Z) : (0 <= i <= n)%Z -> Pixels.bound n i = i.
Proof.
  intros Hi. unfold Pixels.bound.
  destruct (Z.ltb_spec i 0); lia.
Qed.

(** X9. For a region given by fractions that lie within the frame
    ([x, y, ww, hh >= 0], [x + ww <= 1], [y + hh <= 1]), [crop] returns
    exactly the rectangle of the frame from row [int(y*h)] to
    [int((y+hh)*h)] and from column [int(x*w)] to [int((x+ww)*w)]: the
    bounds are in order and inside the frame, so nothing is clipped and no
    index wraps around. *)
Theorem crop_is_subrectangle {P} (frame : Pixels.Array P) (x y ww hh : Q) :
  let h := Pixels.rows frame in
  let w := Pixels.cols frame in
  let x1 := int (x * inject_Z w) in
  let y1 := int (y * inject_Z h) in
  let x2 := int ((x + ww) * inject_Z w) in
  let y2 := int ((y + hh) * inject_Z h) in
  let out := Pixels.crop frame (x, y, ww, hh) in
  (0 <= h)%Z -> (0 <= w)%Z ->
  0 <= x -> 0 <= y -> 0 <= ww -> 0 <= hh -> x + ww <= 1 -> y + hh <= 1 ->
  (0 <= y1 <= y2)%Z /\ (y2 <= h)%Z /\ (0 <= x1 <= x2)%Z /\ (x2 <= w)%Z /\
  Pixels.rows out = (y2 - y1)%Z /\ Pixels.cols out = (x2 - x1)%Z /\
  forall r c, Pixels.at_ out r c = Pixels.at_ frame (y1 + r)%Z (x1 + c)%Z.
Proof.
  intros h w x1 y1 x2 y2 out Hh Hw Hx Hy Hww Hhh Hxw Hyh.
  assert (Hhq : 0 <= inject_Z h) by (change 0 with (inject_Z 0); now rewrite <- Zle_Qle).
  assert (Hwq : 0 <= inject_Z w) by (change 0 with (inject_Z 0); now rewrite <- Zle_Qle).
  assert (Hy1 : (0 <= y1)%Z) by (apply int_nonneg; nra).
  assert (Hx1 : (0 <= x1)%Z) by (apply int_nonneg; nra).
  assert (Hy12 : (y1 <= y2)%Z) by (apply int_mono; nra).
  assert (Hx12 : (x1 <= x2)%Z) by (apply int_mono; nra).
  assert (Hy2 : (y2 <= h)%Z) by (apply int_at_most; nra).
  assert (Hx2 : (x2 <= w)%Z) by (apply int_at_most; nra).
  subst out. unfold Pixels.crop, Pixels.slice. fold h w. fold x1 y1 x2 y2. simpl.
  rewrite !bound_inside by lia.
  repeat split; try lia. 
Qed.

Lemma crop_is_subrectangle_witness :
  let frame := {| Pixels.rows := 1080; Pixels.cols := 1920;
                  Pixels.at_ := fun r c => (r * 1920 + c)%Z |} in
  (68 # 100) + (32 # 100) <= 1
  /\ Pixels.rows (Pixels.crop frame (CLOCK_SEARCH_ROI shipped)) = 237%Z
  /\ Pixels.cols (Pixels.crop frame (CLOCK_SEARCH_ROI shipped)) = 615%Z
  /\ Pixels.at_ (Pixels.crop frame (CLOCK_SEARCH_ROI shipped)) 0 0 = 1305%Z.
Proof.
  intros frame.
  assert (Hsum : (68 # 100) + (32 # 100) <= 1) by (vm_compute; discriminate).
  split; [exact Hsum|].
  destruct (crop_is_subrectangle frame (68 # 100) 0 (32 # 100) (22 # 100)
              ltac:(simpl; lia) ltac:(simpl; lia) ltac:(lra) ltac:(lra) ltac:(lra)
              ltac:(lra) Hsum ltac:(lra))
    as (_ & _ & _ & _ & Hrows & Hcols & Hat).
  split; [exact Hrows|]. split; [exact Hcols|]. exact (Hat 0%Z 0%Z).
Defined.

(** X10. With the shipped region of interest (the top right corner, 32 % of
    the width and 22 % of the height) the crop of an [h] by [w] frame has
    [int(0.22*h)] rows and [w - int(0.68*w)] columns: it has no row exactly
    when the frame is less than 5 pixels high, and no column only when the
    frame has none. *)
Theorem shipped_crop_shape {P} (frame : Pixels.Array P) :
  let h := Pixels.rows frame in
  let w := Pixels.cols frame in
  let out := Pixels.crop frame (CLOCK_SEARCH_ROI shipped) in
  (0 <= h)%Z -> (0 <= w)%Z ->
  Pixels.rows out = int ((22 # 100) * inject_Z h) /\
  Pixels.cols out = (w - int ((68 # 100) * inject_Z w))%Z /\
  ((0 < Pixels.rows out)%Z <-> (5 <= h)%Z) /\
  ((0 < Pixels.cols out)%Z <-> (1 <= w)%Z).
Proof.
  intros h w out Hh Hw.
  assert (Hhq : 0 <= inject_Z h) by (change 0 with (inject_Z 0); now rewrite <- Zle_Qle).
  assert (Hwq : 0 <= inject_Z w) by (change 0 with (inject_Z 0); now rewrite <- Zle_Qle).
  destruct (crop_is_subrectangle frame (68 # 100) 0 (32 # 100) (22 # 100))
    as (_ & _ & _ & _ & Hrows & Hcols & _);
    try assumption; try (vm_compute; discriminate).
  fold h w in Hrows, Hcols. subst out. simpl CLOCK_SEARCH_ROI.
  assert (Hy1 : int (0 * inject_Z h) = 0%Z) by (apply int_inject; ring).
  assert (Hy2 : int ((0 + (22 # 100)) * inject_Z h) = int ((22 # 100) * inject_Z h)).
  { destruct (int_floor ((0 + (22 # 100)) * inject_Z h)) as [Ha Hb]; [nra|].
    destruct (int_floor ((22 # 100) * inject_Z h)) as [Hc Hd]; [nra|].
    assert (H1 : inject_Z (int ((0 + (22 # 100)) * inject_Z h))
                 < inject_Z (int ((22 # 100) * inject_Z h) + 1)).
    { rewrite inject_Z_plus. change (inject_Z 1) with 1. lra. }
    assert (H2 : inject_Z (int ((22 # 100) * inject_Z h))
                 < inject_Z (int ((0 + (22 # 100)) * inject_Z h) + 1)).
    { rewrite inject_Z_plus. change (inject_Z 1) with 1. lra. }
    rewrite <- Zlt_Qlt in H1, H2. lia. }
  assert (Hx2 : int (((68 # 100) + (32 # 100)) * inject_Z w) = w).
  { apply int_inject. ring. }
  rewrite Hy1, Hy2, Z.sub_0_r in Hrows. rewrite Hx2 in Hcols.
  split; [exact Hrows|]. split; [exact Hcols|].
  rewrite Hrows, Hcols.
  destruct (int_floor ((22 # 100) * inject_Z h)) as [Hlo Hup]; [nra|].
  destruct (int_floor ((68 # 100) * inject_Z w)) as [Hlo' Hup']; [nra|].
  split; split; intros Hpos.
  - assert (Hone : inject_Z 1 <= inject_Z (int ((22 # 100) * inject_Z h)))
      by (rewrite <- Zle_Qle; lia).
    change (inject_Z 1) with 1 in Hone.
    assert (Hq : inject_Z 4 < inject_Z h).
    { change (inject_Z 4) with 4. lra. }
    rewrite <- Zlt_Qlt in Hq. lia.
  - assert (Hq : inject_Z 5 <= inject_Z h) by (rewrite <- Zle_Qle; lia).
    change (inject_Z 5) with 5 in Hq.
    assert (Hlt : inject_Z 0 < inject_Z (int ((22 # 100) * inject_Z h) + 1)).
    { rewrite inject_Z_plus. change (inject_Z 1) with 1. change (inject_Z 0) with 0.
      lra. }
    rewrite <- Zlt_Qlt in Hlt.
    assert (Hne : int ((22 # 100) * inject_Z h) <> 0%Z).
    { intros Hz. rewrite Hz in Hup. change (inject_Z 0) with 0 in Hup. lra. }
    lia.
  - destruct (Z.eq_dec w 0) as [Hz|Hz]; [|lia].
    subst w. rewrite Hz in Hpos. vm_compute in Hpos. discriminate.
  - assert (Hq : inject_Z 1 <= inject_Z w) by (rewrite <- Zle_Qle; lia).
    change (inject_Z 1) with 1 in Hq.
    assert (Hlt : inject_Z (int ((68 # 100) * inject_Z w)) < inject_Z w) by lra.
    rewrite <- Zlt_Qlt in Hlt. lia.
Qed.

Lemma shipped_crop_shape_witness :
  let frame := {| Pixels.rows := 4; Pixels.cols := 7;
                  Pixels.at_ := fun r c => (r * 7 + c)%Z |} in
  Pixels.rows (Pixels.crop frame (CLOCK_SEARCH_ROI shipped)) = 0%Z
  /\ Pixels.cols (Pixels.crop frame (CLOCK_SEARCH_ROI shipped)) = 3%Z.
Proof.
  intros frame.
  destruct (shipped_crop_shape frame ltac:(simpl; lia) ltac:(simpl; lia))
    as (Hrows & Hcols & _ & _).
  split; [exact Hrows | exact Hcols].
Defined.

(** X11. The second pass looks at six windows, in the order of the rows of
    a 2 by 3 grid.  The window of row [ry] and column [cx] is [H // 2] high
    and [W // 3] wide and shows the pixels of the image from row
    [ry * (H // 2)] and column [cx * (W // 3)] on; all six lie inside the
    image, so the last [W mod 3] columns and, when [H] is odd, the last row
    are in no window. *)
Theorem windows_grid {P} (g : Pixels.Array P) (dflt : Pixels.Array P) (ry cx : Z) :
  let H := Pixels.rows g in
  let W := Pixels.cols g in
  let win := nth (Z.to_nat (ry * 3 + cx)) (Pixels.windows g) dflt in
  (0 <= H)%Z -> (0 <= W)%Z -> (0 <= ry < 2)%Z -> (0 <= cx < 3)%Z ->
  List.length (Pixels.windows g) = 6%nat /\
  Pixels.rows win = (H / 2)%Z /\
  Pixels.cols win = (W / 3)%Z /\
  (forall r c, Pixels.at_ win r c
               = Pixels.at_ g (ry * (H / 2) + r)%Z (cx * (W / 3) + c)%Z) /\
  (ry * (H / 2) + H / 2 <= 2 * (H / 2))%Z /\ (2 * (H / 2) <= H)%Z /\
  (cx * (W / 3) + W / 3 <= 3 * (W / 3))%Z /\ (3 * (W / 3) <= W)%Z.
Proof.
  intros H W win HH HW Hry Hcx.
  pose proof (Z.div_pos H 2 HH ltac:(lia)) as Hh.
  pose proof (Z.div_pos W 3 HW ltac:(lia)) as Hw.
  pose proof (Z.mul_div_le H 2 ltac:(lia)) as Hh2.
  pose proof (Z.mul_div_le W 3 ltac:(lia)) as Hw3.
  split; [reflexivity|].
  assert (Hcases : (ry = 0 \/ ry = 1)%Z /\ (cx = 0 \/ cx = 1 \/ cx = 2)%Z) by lia.
  subst win. unfold Pixels.windows. fold H W.
  set (wh := (H / 2)%Z) in *. set (ww := (W / 3)%Z) in *.
  cbv [flat_map map app].
  destruct Hcases as [[-> | ->] [-> | [-> | ->]]];
    match goal with
    | |- context [Z.to_nat ?i] =>
        let n := eval vm_compute in (Z.to_nat i) in change (Z.to_nat i) with n
    end;
    cbn [nth]; unfold Pixels.slice; fold H W;
    cbn [Pixels.rows Pixels.cols Pixels.at_];
    rewrite !bound_inside by lia;
    repeat split; try lia.
Qed.

Lemma windows_grid_witness :
  let g := {| Pixels.rows := 7; Pixels.cols := 11;
              Pixels.at_ := fun r c => (r * 11 + c)%Z |} in
  Pixels.rows (nth 5 (Pixels.windows g) g) = 3%Z
  /\ Pixels.cols (nth 5 (Pixels.windows g) g) = 3%Z
  /\ Pixels.at_ (nth 5 (Pixels.windows g) g) 2 2 = 63%Z.
Proof.
  intros g.
  destruct (windows_grid g g 1 2 ltac:(simpl; lia) ltac:(simpl; lia)
              ltac:(lia) ltac:(lia)) as (_ & Hrows & Hcols & Hat & _).
  split; [exact Hrows|]. split; [exact Hcols|]. exact (Hat 2%Z 2%Z).
Defined.

(** ** Reading the clock out of text *)

Lemma sappend_assoc (u v w : string) : ((u ++ v) ++ w = u ++ (v ++ w))%string.
Proof. induction u as [|c u IH]; simpl; [reflexivity | now rewrite IH]. Qed.

Lemma slength_append (u v : string) :
  String.length (u ++ v) = (String.length u + String.length v)%nat.
Proof. induction u as [|c u IH]; simpl; [reflexivity | now rewrite IH]. Qed.

Lemma take_append (w rest : string) : Ocr.take (String.length w) (w ++ rest) = w.
Proof. induction w as [|c w IH]; simpl; [now destruct rest | now rewrite IH]. Qed.

Lemma consumed_append (w rest : string) : Ocr.consumed (w ++ rest) rest = w.
Proof.
  unfold Ocr.consumed. rewrite slength_append.
  replace (String.length w + String.length rest - String.length rest)%nat
    with (String.length w) by lia.
  apply take_append.
Qed.

(** Whatever the matcher finds is a match. *)
Lemma rounds_sound {A}
    (body : string -> Ocr.Captures -> (string -> Ocr.Captures -> option A) -> option A)
    (k : string -> Ocr.Captures -> option A)
    (R : string -> Ocr.Captures -> Ocr.Captures -> Prop) :
  (forall s caps k' x, body s caps k' = Some x ->
     exists w s' caps', s = (w ++ s')%string /\ R w caps caps' /\ k' s' caps' = Some x) ->
  forall left lo s caps x,
    Ocr.rounds body k left lo s caps = Some x ->
    exists n w s' caps',
      (n <= left)%nat /\ (lo <= n)%nat /\ s = (w ++ s')%string
      /\ Ocr.iter n R w caps caps' /\ k s' caps' = Some x.
Proof.
  intros Hbody. induction left as [|left IH]; intros lo s caps x; simpl.
  - destruct (Nat.eqb_spec lo 0) as [->|]; [|discriminate].
    intros Hk. exists 0%nat, EmptyString, s, caps. simpl. repeat split; auto.
  - destruct (body s caps _) as [y|] eqn:Eb.
    + intros [= ->]. apply Hbody in Eb.
      destruct Eb as (u & s1 & c1 & -> & Hu & Hrest).
      apply IH in Hrest.
      destruct Hrest as (n & v & s2 & c2 & Hn & Hlo & -> & Hiter & Hk).
      exists (S n), (u ++ v)%string, s2, c2.
      repeat split; try lia.
      * symmetry. apply sappend_assoc.
      * simpl. exists u, v, c1. repeat split; assumption.
      * exact Hk.
    + destruct (Nat.eqb_spec lo 0) as [->|]; [|discriminate].
      intros Hk. exists 0%nat, EmptyString, s, caps. simpl.
      repeat split; auto; lia.
Qed.

Lemma run_sound {A} (r : Ocr.regex) :
  forall (s : string) (caps : Ocr.Captures)
         (k : string -> Ocr.Captures -> option A) (x : A),
  Ocr.run r s caps k = Some x ->
  exists w s' caps',
    s = (w ++ s')%string /\ Ocr.den r w caps caps' /\ k s' caps' = Some x.
Proof.
  induction r as [p | r1 IH1 r2 IH2 | n r1 IH1 | r1 IH1 lo hi];
    intros s caps k x; simpl.
  - destruct s as [|c s']; [discriminate|].
    destruct (p c) eqn:Ep; [|discriminate].
    intros Hk. exists (String c EmptyString), s', caps. simpl.
    repeat split; [|exact Hk]. exists c. auto.
  - intros Hrun. apply IH1 in Hrun.
    destruct Hrun as (u & s1 & c1 & -> & Hu & Hrest).
    apply IH2 in Hrest. destruct Hrest as (v & s2 & c2 & -> & Hv & Hk).
    exists (u ++ v)%string, s2, c2. repeat split.
    + symmetry. apply sappend_assoc.
    + exists u, v, c1. auto.
    + exact Hk.
  - intros Hrun. apply IH1 in Hrun.
    destruct Hrun as (w & s1 & c1 & -> & Hw & Hk).
    rewrite consumed_append in Hk.
    exists w, s1, ((n, w) :: c1). repeat split; [|exact Hk].
    exists c1. auto.
  - intros Hrun.
    apply (rounds_sound _ _ (Ocr.den r1)) in Hrun.
    + destruct Hrun as (n & w & s' & caps' & Hn & Hlo & -> & Hiter & Hk).
      exists w, s', caps'. repeat split; [|exact Hk].
      exists n. repeat split; [exact Hlo | | exact Hiter].
      destruct hi; [exact Hn | exact I].
    + intros s0 caps0 k' y. apply IH1.
Qed.

Lemma search_sound (r : Ocr.regex) (s : string) (m : Ocr.Captures) :
  Ocr.search r s = Some m ->
  exists pre w post, s = (pre ++ w ++ post)%string /\ Ocr.den r w [] m.
Proof.
  induction s as [|c s IH]; simpl.
  - destruct (Ocr.run r EmptyString [] _) as [caps|] eqn:E; [|discriminate].
    intros [= ->]. apply run_sound in E.
    destruct E as (w & s' & caps' & Hs & Hden & [= ->]).
    exists EmptyString, w, s'. auto.
  - destruct (Ocr.run r (String c s) [] _) as [caps|] eqn:E.
    + intros [= ->]. apply run_sound in E.
      destruct E as (w & s' & caps' & Hs & Hden & [= ->]).
      exists EmptyString, w, s'. auto.
    + intros Hs. destruct (IH Hs) as (pre & w & post & -> & Hden).
      exists (String c pre), w, post. auto.
Qed.

(** Rounds of a character class capture nothing and match characters of
    the class. *)
Lemma iter_class (p : ascii -> bool) (n : nat) : forall w caps caps',
  Ocr.iter n (Ocr.den (Ocr.Chr p)) w caps caps' ->
  caps' = caps /\ String.length w = n /\ Ocr.all_chars p w = true.
Proof.
  induction n as [|n IH]; intros w caps caps'; simpl.
  - intros [-> ->]. auto.
  - intros (u & v & c1 & -> & (c & -> & Hp & ->) & Hrest).
    destruct (IH _ _ _ Hrest) as (-> & Hlen & Hall).
    simpl. rewrite Hp, Hlen, Hall. auto.
Qed.

(** The two groups of a match of [MMSS_ANY_RE]: one or two decimal digits,
    then exactly two. *)
Lemma mmss_groups (w : string) (m : Ocr.Captures) :
  Ocr.den Ocr.MMSS_ANY_RE w [] m ->
  exists g1 g2,
    m = [(2%nat, g2); (1%nat, g1)]
    /\ (1 <= String.length g1 <= 2)%nat /\ Ocr.all_chars Ocr.is_digit g1 = true
    /\ String.length g2 = 2%nat /\ Ocr.all_chars Ocr.is_digit g2 = true.
Proof.
  unfold Ocr.MMSS_ANY_RE. simpl.
  intros (g1 & r1 & c1 & _ & (c1' & (n1 & Hlo1 & Hhi1 & Hit1) & ->) & Hrest).
  destruct Hrest as (sp1 & r2 & c2 & _ & (n2 & _ & _ & Hit2) & Hrest).
  destruct Hrest as (sep & r3 & c3 & _ & (n3 & _ & _ & Hit3) & Hrest).
  destruct Hrest as (sp2 & g2 & c4 & _ & (n4 & _ & _ & Hit4) & Hrest).
  destruct Hrest as (c5 & (n5 & Hlo5 & Hhi5 & Hit5) & ->).
  apply iter_class in Hit1, Hit2, Hit3, Hit4, Hit5.
  destruct Hit1 as (-> & Hl1 & Hd1). destruct Hit2 as (-> & _ & _).
  destruct Hit3 as (-> & _ & _). destruct Hit4 as (-> & _ & _).
  destruct Hit5 as (-> & Hl5 & Hd5).
  exists g1, g2. repeat split; try assumption; lia.
Qed.


Lemma digit_value_range (c : ascii) :
  Ocr.is_digit c = true -> (0 <= Z.of_nat (Ocr.code c - 48) <= 9)%Z.
Proof.
  unfold Ocr.is_digit. intros H. apply andb_true_iff in H. destruct H as [H1 H2].
  apply Nat.leb_le in H1, H2. lia.
Qed.

Lemma py_int_short (w : string) (v : Z) :
  Ocr.py_int w = Some v -> (String.length w <= 2)%nat -> (0 <= v <= 99)%Z.
Proof.
  destruct w as [|a [|b [|c w]]]; simpl; try discriminate; try lia.
  - destruct (Ocr.is_digit a) eqn:Ea; [|discriminate]. intros [= <-] _.
    pose proof (digit_value_range a Ea). lia.
  - destruct (Ocr.is_digit a) eqn:Ea; [|discriminate].
    destruct (Ocr.is_digit b) eqn:Eb; [|discriminate]. intros [= <-] _.
    pose proof (digit_value_range a Ea). pose proof (digit_value_range b Eb). lia.
Qed.

Lemma digits_value_total (w : string) : forall acc,
  Ocr.all_chars Ocr.is_digit w = true -> exists v, Ocr.digits_value acc w = Some v.
Proof.
  induction w as [|c w IH]; intros acc; simpl; [eauto|].
  intros H. apply andb_true_iff in H. destruct H as [Hc Hw].
  rewrite Hc. now apply IH.
Qed.

Lemma py_int_total (w : string) :
  Ocr.all_chars Ocr.is_digit w = true -> (1 <= String.length w)%nat ->
  exists v, Ocr.py_int w = Some v.
Proof.
  intros Hall Hlen. destruct w as [|c w]; [simpl in Hlen; lia|].
  unfold Ocr.py_int. now apply digits_value_total.
Qed.

Lemma minutes_seconds_range (a b : string) (v : Z) :
  Ocr.minutes_seconds a b = Ocr.Found v -> (String.length a <= 2)%nat ->
  exists mm ss, v = (mm * 60 + ss)%Z /\ (0 <= mm <= 99)%Z /\ (0 <= ss <= 59)%Z.
Proof.
  unfold Ocr.minutes_seconds.
  destruct (Ocr.py_int a) as [mm|] eqn:Ea; [|discriminate].
  destruct (Ocr.py_int b) as [ss|] eqn:Eb; [|discriminate].
  destruct (Z.leb_spec 0 ss); simpl; [|discriminate].
  destruct (Z.leb_spec ss 59); [|discriminate].
  intros [= <-] Hlen. exists mm, ss. repeat split; try lia;
    apply (py_int_short a mm Ea Hlen).
Qed.

Lemma search_groups (s : string) (m : Ocr.Captures) :
  Ocr.search Ocr.MMSS_ANY_RE s = Some m ->
  (1 <= String.length (Ocr.group 1 m) <= 2)%nat
  /\ Ocr.all_chars Ocr.is_digit (Ocr.group 1 m) = true
  /\ String.length (Ocr.group 2 m) = 2%nat
  /\ Ocr.all_chars Ocr.is_digit (Ocr.group 2 m) = true.
Proof.
  intros Hs. apply search_sound in Hs. destruct Hs as (pre & w & post & _ & Hden).
  apply mmss_groups in Hden. destruct Hden as (g1 & g2 & -> & H1 & H2 & H3 & H4).
  simpl. auto.
Qed.

Lemma take_length (n : nat) (s : string) :
  (String.length (Ocr.take n s) <= n)%nat.
Proof.
  revert s. induction n as [|n IH]; intros s; simpl; [lia|].
  destruct s as [|c s]; simpl; [lia|]. specialize (IH s). lia.
Qed.

Lemma read_multi_range (txt : string) (v : Z) :
  Ocr.read_multi txt = Ocr.Found v ->
  exists mm ss, v = (mm * 60 + ss)%Z /\ (0 <= mm <= 99)%Z /\ (0 <= ss <= 59)%Z.
Proof.
  unfold Ocr.read_multi.
  destruct (Ocr.search _ _) as [m|] eqn:Es; [|discriminate].
  intros Hv. apply minutes_seconds_range in Hv; [exact Hv|].
  apply search_groups in Es. lia.
Qed.

Lemma read_word_range (txt : string) (v : Z) :
  Ocr.read_word txt = Ocr.Found v ->
  exists mm ss, v = (mm * 60 + ss)%Z /\ (0 <= mm <= 99)%Z /\ (0 <= ss <= 59)%Z.
Proof.
  unfold Ocr.read_word. cbv zeta.
  destruct (Ocr.search _ _) as [m|] eqn:Es.
  - intros Hv. apply minutes_seconds_range in Hv; [exact Hv|].
    apply search_groups in Es. lia.
  - destruct ((_ || _) && _) eqn:Ec; [|discriminate].
    destruct (Ocr.minutes_seconds _ _) as [v'| |] eqn:Em; try discriminate.
    intros [= <-]. apply minutes_seconds_range in Em; [exact Em|].
    apply andb_true_iff in Ec. destruct Ec as [Hlen _].
    unfold Ocr.but_last_two.
    pose proof (take_length (String.length (Ocr.remove_spaces txt) - 2)
                  (Ocr.remove_spaces txt)) as Ht.
    apply orb_true_iff in Hlen. destruct Hlen as [H3|H4].
    + apply Nat.eqb_eq in H3. rewrite H3 in Ht. simpl in Ht. rewrite H3. simpl. lia.
    + apply Nat.eqb_eq in H4. rewrite H4 in Ht. simpl in Ht. rewrite H4. simpl. lia.
Qed.

Lemma first_reading_In (l : list Ocr.Reading) (r : Ocr.Reading) :
  Ocr.first_reading l = r -> r <> Ocr.Nothing -> In r l.
Proof.
  induction l as [|a l IH]; simpl.
  - intros <- Hne. contradiction.
  - destruct a; intros Hr Hne.
    + left. exact Hr.
    + right. now apply IH.
    + left. exact Hr.
Qed.

(** X12. Whatever the OCR returns, a clock value produced by
    [extract_clock_seconds] is [mm * 60 + ss] with [mm] between 0 and 99 and
    [ss] between 0 and 59: it is never negative and never above 5999. *)
Theorem extract_clock_seconds_range `{Ocr.Imaging}
    (search_img : Pixels.Array Ocr.Colour) (v : Z) :
  Ocr.extract_clock_seconds search_img = Ocr.Found v ->
  (exists mm ss, v = (mm * 60 + ss)%Z /\ (0 <= mm <= 99)%Z /\ (0 <= ss <= 59)%Z)
  /\ (0 <= v <= 5999)%Z.
Proof.
  intros Hv.
  assert (Hex : exists mm ss, v = (mm * 60 + ss)%Z /\ (0 <= mm <= 99)%Z
                              /\ (0 <= ss <= 59)%Z).
  { unfold Ocr.extract_clock_seconds in Hv. cbv zeta in Hv.
    destruct (Ocr.first_reading (map _ _)) as [v1| |] eqn:E1.
    - injection Hv as ->. apply first_reading_In in E1; [|discriminate].
      apply in_map_iff in E1. destruct E1 as (var & Hr & _).
      now apply read_multi_range in Hr.
    - apply first_reading_In in Hv; [|discriminate].
      apply in_flat_map in Hv. destruct Hv as (sub & _ & Hin).
      apply in_map_iff in Hin. destruct Hin as (var & Hr & _).
      now apply read_word_range in Hr.
    - discriminate. }
  split; [exact Hex|]. destruct Hex as (mm & ss & -> & Hmm & Hss). lia.
Qed.

Lemma extract_clock_seconds_range_witness :
  Ocr.extract_clock_seconds (flat_image 1) = Ocr.Found 225
  /\ (0 <= 225 <= 5999)%Z.
Proof.
  assert (Hv : Ocr.extract_clock_seconds (flat_image 1) = Ocr.Found 225)
    by (vm_compute; reflexivity).
  split; [exact Hv|].
  exact (proj2 (extract_clock_seconds_range (flat_image 1) 225 Hv)).
Defined.

Lemma digit_not_space_sep (c : ascii) :
  Ocr.is_digit c = true -> Ocr.is_space c = false /\ Ocr.is_sep c = false.
Proof.
  destruct c as [[] [] [] [] [] [] [] []]; vm_compute; intros H;
    try discriminate H; split; reflexivity.
Qed.

Lemma three_digits_match (a b c : ascii) :
  Ocr.is_digit a = true -> Ocr.is_digit b = true -> Ocr.is_digit c = true ->
  Ocr.search Ocr.MMSS_ANY_RE (String a (String b (String c EmptyString))) <> None.
Proof.
  intros Ha Hb Hc.
  destruct (digit_not_space_sep b Hb) as [Hbs Hbp].
  destruct (digit_not_space_sep c Hc) as [Hcs Hcp].
  cbn -[Ocr.is_digit Ocr.is_space Ocr.is_sep].
  rewrite ?Ha, ?Hb, ?Hc, ?Hbs, ?Hbp, ?Hcs, ?Hcp.
  cbn -[Ocr.is_digit Ocr.is_space Ocr.is_sep].
  rewrite ?Ha, ?Hb, ?Hc, ?Hbs, ?Hbp, ?Hcs, ?Hcp.
  cbn -[Ocr.is_digit Ocr.is_space Ocr.is_sep].
  rewrite ?Ha, ?Hb, ?Hc, ?Hbs, ?Hbp, ?Hcs, ?Hcp.
  discriminate.
Qed.

Lemma four_digits_match (a b c d : ascii) :
  Ocr.is_digit a = true -> Ocr.is_digit b = true -> Ocr.is_digit c = true ->
  Ocr.is_digit d = true ->
  Ocr.search Ocr.MMSS_ANY_RE
    (String a (String b (String c (String d EmptyString)))) <> None.
Proof.
  intros Ha Hb Hc Hd.
  destruct (digit_not_space_sep c Hc) as [Hcs Hcp].
  cbn -[Ocr.is_digit Ocr.is_space Ocr.is_sep].
  rewrite ?Ha, ?Hb, ?Hc, ?Hd, ?Hcs, ?Hcp.
  cbn -[Ocr.is_digit Ocr.is_space Ocr.is_sep].
  rewrite ?Ha, ?Hb, ?Hc, ?Hd, ?Hcs, ?Hcp.
  cbn -[Ocr.is_digit Ocr.is_space Ocr.is_sep].
  rewrite ?Ha, ?Hb, ?Hc, ?Hd, ?Hcs, ?Hcp.
  discriminate.
Qed.

Lemma minutes_seconds_no_error (a b : string) :
  Ocr.all_chars Ocr.is_digit a = true -> (1 <= String.length a)%nat ->
  Ocr.all_chars Ocr.is_digit b = true -> (1 <= String.length b)%nat ->
  Ocr.minutes_seconds a b <> Ocr.ValueError.
Proof.
  intros Ha Hla Hb Hlb. unfold Ocr.minutes_seconds.
  destruct (py_int_total a Ha Hla) as [mm ->].
  destruct (py_int_total b Hb Hlb) as [ss ->].
  destruct ((0 <=? ss)%Z && (ss <=? 59)%Z); discriminate.
Qed.

Lemma all_chars_remove_spaces (p : ascii -> bool) (txt : string) :
  Ocr.all_chars p txt = true -> Ocr.all_chars p (Ocr.remove_spaces txt) = true.
Proof.
  induction txt as [|c txt IH]; simpl; [auto|].
  intros H. apply andb_true_iff in H. destruct H as [Hc Ht].
  destruct (Ascii.eqb c " "); simpl; [auto|]. rewrite Hc. auto.
Qed.

Lemma all_chars_both (p q : ascii -> bool) (s : string) :
  Ocr.all_chars (fun c => implb (p c) (q c)) s = true ->
  Ocr.all_chars p s = true -> Ocr.all_chars q s = true.
Proof.
  induction s as [|c s IH]; simpl; [auto|].
  intros H1 H2. apply andb_true_iff in H1, H2.
  destruct H1 as [Hi H1], H2 as [Hp H2]. rewrite Hp in Hi. simpl in Hi.
  rewrite Hi. auto.
Qed.

(** X13. Reading a text through the regular expression never raises: the
    groups handed to [int] are made of decimal digits.  The bare-digits
    branch of the second pass can only run, and [int] can only raise
    [ValueError] there, on a text that holds a superscript digit: on any
    text without one (in particular on anything spelled with the whitelist
    [0123456789:]) the second pass reads exactly what the first pass would
    read, the regular expression having matched every string of three or
    four digits already. *)
Theorem second_pass_fallback_is_dead (txt : string) :
  Ocr.read_multi txt <> Ocr.ValueError /\
  (Ocr.all_chars (fun c => implb (Ocr.str_isdigit_char c) (Ocr.is_digit c)) txt = true ->
   Ocr.read_word txt = Ocr.read_multi txt).
Proof.
  split.
  - unfold Ocr.read_multi. destruct (Ocr.search _ _) as [m|] eqn:Es; [|discriminate].
    apply search_groups in Es. destruct Es as (H1 & H2 & H3 & H4).
    apply minutes_seconds_no_error; auto; lia.
  - intros Hplain. unfold Ocr.read_word, Ocr.read_multi. cbv zeta.
    destruct (Ocr.search _ _) as [m|] eqn:Es; [reflexivity|].
    destruct ((_ || _) && _) eqn:Ec; [|reflexivity]. exfalso.
    apply andb_true_iff in Ec. destruct Ec as [Hlen Hdig].
    unfold Ocr.isdigit in Hdig. apply andb_true_iff in Hdig. destruct Hdig as [_ Hdig].
    apply all_chars_remove_spaces in Hplain.
    pose proof (all_chars_both _ _ _ Hplain Hdig) as Hall.
    destruct (Ocr.remove_spaces txt) as [|a [|b [|c [|d [|e s]]]]];
      simpl in Hlen; try discriminate Hlen; simpl in Hall;
      repeat (apply andb_true_iff in Hall; destruct Hall as [? Hall]).
    + now apply (three_digits_match a b c).
    + now apply (four_digits_match a b c d).
Qed.

Lemma second_pass_fallback_is_dead_witness :
  Ocr.all_chars (fun c => implb (Ocr.str_isdigit_char c) (Ocr.is_digit c)) "1234"
  = true
  /\ Ocr.read_word "1234" = Ocr.Found 754
  /\ Ocr.read_word (String "1" (String "2" (String (ascii_of_nat 178) EmptyString)))
     = Ocr.ValueError.
Proof.
  assert (Hplain : Ocr.all_chars
            (fun c => implb (Ocr.str_isdigit_char c) (Ocr.is_digit c)) "1234" = true)
    by reflexivity.
  split; [exact Hplain|]. split; [|vm_compute; reflexivity].
  rewrite (proj2 (second_pass_fallback_is_dead "1234") Hplain).
  vm_compute. reflexivity.
Defined.

(** X14. A clock rendered as text is read back as the seconds it shows:
    for minutes 0 to 99, written with or without a leading zero, followed by
    a colon, a bar, a semicolon or nothing, and seconds in two digits, both
    passes return [mm * 60 + ss] when [ss <= 59] and nothing when the
    seconds read 60 to 99. *)
Theorem clock_text_round_trip (mm ss : Z) (sep : string) :
  (0 <= mm <= 99)%Z -> (0 <= ss <= 99)%Z ->
  In sep [":"; "|"; ";"; ""]%string ->
  let expected := if (ss <=? 59)%Z then Ocr.Found (mm * 60 + ss) else Ocr.Nothing in
  Ocr.read_multi (decimal mm ++ sep ++ pad2 ss) = expected /\
  Ocr.read_multi (pad2 mm ++ sep ++ pad2 ss) = expected /\
  Ocr.read_word (decimal mm ++ sep ++ pad2 ss) = expected /\
  Ocr.read_word (pad2 mm ++ sep ++ pad2 ss) = expected.
Proof.
  intros Hmm Hss Hsep expected. subst expected.
  assert (Hall : forallb (fun i => forallb (fun j => forallb (fun sp =>
    let m := Z.of_nat i in let s := Z.of_nat j in
    let expected := if (s <=? 59)%Z then Ocr.Found (m * 60 + s) else Ocr.Nothing in
    let same (a b : Ocr.Reading) :=
      match a, b with
      | Ocr.Found x, Ocr.Found y => (x =? y)%Z
      | Ocr.Nothing, Ocr.Nothing => true
      | _, _ => false
      end in
    same (Ocr.read_multi (decimal m ++ sp ++ pad2 s)) expected
    && same (Ocr.read_multi (pad2 m ++ sp ++ pad2 s)) expected
    && same (Ocr.read_word (decimal m ++ sp ++ pad2 s)) expected
    && same (Ocr.read_word (pad2 m ++ sp ++ pad2 s)) expected)
      [":"; "|"; ";"; ""]%string) (seq 0 100)) (seq 0 100) = true)
    by (vm_compute; reflexivity).
  rewrite forallb_forall in Hall.
  specialize (Hall (Z.to_nat mm)). rewrite in_seq in Hall.
  specialize (Hall ltac:(lia)). rewrite forallb_forall in Hall.
  specialize (Hall (Z.to_nat ss)). rewrite in_seq in Hall.
  specialize (Hall ltac:(lia)). rewrite forallb_forall in Hall.
  specialize (Hall sep Hsep). cbv zeta in Hall.
  rewrite !Z2Nat.id in Hall by lia.
  assert (Hsame : forall a b : Ocr.Reading,
    match a, b with
    | Ocr.Found x, Ocr.Found y => (x =? y)%Z
    | Ocr.Nothing, Ocr.Nothing => true
    | _, _ => false
    end = true -> a = b).
  { intros [x| |] [y| |] H; try discriminate H; try reflexivity.
    apply Z.eqb_eq in H. now subst. }
  repeat (apply andb_true_iff in Hall; destruct Hall as [Hall ?]).
  repeat split; apply Hsame; assumption.
Qed.

Lemma clock_text_round_trip_witness :
  (0 <= 3 <= 99)%Z /\ (0 <= 45 <= 99)%Z
  /\ Ocr.read_multi "03:45" = Ocr.Found 225
  /\ Ocr.read_word "3:45" = Ocr.Found 225.
Proof.
  assert (Hmm : (0 <= 3 <= 99)%Z) by lia.
  assert (Hss : (0 <= 45 <= 99)%Z) by lia.
  split; [exact Hmm|]. split; [exact Hss|].
  destruct (clock_text_round_trip 3 45 ":" Hmm Hss (or_introl eq_refl))
    as (_ & Hpadded & Hword & _).
  split; [exact Hpadded | exact Hword].
Defined.

(** ** Step 2 of the pipeline *)

Section Marks.
Import Pipeline.
Context `{Files}.

Lemma dict_get_set_same (key : string) (v : json) (d : Dict) :
  dict_get key (dict_set key v d) = Some v.
Proof.
  induction d as [|[k v'] d IH]; simpl.
  - now rewrite String.eqb_refl.
  - destruct (String.eqb k key) eqn:E; simpl; rewrite E; [reflexivity | exact IH].
Qed.

Lemma dict_get_set_other (key other : string) (v : json) (d : Dict) :
  other <> key -> dict_get other (dict_set key v d) = dict_get other d.
Proof.
  intros Hne. induction d as [|[k v'] d IH]; simpl.
  - destruct (String.eqb_spec key other) as [->|]; [contradiction | reflexivity].
  - destruct (String.eqb_spec k key) as [->|Hk]; simpl.
    + destruct (String.eqb_spec key other) as [->|]; [contradiction | reflexivity].
    + destruct (String.eqb k other); [reflexivity | exact IH].
Qed.

(** X15. On a file system where a saved state file reads back as saved and
    saving does not move the recordings, and unless the state file holds
    JSON that is not an object: after [mark_split_done] a recording is
    reported done by [is_split_done], and the answer for every recording
    that resolves to another path is unchanged. *)
Theorem mark_split_done_then_is_done (vod : string) (w : World) :
  (forall d w0, split_state (save_json d w0) = Object d) ->
  (forall p d w0, resolve p (save_json d w0) = resolve p w0) ->
  split_state w <> NotObject ->
  fst (mark_split_done vod w) = Fine tt /\
  is_split_done vod (snd (mark_split_done vod w)) = Fine true /\
  (forall other, resolve other w <> resolve vod w ->
     is_split_done other (snd (mark_split_done vod w)) = is_split_done other w).
Proof.
  intros Hread Hstay Hobj.
  assert (Hload : exists d, load_json w = ADict d).
  { unfold load_json. destruct (split_state w); eauto. contradiction. }
  destruct Hload as [d Hd].
  unfold mark_split_done. rewrite Hd. simpl.
  split; [reflexivity|].
  unfold is_split_done, load_json. rewrite !Hread, !Hstay.
  split.
  - now rewrite dict_get_set_same.
  - intros other Hne. rewrite Hstay. fold (load_json w). rewrite Hd.
    now rewrite dict_get_set_other.
Qed.
End Marks.


Lemma mark_split_done_then_is_done_witness :
  @Pipeline.split_state _ _ filed_files gameless_vod <> Pipeline.NotObject
  /\ @Pipeline.is_split_done _ _ filed_files "a.mp4" gameless_vod = Pipeline.Fine false
  /\ @Pipeline.is_split_done _ _ filed_files "a.mp4"
       (snd (@Pipeline.mark_split_done _ _ filed_files "a.mp4" gameless_vod))
     = Pipeline.Fine true.
Proof.
  assert (Hobj : @Pipeline.split_state _ _ filed_files gameless_vod
                 <> Pipeline.NotObject) by discriminate.
  split; [exact Hobj|]. split; [reflexivity|].
  exact (proj1 (proj2 (@mark_split_done_then_is_done _ _ filed_files "a.mp4"
                         gameless_vod (fun _ _ => eq_refl) (fun _ _ _ => eq_refl)
                         Hobj))).
Defined.

Section Step2Properties.
Import Pipeline.
Context `{Files}.
Variable cfg : Config.

Lemma run_child (vod export_dir : string) (ps : PState) :
  run cfg vod export_dir ps
  = (fst (script cfg [SPLIT_SCRIPT; vod; export_dir] (child ps)),
     {| child := snd (script cfg [SPLIT_SCRIPT; vod; export_dir] (child ps));
        said := said ps ++ [say_run [PYTHON_EXE; SPLIT_SCRIPT; vod; export_dir]] |}).
Proof.
  unfold run, say. cbn [child said].
  destruct (script cfg [SPLIT_SCRIPT; vod; export_dir] (child ps)) as [code st].
  reflexivity.
Qed.

Lemma split_each_shape (vods : list string) :
  forall (limit : option Z) (count : Z) (dirs : list string) (ps : PState)
         (out : list string) (ps' : PState),
  split_each cfg limit vods count dirs ps = (Fine out, ps') ->
  NoDup dirs ->
  NoDup out /\
  (forall d, In d out ->
     In d dirs \/ exists vod, In vod vods /\ d = fst (export_dir_for_vod vod)) /\
  (forall n, limit = Some n ->
     (Z.of_nat (List.length out) <= Z.of_nat (List.length dirs) + Z.max 0 (n - count))%Z).
Proof.
  induction vods as [|vod rest IH]; intros limit count dirs ps out ps';
    cbn [split_each].
  - intros [= <- <-] Hnd. repeat split; auto. intros n _. lia.
  - destruct (match limit with Some n => (n <=? count)%Z | None => false end) eqn:El.
    { intros [= <- <-] Hnd. repeat split; auto. intros n _. lia. }
    destruct (is_split_done vod (world (child ps))) as [[|]|e]; [| |discriminate].
    + intros Hrun Hnd. destruct (IH _ _ _ _ _ _ Hrun Hnd) as (K1 & K2 & K3).
      repeat split; auto.
      intros d Hd. destruct (K2 d Hd) as [|(v & Hv & ->)]; [auto|].
      right. exists v. split; [now right | reflexivity].
    + cbv zeta. set (dir := fst (export_dir_for_vod vod)).
      rewrite run_child.
      destruct (fst (script cfg _ _) =? 0)%Z.
      * destruct (mark_split_done vod _) as [[[]|e] w]; [|discriminate].
        destruct (existsb (String.eqb dir) dirs) eqn:Ein.
        -- intros Hrun Hnd. destruct (IH _ _ _ _ _ _ Hrun Hnd) as (K1 & K2 & K3).
           repeat split; auto.
           ++ intros d Hd. destruct (K2 d Hd) as [|(v & Hv & ->)]; [auto|].
              right. exists v. split; [now right | reflexivity].
           ++ intros n Hn. specialize (K3 n Hn). subst limit.
              apply Z.leb_gt in El. lia.
        -- intros Hrun Hnd.
           assert (Hnd' : NoDup (dirs ++ [dir])).
           { apply NoDup_app; [exact Hnd | repeat constructor; auto | ].
             intros d Hd [E|[]]. subst d.
             assert (existsb (String.eqb dir) dirs = true).
             { apply existsb_exists. exists dir.
               split; [exact Hd | apply String.eqb_refl]. }
             congruence. }
           destruct (IH _ _ _ _ _ _ Hrun Hnd') as (K1 & K2 & K3).
           repeat split; auto.
           ++ intros d Hd. destruct (K2 d Hd) as [Hin|(v & Hv & ->)].
              ** apply in_app_or in Hin. destruct Hin as [|[<-|[]]]; [auto|].
                 right. exists vod. split; [now left | reflexivity].
              ** right. exists v. split; [now right | reflexivity].
           ++ intros n Hn. specialize (K3 n Hn). subst limit.
              apply Z.leb_gt in El. rewrite length_app in K3. simpl in K3. lia.
      * intros Hrun Hnd. destruct (IH _ _ _ _ _ _ Hrun Hnd) as (K1 & K2 & K3).
        repeat split; auto.
        intros d Hd. destruct (K2 d Hd) as [|(v & Hv & ->)]; [auto|].
        right. exists v. split; [now right | reflexivity].
Qed.

(** X16. The list of export directories that step 2 returns has no
    duplicate, holds only export directories of recordings found under the
    recordings folder, and is no longer than the limit given on the command
    line, if one is given (none at all for a limit of zero or less). *)
Theorem step_2_result (limit : option Z) (ps : PState) (out : list string)
    (ps' : PState) :
  step_2_split_all_new_vods cfg limit ps = (Fine out, ps') ->
  NoDup out /\
  (forall d, In d out ->
     exists vod, In vod (find_all_vods (world (child ps)))
                 /\ d = fst (export_dir_for_vod vod)) /\
  (forall n, limit = Some n -> (Z.of_nat (List.length out) <= Z.max 0 n)%Z).
Proof.
  unfold step_2_split_all_new_vods. cbv zeta. simpl world.
  assert (Hnil : NoDup (@nil string) /\
    (forall d, In d (@nil string) ->
       exists vod, In vod (find_all_vods (world (child ps)))
                   /\ d = fst (export_dir_for_vod vod)) /\
    (forall n, limit = Some n -> (Z.of_nat (List.length (@nil string)) <= Z.max 0 n)%Z)).
  { repeat split; [constructor | intros d [] |]. intros n _. simpl. lia. }
  destruct (negb _).
  { intros [= <- <-]. exact Hnil. }
  destruct (find_all_vods (world (child ps))) as [|vod rest] eqn:Ev.
  { intros [= <- <-]. exact Hnil. }
  destruct (split_each cfg limit (vod :: rest) 0 [] (say say_step2 ps))
    as [[res|e] ps1] eqn:Erun.
  - apply split_each_shape in Erun; [|constructor].
    destruct Erun as (K1 & K2 & K3).
    assert (Hres : NoDup res /\
      (forall d, In d res -> exists v, In v (vod :: rest)
                                        /\ d = fst (export_dir_for_vod v)) /\
      (forall n, limit = Some n -> (Z.of_nat (List.length res) <= Z.max 0 n)%Z)).
    { repeat split; [exact K1 | |].
      - intros d Hd. destruct (K2 d Hd) as [[]|Hv]. exact Hv.
      - intros n Hn. specialize (K3 n Hn). simpl in K3. lia. }
    destruct res; intros [= <- <-]; exact Hres.
  - discriminate.
Qed.

Lemma runs_app (l1 l2 : list PLine) : runs (l1 ++ l2) = runs l1 ++ runs l2.
Proof.
  induction l1 as [|[] l1 IH]; simpl; try exact IH; [reflexivity | now rewrite IH].
Qed.

Lemma split_each_runs (vods : list string) :
  forall (limit : option Z) (count : Z) (dirs : list string) (ps : PState),
  exists vs,
    runs (said (snd (split_each cfg limit vods count dirs ps)))
    = runs (said ps) ++ map split_cmd vs /\
    incl vs vods /\
    (forall out, fst (split_each cfg limit vods count dirs ps) = Fine out ->
       forall d, In d out ->
         In d dirs \/ exists vod, In vod vs /\ d = fst (export_dir_for_vod vod)) /\
    (forall n, limit = Some n -> (n <= count)%Z -> vs = []).
Proof.
  assert (Hstop : forall (vods : list string) (dirs : list string) (ps : PState)
                          (P : list string -> Prop), P [] ->
    exists vs,
      runs (said (snd (@Fine (list string) dirs, ps)))
      = runs (said ps) ++ map split_cmd vs /\
      incl vs vods /\
      (forall out, fst (@Fine (list string) dirs, ps) = Fine out ->
         forall d, In d out ->
           In d dirs \/ exists vod, In vod vs /\ d = fst (export_dir_for_vod vod)) /\
      P vs).
  { intros vs0 dirs ps P HP. exists []. cbn [snd fst map]. rewrite app_nil_r.
    split; [reflexivity|]. split; [intros v []|].
    split; [|exact HP]. intros out [= <-] d Hd. now left. }
  induction vods as [|vod rest IH]; intros limit count dirs ps;
    cbn [split_each].
  - apply (Hstop [] dirs ps
             (fun vs => forall n, limit = Some n -> (n <= count)%Z -> vs = [])).
    reflexivity.
  - destruct (match limit with Some n => (n <=? count)%Z | None => false end) eqn:El.
    { apply (Hstop (vod :: rest) dirs ps
               (fun vs => forall n, limit = Some n -> (n <= count)%Z -> vs = [])).
      reflexivity. }
    assert (Hlim : forall n, limit = Some n -> (n <= count)%Z -> False).
    { intros n -> Hn. apply Z.leb_gt in El. lia. }
    destruct (is_split_done vod (world (child ps))) as [[|]|e].
    + destruct (IH limit count dirs ps) as (vs & K1 & K2 & K3 & K4).
      exists vs. split; [exact K1|]. split; [now apply incl_tl|].
      split; [exact K3|]. intros n Hn Hc. destruct (Hlim n Hn Hc).
    + cbv zeta. set (dir := fst (export_dir_for_vod vod)).
      rewrite run_child. fold dir. fold (split_cmd vod).
      destruct (fst (script cfg _ _) =? 0)%Z.
      * destruct (mark_split_done vod _) as [[[]|e] w].
        -- match goal with |- context [split_each cfg limit rest ?c ?ds ?p] =>
             destruct (IH limit c ds p) as (vs & K1 & K2 & K3 & K4) end.
           exists (vod :: vs). rewrite K1. cbn [say in_world said child map].
           rewrite !runs_app. cbn [runs]. rewrite !app_nil_r, <- app_assoc.
           split; [reflexivity|].
           split; [intros v [<-|Hv]; [now left | right; now apply K2]|].
           split; [|intros n Hn Hc; destruct (Hlim n Hn Hc)].
           intros out Hout d Hd. destruct (K3 out Hout d Hd) as [Hin|(v & Hv & ->)].
           ++ destruct (existsb (String.eqb dir) dirs); [now left|].
              apply in_app_or in Hin. destruct Hin as [|[<-|[]]]; [now left|].
              right. exists vod. split; [now left | reflexivity].
           ++ right. exists v. split; [now right | reflexivity].
        -- exists [vod]. cbn [snd fst say in_world said child map].
           rewrite !runs_app. cbn [runs]. rewrite !app_nil_r.
           split; [reflexivity|].
           split; [intros v [<-|[]]; now left|].
           split; [intros out [=]|intros n Hn Hc; destruct (Hlim n Hn Hc)].
      * match goal with |- context [split_each cfg limit rest ?c ?ds ?p] =>
          destruct (IH limit c ds p) as (vs & K1 & K2 & K3 & K4) end.
        exists (vod :: vs). rewrite K1. cbn [say in_world said child map].
        rewrite !runs_app. cbn [runs]. rewrite !app_nil_r, <- app_assoc.
        split; [reflexivity|].
        split; [intros v [<-|Hv]; [now left | right; now apply K2]|].
        split; [|intros n Hn Hc; destruct (Hlim n Hn Hc)].
        intros out Hout d Hd. destruct (K3 out Hout d Hd) as [Hin|(v & Hv & ->)].
        -- now left.
        -- right. exists v. split; [now right | reflexivity].
    + exists []. cbn [snd fst map]. rewrite app_nil_r.
      split; [reflexivity|]. split; [intros v []|].
      split; [intros out [=]|intros n Hn Hc; destruct (Hlim n Hn Hc)].
Qed.

(** X17. Step 2 runs the splitter only on recordings found under the
    recordings folder, each with its own export directory as the output
    directory; every export directory it returns is that of a recording it
    ran the splitter on; and with a limit of zero or less it runs nothing. *)
Theorem step_2_runs (limit : option Z) (ps : PState) :
  exists vs,
    runs (said (snd (step_2_split_all_new_vods cfg limit ps)))
    = runs (said ps) ++ map split_cmd vs /\
    incl vs (find_all_vods (world (child ps))) /\
    (forall out, fst (step_2_split_all_new_vods cfg limit ps) = Fine out ->
       forall d, In d out ->
         exists vod, In vod vs /\ d = fst (export_dir_for_vod vod)) /\
    (forall n, limit = Some n -> (n <= 0)%Z -> vs = []).
Proof.
  unfold step_2_split_all_new_vods. cbv zeta. cbn [say child said].
  fold (say say_step2 ps).
  assert (Hquiet : forall l, runs [l] = [] ->
    exists vs,
      runs (said (snd (@Fine (list string) [], say l (say say_step2 ps))))
      = runs (said ps) ++ map split_cmd vs /\
      incl vs (find_all_vods (world (child ps))) /\
      (forall out, fst (@Fine (list string) [], say l (say say_step2 ps)) = Fine out ->
         forall d, In d out ->
           exists vod, In vod vs /\ d = fst (export_dir_for_vod vod)) /\
      (forall n, limit = Some n -> (n <= 0)%Z -> vs = [])).
  { intros l Hl. exists []. cbn [snd fst say said map]. rewrite !runs_app, Hl.
    cbn [runs]. rewrite !app_nil_r.
    split; [reflexivity|]. split; [intros v []|].
    split; [|reflexivity]. intros out [= <-] d []. }
  destruct (negb _); [now apply Hquiet|].
  destruct (find_all_vods (world (child ps))) as [|vod rest] eqn:Ev;
    [now apply Hquiet|].
  destruct (split_each_runs (vod :: rest) limit 0 [] (say say_step2 ps))
    as (vs & K1 & K2 & K3 & K4).
  cbn [say said] in K1. rewrite runs_app in K1. cbn [runs] in K1.
  rewrite app_nil_r in K1.
  exists vs.
  destruct (split_each cfg limit (vod :: rest) 0 [] (say say_step2 ps))
    as [[[|d0 res]|e] ps1]; cbn [snd fst] in *.
  - cbn [say said]. rewrite runs_app. cbn [runs]. rewrite app_nil_r.
    split; [exact K1|]. split; [exact K2|]. split; [|exact K4].
    intros out [= <-] d [].
  - split; [exact K1|]. split; [exact K2|]. split; [|exact K4].
    intros out Hout d Hd. destruct (K3 out Hout d Hd) as [[]|Hv]. exact Hv.
  - split; [exact K1|]. split; [exact K2|]. split; [|exact K4].
    intros out [=].
Qed.

Section Failing.
Variable P : World -> Prop.
Variable done : string -> bool.
Variable vods0 : list string.
Hypothesis makedirs_keeps : forall d w, P w -> P (os_makedirs d w).
Hypothesis split_fails : forall vod st,
  In vod vods0 -> P (world st) ->
  fst (script cfg [SPLIT_SCRIPT; vod; fst (export_dir_for_vod vod)] st) <> 0%Z /\
  P (world (snd (script cfg [SPLIT_SCRIPT; vod; fst (export_dir_for_vod vod)] st))).
Hypothesis marks_read : forall vod w, P w -> is_split_done vod w = Fine (done vod).

Lemma split_each_all_fail (limit : option Z) (count : Z) (dirs : list string)
    (vods : list string) :
  (forall n, limit = Some n -> (count < n)%Z) ->
  incl vods vods0 ->
  forall ps, P (world (child ps)) ->
  fst (split_each cfg limit vods count dirs ps) = Fine dirs /\
  runs (said (snd (split_each cfg limit vods count dirs ps)))
  = runs (said ps) ++ map split_cmd (filter (fun v => negb (done v)) vods) /\
  P (world (child (snd (split_each cfg limit vods count dirs ps)))).
Proof.
  intros Hlim. induction vods as [|vod rest IH]; intros Hin ps HP;
    cbn [split_each].
  - cbn [fst snd filter map]. rewrite app_nil_r. auto.
  - assert (El : match limit with Some n => (n <=? count)%Z | None => false end
                 = false).
    { destruct limit as [n|]; [|reflexivity].
      apply Z.leb_gt. now apply Hlim. }
    rewrite El, (marks_read vod _ HP). cbn [filter].
    assert (Hrest : incl rest vods0).
    { intros v Hv. apply Hin. now right. }
    destruct (done vod); cbn [negb].
    + exact (IH Hrest ps HP).
    + cbv zeta. set (dir := fst (export_dir_for_vod vod)).
      rewrite run_child. fold dir. fold (split_cmd vod).
      set (ps2 := say (say_split (path_name vod) dir) (in_world (os_makedirs dir) ps)).
      assert (HP2 : P (world (child ps2))).
      { cbn [ps2 say in_world child world]. now apply makedirs_keeps. }
      destruct (split_fails vod (child ps2) (Hin vod (or_introl eq_refl)) HP2)
        as [Hcode HP3]. fold dir in Hcode, HP3.
      apply Z.eqb_neq in Hcode. rewrite Hcode.
      match goal with |- context [split_each cfg limit rest count dirs ?p] =>
        destruct (IH Hrest p) as (K1 & K2 & K3); [exact HP3|] end.
      split; [exact K1|]. split; [|exact K3].
      rewrite K2. cbn [say said child ps2 in_world map].
      rewrite !runs_app. cbn [runs]. rewrite !app_nil_r, <- app_assoc.
      reflexivity.
Qed.
End Failing.

(** X18. A failing split does not stop step 2.  Let [P] hold of the world
    at the start and be kept by creating a directory and by every run of
    the splitter on a found recording, let every such run exit with a
    non-zero status, and let the marks read the same in every world where
    [P] holds.  Then, whatever positive limit is given, step 2 runs the
    splitter once on every found recording that is not marked, in the
    order found, returns no export directory, and [P] still holds. *)
Theorem failed_splits_do_not_stop_step_2 (P : World -> Prop)
    (done : string -> bool) (limit : option Z) (ps : PState) :
  P (world (child ps)) ->
  (forall d w, P w -> P (os_makedirs d w)) ->
  (forall vod st,
     In vod (find_all_vods (world (child ps))) -> P (world st) ->
     fst (script cfg [SPLIT_SCRIPT; vod; fst (export_dir_for_vod vod)] st) <> 0%Z /\
     P (world (snd (script cfg [SPLIT_SCRIPT; vod; fst (export_dir_for_vod vod)] st)))) ->
  (forall vod w, P w -> is_split_done vod w = Fine (done vod)) ->
  split_script_exists (world (child ps)) = true ->
  (forall n, limit = Some n -> (0 < n)%Z) ->
  fst (step_2_split_all_new_vods cfg limit ps) = Fine [] /\
  runs (said (snd (step_2_split_all_new_vods cfg limit ps)))
  = runs (said ps)
    ++ map split_cmd (filter (fun v => negb (done v))
                             (find_all_vods (world (child ps)))) /\
  P (world (child (snd (step_2_split_all_new_vods cfg limit ps)))).
Proof.
  intros HP Hmk Hfail Hmarks Hscript Hlim.
  unfold step_2_split_all_new_vods. cbv zeta. cbn [say child said].
  fold (say say_step2 ps). rewrite Hscript. cbn [negb].
  destruct (find_all_vods (world (child ps))) as [|vod rest] eqn:Ev.
  - cbn [fst snd say said child filter map]. rewrite !runs_app. cbn [runs].
    rewrite !app_nil_r. auto.
  - destruct (split_each_all_fail P done (vod :: rest) Hmk Hfail Hmarks
                limit 0 [] (vod :: rest) Hlim (incl_refl _) (say say_step2 ps) HP)
      as (K1 & K2 & K3).
    destruct (split_each cfg limit (vod :: rest) 0 [] (say say_step2 ps))
      as [r ps1]. cbn [fst snd] in K1, K2, K3. subst r.
    cbn [fst snd say said child]. rewrite runs_app, K2. cbn [say said].
    rewrite runs_app. cbn [runs]. rewrite !app_nil_r. auto.
Qed.

Section Succeeding.
Variable P : World -> Prop.
Variable vods0 : list string.
Hypothesis makedirs_frame : forall d w,
  P w -> P (os_makedirs d w) /\ split_state (os_makedirs d w) = split_state w.
Hypothesis split_succeeds : forall vod st,
  In vod vods0 -> P (world st) ->
  fst (script cfg [SPLIT_SCRIPT; vod; fst (export_dir_for_vod vod)] st) = 0%Z /\
  P (world (snd (script cfg [SPLIT_SCRIPT; vod; fst (export_dir_for_vod vod)] st))) /\
  split_state (world (snd (script cfg [SPLIT_SCRIPT; vod;
                                       fst (export_dir_for_vod vod)] st)))
  = split_state (world st).
Hypothesis save_reads_back : forall d w,
  P w -> P (save_json d w) /\ split_state (save_json d w) = Object d.
Hypothesis resolve_fixed : forall p w w', resolve p w = resolve p w'.

Lemma is_split_done_same (v : string) (w w' : World) :
  split_state w = split_state w' -> is_split_done v w = is_split_done v w'.
Proof.
  intros E. unfold is_split_done, load_json.
  now rewrite E, (resolve_fixed v w w').
Qed.

Lemma is_split_done_answers (v : string) (w : World) :
  split_state w <> NotObject -> exists b, is_split_done v w = Fine b.
Proof.
  intros Hobj. unfold is_split_done, load_json.
  destruct (split_state w); eauto. contradiction.
Qed.

Lemma mark_split_done_keeps (vod : string) (w : World) :
  P w -> split_state w <> NotObject ->
  fst (mark_split_done vod w) = Fine tt /\
  P (snd (mark_split_done vod w)) /\
  split_state (snd (mark_split_done vod w)) <> NotObject /\
  is_split_done vod (snd (mark_split_done vod w)) = Fine true /\
  (forall v, is_split_done v w = Fine true ->
             is_split_done v (snd (mark_split_done vod w)) = Fine true).
Proof.
  intros HP Hobj.
  assert (Hload : exists d, load_json w = ADict d).
  { unfold load_json. destruct (split_state w); eauto. contradiction. }
  destruct Hload as [d Hd].
  unfold mark_split_done. rewrite Hd. cbn [fst snd].
  destruct (save_reads_back (dict_set (resolve vod w) JTrue d) w HP) as [HP' Hs].
  split; [reflexivity|]. split; [exact HP'|].
  split; [rewrite Hs; discriminate|].
  assert (Hget : forall v,
    is_split_done v (save_json (dict_set (resolve vod w) JTrue d) w)
    = Fine match dict_get (resolve v w) (dict_set (resolve vod w) JTrue d) with
           | Some JTrue => true
           | _ => false
           end).
  { intros v. unfold is_split_done, load_json. rewrite Hs.
    now rewrite (resolve_fixed v _ w). }
  split.
  - now rewrite Hget, dict_get_set_same.
  - intros v Hv. rewrite Hget.
    destruct (String.eqb_spec (resolve v w) (resolve vod w)) as [->|Hne].
    + now rewrite dict_get_set_same.
    + rewrite dict_get_set_other by exact Hne.
      unfold is_split_done in Hv. rewrite Hd in Hv. exact Hv.
Qed.

Lemma split_each_all_succeed (vods : list string) :
  incl vods vods0 ->
  forall (count : Z) (dirs : list string) (ps : PState),
  P (world (child ps)) -> split_state (world (child ps)) <> NotObject ->
  (exists out, fst (split_each cfg None vods count dirs ps) = Fine out) /\
  P (world (child (snd (split_each cfg None vods count dirs ps)))) /\
  split_state (world (child (snd (split_each cfg None vods count dirs ps))))
  <> NotObject /\
  (forall v, is_split_done v (world (child ps)) = Fine true ->
     is_split_done v (world (child (snd (split_each cfg None vods count dirs ps))))
     = Fine true) /\
  (forall v, In v vods ->
     is_split_done v (world (child (snd (split_each cfg None vods count dirs ps))))
     = Fine true).
Proof.
  induction vods as [|vod rest IH]; intros Hin count dirs ps HP Hobj;
    cbn [split_each].
  - cbn [fst snd]. split; [eauto|]. split; [exact HP|]. split; [exact Hobj|].
    split; [auto | intros v []].
  - assert (Hrest : incl rest vods0).
    { intros v Hv. apply Hin. now right. }
    destruct (is_split_done_answers vod _ Hobj) as [b Hb]. rewrite Hb.
    destruct b.
    + destruct (IH Hrest count dirs ps HP Hobj) as (K1 & K2 & K3 & K4 & K5).
      split; [exact K1|]. split; [exact K2|]. split; [exact K3|].
      split; [exact K4|]. intros v [<-|Hv]; [now apply K4 | now apply K5].
    + cbv zeta. set (dir := fst (export_dir_for_vod vod)).
      rewrite run_child. fold dir.
      set (ps2 := say (say_split (path_name vod) dir) (in_world (os_makedirs dir) ps)).
      destruct (makedirs_frame dir _ HP) as [HP1 Hs1].
      assert (HP2 : P (world (child ps2))) by exact HP1.
      destruct (split_succeeds vod (child ps2) (Hin vod (or_introl eq_refl)) HP2)
        as (Hcode & HP3 & Hs3). fold dir in Hcode, HP3, Hs3.
      rewrite Hcode. cbn [Z.eqb].
      set (st3 := snd (script cfg [SPLIT_SCRIPT; vod; dir] (child ps2))) in *.
      assert (Hs : split_state (world st3) = split_state (world (child ps))).
      { rewrite Hs3. exact Hs1. }
      assert (Hobj3 : split_state (world st3) <> NotObject) by now rewrite Hs.
      cbn [child].
      destruct (mark_split_done_keeps vod (world st3) HP3 Hobj3)
        as (M1 & M2 & M3 & M4 & M5).
      destruct (mark_split_done vod (world st3)) as [marked w].
      cbn [fst snd] in M1, M2, M3, M4, M5. subst marked.
      match goal with |- context [split_each cfg None rest ?c ?ds ?p] =>
        destruct (IH Hrest c ds p) as (K1 & K2 & K3 & K4 & K5);
          [exact M2 | exact M3 |] end.
      split; [exact K1|]. split; [exact K2|]. split; [exact K3|].
      split.
      * intros v Hv. apply K4. cbn [in_world child world]. apply M5.
        now rewrite (is_split_done_same v _ _ Hs).
      * intros v [<-|Hv]; [apply K4; exact M4 | now apply K5].
Qed.
End Succeeding.

(** X19. Step 2 without a limit marks every recording it finds, when every
    split succeeds.  Let [P] hold of the world at the start and be kept by
    creating a directory, by saving the state file and by every run of the
    splitter on a found recording; let these runs exit with status 0 and,
    like creating a directory, leave the state file alone; let a saved
    state file read back as saved and paths resolve the same in every
    world.  Then, unless the state file holds JSON that is not an object,
    step 2 returns a list and afterwards [is_split_done] holds of every
    recording found. *)
Theorem step_2_marks_every_recording (P : World -> Prop) (ps : PState) :
  P (world (child ps)) ->
  (forall d w,
     P w -> P (os_makedirs d w) /\ split_state (os_makedirs d w) = split_state w) ->
  (forall vod st,
     In vod (find_all_vods (world (child ps))) -> P (world st) ->
     fst (script cfg [SPLIT_SCRIPT; vod; fst (export_dir_for_vod vod)] st) = 0%Z /\
     P (world (snd (script cfg [SPLIT_SCRIPT; vod;
                                fst (export_dir_for_vod vod)] st))) /\
     split_state (world (snd (script cfg [SPLIT_SCRIPT; vod;
                                          fst (export_dir_for_vod vod)] st)))
     = split_state (world st)) ->
  (forall d w, P w -> P (save_json d w) /\ split_state (save_json d w) = Object d) ->
  (forall p w w', resolve p w = resolve p w') ->
  split_state (world (child ps)) <> NotObject ->
  split_script_exists (world (child ps)) = true ->
  (exists out, fst (step_2_split_all_new_vods cfg None ps) = Fine out) /\
  (forall vod, In vod (find_all_vods (world (child ps))) ->
     is_split_done vod (world (child (snd (step_2_split_all_new_vods cfg None ps))))
     = Fine true).
Proof.
  intros HP Hmk Hok Hsave Hres Hobj Hscript.
  unfold step_2_split_all_new_vods. cbv zeta. cbn [say child said].
  fold (say say_step2 ps). rewrite Hscript. cbn [negb].
  destruct (find_all_vods (world (child ps))) as [|vod rest] eqn:Ev.
  - cbn [fst snd]. split; [eauto | intros v []].
  - destruct (split_each_all_succeed P (vod :: rest) Hmk Hok Hsave Hres
                (vod :: rest) (incl_refl _) 0 [] (say say_step2 ps) HP Hobj)
      as ([out K1] & _ & _ & _ & K5).
    destruct (split_each cfg None (vod :: rest) 0 [] (say say_step2 ps))
      as [r ps1]. cbn [fst snd] in K1, K5. subst r.
    destruct out; cbn [fst snd say child]; (split; [eauto | exact K5]).
Qed.

(** X20. A state file that holds JSON other than an object (a list, a
    number, [null]) makes step 2 fail with an [AttributeError] at the first
    recording, before any split is run, whenever the script and a recording
    exist and the limit is not zero or less. *)
Theorem step_2_non_object_state_file (limit : option Z) (ps : PState) :
  split_script_exists (world (child ps)) = true ->
  find_all_vods (world (child ps)) <> [] ->
  split_state (world (child ps)) = NotObject ->
  (forall n, limit = Some n -> (0 < n)%Z) ->
  step_2_split_all_new_vods cfg limit ps
  = (Crash AttributeError, say say_step2 ps).
Proof.
  intros Hscript Hvods Hstate Hlim.
  unfold step_2_split_all_new_vods. cbv zeta. cbn [say child said].
  fold (say say_step2 ps). rewrite Hscript. cbn [negb].
  destruct (find_all_vods (world (child ps))) as [|vod rest]; [contradiction|].
  cbn [split_each].
  assert (El : match limit with Some n => (n <=? 0)%Z | None => false end = false).
  { destruct limit as [n|]; [|reflexivity]. apply Z.leb_gt. now apply Hlim. }
  rewrite El. unfold is_split_done, load_json. cbn [say child].
  now rewrite Hstate.
Qed.
End Step2Properties.

Lemma step_2_result_witness :
  fst (@Pipeline.step_2_split_all_new_vods _ _ filed_files shipped (Some 1%Z)
         (pipeline_start gameless_vod))
  = Pipeline.Fine ["exports/faker_2024-05-01"%string]
  /\ NoDup ["exports/faker_2024-05-01"%string]
  /\ (Z.of_nat (List.length ["exports/faker_2024-05-01"%string]) <= Z.max 0 1)%Z.
Proof.
  assert (E : @Pipeline.step_2_split_all_new_vods _ _ filed_files shipped (Some 1%Z)
                (pipeline_start gameless_vod)
              = (Pipeline.Fine ["exports/faker_2024-05-01"%string],
                 snd (@Pipeline.step_2_split_all_new_vods _ _ filed_files shipped
                        (Some 1%Z) (pipeline_start gameless_vod)))).
  { vm_compute. reflexivity. }
  split; [rewrite E; reflexivity|].
  destruct (@step_2_result _ _ filed_files shipped (Some 1%Z)
              (pipeline_start gameless_vod) _ _ E) as (K1 & _ & K3).
  split; [exact K1 | exact (K3 1%Z eq_refl)].
Defined.

Lemma step_2_runs_witness :
  exists vs,
    runs (Pipeline.said
            (snd (@Pipeline.step_2_split_all_new_vods _ _ filed_files shipped
                    (Some 0%Z) (pipeline_start unreadable_vods))))
    = [] ++ map (@Pipeline.split_cmd _ _ filed_files) vs
    /\ vs = [].
Proof.
  destruct (@step_2_runs _ _ filed_files shipped (Some 0%Z)
              (pipeline_start unreadable_vods)) as (vs & K1 & _ & _ & K4).
  exists vs. split; [exact K1 | exact (K4 0%Z eq_refl ltac:(lia))].
Defined.

Lemma failed_splits_do_not_stop_step_2_witness :
  fst (@Pipeline.step_2_split_all_new_vods _ _ filed_files shipped (Some 1%Z)
         (pipeline_start unreadable_vods)) = Pipeline.Fine []
  /\ runs (Pipeline.said
             (snd (@Pipeline.step_2_split_all_new_vods _ _ filed_files shipped
                     (Some 1%Z) (pipeline_start unreadable_vods))))
     = [["python"; "split_lol_games.py"; "a.mp4"; "exports/faker_2024-05-01"];
        ["python"; "split_lol_games.py"; "c.mp4"; "exports/faker_2024-05-01"]]%string.
Proof.
  assert (Hfail : forall vod (st : @St scripted_vision filed_host),
    In vod ["a.mp4"; "b.mp4"; "c.mp4"]%string -> world st = unreadable_vods ->
    fst (@script _ filed_host shipped
           ["split_lol_games.py"%string; vod;
            fst (@Pipeline.export_dir_for_vod _ _ filed_files vod)] st) <> 0%Z /\
    world (snd (@script _ filed_host shipped
                  ["split_lol_games.py"%string; vod;
                   fst (@Pipeline.export_dir_for_vod _ _ filed_files vod)] st))
    = unreadable_vods).
  { intros vod [w sp pr] Hin Hw. simpl in Hw. subst w.
    destruct Hin as [<-|[<-|[<-|[]]]]; vm_compute; (split; [discriminate | reflexivity]). }
  assert (Hmarks : forall vod (w : Filed), w = unreadable_vods ->
    @Pipeline.is_split_done _ _ filed_files vod w
    = Pipeline.Fine (String.eqb "b.mp4" vod)).
  { intros vod w ->.
    change (Pipeline.Fine
              match Pipeline.dict_get vod [("b.mp4"%string, Pipeline.JTrue)] with
              | Some Pipeline.JTrue => true
              | _ => false
              end = Pipeline.Fine (String.eqb "b.mp4" vod)).
    cbn [Pipeline.dict_get]. destruct (String.eqb "b.mp4" vod); reflexivity. }
  destruct (@failed_splits_do_not_stop_step_2 _ _ filed_files shipped
              (fun w => w = unreadable_vods) (fun v => String.eqb "b.mp4" v)
              (Some 1%Z) (pipeline_start unreadable_vods)
              eq_refl (fun _ _ e => e) Hfail Hmarks
              eq_refl (fun n e => ltac:(injection e as <-; lia)))
    as (K1 & K2 & _).
  split; [exact K1 | exact K2].
Defined.

Lemma step_2_marks_every_recording_witness :
  @Pipeline.is_split_done _ _ filed_files "a.mp4" gameless_vod = Pipeline.Fine false
  /\ @Pipeline.is_split_done _ _ filed_files "a.mp4"
       (world (Pipeline.child
          (snd (@Pipeline.step_2_split_all_new_vods _ _ filed_files shipped None
                  (pipeline_start gameless_vod)))))
     = Pipeline.Fine true.
Proof.
  split; [reflexivity|].
  assert (Hok : forall vod (st : @St scripted_vision filed_host),
    In vod ["a.mp4"%string] -> fst (world st) = fst gameless_vod ->
    fst (@script _ filed_host shipped
           ["split_lol_games.py"%string; vod;
            fst (@Pipeline.export_dir_for_vod _ _ filed_files vod)] st) = 0%Z /\
    fst (world (snd (@script _ filed_host shipped
                       ["split_lol_games.py"%string; vod;
                        fst (@Pipeline.export_dir_for_vod _ _ filed_files vod)] st)))
    = fst gameless_vod /\
    snd (world (snd (@script _ filed_host shipped
                       ["split_lol_games.py"%string; vod;
                        fst (@Pipeline.export_dir_for_vod _ _ filed_files vod)] st)))
    = snd (world st)).
  { intros vod [[s sf] sp pr] Hin Hw. simpl in Hw. subst s.
    destruct Hin as [<-|[]]. vm_compute. repeat split. }
  exact (proj2 (@step_2_marks_every_recording _ _ filed_files shipped
                  (fun w => fst w = fst gameless_vod) (pipeline_start gameless_vod)
                  eq_refl (fun _ _ e => conj e eq_refl) Hok
                  (fun _ _ e => conj e eq_refl) (fun _ _ _ => eq_refl)
                  ltac:(discriminate) eq_refl)
               "a.mp4"%string (or_introl eq_refl)).
Defined.

Lemma step_2_non_object_state_file_witness :
  @Pipeline.step_2_split_all_new_vods _ _ filed_files shipped (Some 2%Z)
    (pipeline_start (fst gameless_vod, Pipeline.NotObject))
  = (Pipeline.Crash Pipeline.AttributeError,
     Pipeline.say Pipeline.say_step2
       (pipeline_start (fst gameless_vod, Pipeline.NotObject))).
Proof.
  apply (@step_2_non_object_state_file _ _ filed_files shipped (Some 2%Z)
           (pipeline_start (fst gameless_vod, Pipeline.NotObject))).
  - reflexivity.
  - discriminate.
  - reflexivity.
  - intros n [= <-]. lia.
Defined.
